(** * Breakwind: the [surf://] protocol handlers

    A shallow embedding of [app/src/main/surfProtocolHandlers.ts]: the
    resource locator with its legacy-path migration, the image transcode
    coordinator with its table of in-flight handles, the lifecycle of the
    image-processing worker, and the top-level router.

    The module-level variables of the source ([imageProcessorHandles],
    [imageProcessor], [imageProcessorDeinitTimeout]) are fields of one state
    record, next to the parts of the outside world the handlers touch (files,
    the SFFS catalog, pending timers).  Every function of the source is a
    computation in a state-and-exception monad over that record; what a
    function does to the outside (posting a job, resolving a promise, renaming
    a file, ...) is appended to an effect trace. *)

From Stdlib Require Import String Ascii List ZArith Bool Lia DecimalString.
From Stdlib Require DecimalPos DecimalZ.
From stdpp Require Import base option gmap strings list fin_maps.
Import ListNotations.

Local Open Scope string_scope.
Local Open Scope list_scope.

(** ** JavaScript values *)

(** The result of [Number.parseInt]: [NaN] or an integer. *)
Inductive number : Type :=
| NaN
| Int (z : Z).

(** Template-literal interpolation [`${n}`] of such a number (integers in the
    range where JavaScript prints plain decimal digits). *)
Definition numberToString (n : number) : string :=
  match n with
  | NaN => "NaN"
  | Int z => NilZero.string_of_int (Z.to_int z)
  end.

(** The double-quote character, as a string. *)
Definition dquote : string := String (ascii_of_nat 34) EmptyString.

(** [s.endsWith(suffix)] *)
Definition endsWith (s suffix : string) : bool :=
  let n := String.length s in
  let k := String.length suffix in
  (k <=? n)%nat && String.eqb (substring (n - k) k s) suffix.

(** [s.startsWith(p)] *)
Definition startsWith (s p : string) : bool := String.prefix p s.

(** [interface ImageProcessingOptions] *)
Record ImageProcessingOptions : Type := {
  quality : option number;
  maxDimension : option number
}.

(** A parsed [URL]: the parts the handlers read.  [searchParams] keeps the
    query pairs in order, as [URLSearchParams] does. *)
Record URL : Type := {
  protocol : string;
  hostname : string;
  pathname : string;
  searchParams : list (string * string)
}.

(** [searchParams.has(name)] *)
Definition searchParams_has (u : URL) (name : string) : bool :=
  existsb (fun kv => String.eqb (fst kv) name) (searchParams u).

(** [searchParams.get(name)]: the first value under [name], or [null]. *)
Definition searchParams_get (u : URL) (name : string) : option string :=
  snd <$> List.find (fun kv => String.eqb (fst kv) name) (searchParams u).

(** [SFFSResource]: a record of the catalog, with the fields the locator
    reads.  An absent [path] is the empty string (falsy either way). *)
Record SFFSResource : Type := {
  id : string;
  path : string;
  type : string;
  createdAt : string;
  updatedAt : string;
  deleted : bool
}.

(** A [Response] object.  [obj] is the identity of the object: two responses
    with the same [obj] are one object (one body stream), a clone has its
    own. *)
Record Response : Type := {
  obj : nat;
  status : nat;
  headers : list (string * string);
  body : string
}.

(** [response.headers.get(name)] *)
Definition headers_get (r : Response) (name : string) : option string :=
  snd <$> List.find (fun kv => String.eqb (fst kv) name) (headers r).

(** ** The platform

    What the handlers import and this file does not define: Node's
    [path.join], [isPathSafe] of [./utils], the naming rules of [@deta/utils],
    the WHATWG [URL] parser, [Number.parseInt] and the clock. *)
Class Env : Type := {
  join : list string -> string;
  isPathSafe : string -> string -> bool;
  getResourceFileExtension : string -> string;
  (** [getResourceFileName(SFFSMain.convertResourceToCompositeResource(r))] *)
  getResourceFileName : SFFSResource -> string;
  (** [app.getPath('userData')] *)
  userData : string;
  (** [new URL(s)]; [None] when the constructor throws *)
  URL_parse : string -> option URL;
  parseInt : string -> number;
  (** [new Date().toUTCString()] *)
  toUTCString_now : string
}.

(** ** A JavaScript [Map] with string keys

    Entries are kept in insertion order, which is the order [entries()]
    visits them in. *)
Module JsMap.
Section WithValue.
Context {V : Type}.

Definition t : Type := list (string * V).

Definition get (k : string) (m : t) : option V :=
  snd <$> List.find (fun kv => String.eqb (fst kv) k) m.

Definition has (k : string) (m : t) : bool :=
  existsb (fun kv => String.eqb (fst kv) k) m.

Fixpoint set (k : string) (v : V) (m : t) : t :=
  match m with
  | [] => [(k, v)]
  | (k', v') :: m' =>
      if String.eqb k' k then (k, v) :: m' else (k', v') :: set k v m'
  end.

Definition delete (k : string) (m : t) : t :=
  List.filter (fun kv => negb (String.eqb (fst kv) k)) m.

Definition size (m : t) : nat := List.length m.

Definition keys (m : t) : list string := List.map fst m.
End WithValue.
Arguments t : clear implicits.
End JsMap.

(** ** The state *)

(** A file on disk: its bytes and the content type [net.fetch] reports. *)
Record File : Type := {
  file_bytes : string;
  file_mime : string
}.

(** A handle [{ promise, resolve }] of the table is the identity of its
    promise; calling [resolve] is the effect [EResolve]. *)
Definition Handle : Type := nat.

(** The parameters [processImageWithWorker] receives. *)
Record ProcessParams : Type := {
  imgPath : string;
  savePath : string;
  options : ImageProcessingOptions
}.

(** What the worker sends back on its ['message'] channel. *)
Record WorkerResult : Type := {
  messageID : string;
  success : bool;
  buffer : string;
  error : option string
}.

(** What the handlers do to the outside, in the order they do it. *)
Inductive Effect : Type :=
| ESpawn (w : nat)
| EListen (w : nat)
| EUnlisten (w : nat)
| ETerminate (w : nat)
| EPostMessage (w : nat) (params : ProcessParams) (msgID : string)
| EResolve (h : Handle) (r : Response)
| ESetTimeout (t : nat) (delay : N)
| EClearTimeout (t : nat)
| EFetch (file : string)
| ERename (src dst : string)
| EMkdir (dir : string)
| EUpdateResource (r : SFFSResource)
| ELogError (msg : string).

(** Operations of the outside that may fail for reasons the state does not
    hold (permissions, a locked database): each flag makes the operation
    throw. *)
Record Faults : Type := {
  rename_fails : bool;
  mkdir_fails : bool;
  updateResource_fails : bool
}.

Record St : Type := mkSt {
  (** [const imageProcessorHandles = new Map()] *)
  imageProcessorHandles : JsMap.t (list Handle);
  (** [let imageProcessor: Worker | null] *)
  imageProcessor : option nat;
  (** [let imageProcessorDeinitTimeout: NodeJS.Timeout | null] *)
  imageProcessorDeinitTimeout : option nat;
  (** timers armed and neither fired nor cleared, with their delay *)
  timers : list (nat * N);
  files : gmap string File;
  dirs : gset string;
  (** [useSFFSMain()]: the catalog, or [null] *)
  sffs : option (gmap string SFFSResource);
  faults : Faults;
  (** the next fresh identity (promises, responses, workers, timers) *)
  fresh : nat;
  trace : list Effect
}.

Definition set_handles (h : JsMap.t (list Handle)) (s : St) : St :=
  mkSt h (imageProcessor s) (imageProcessorDeinitTimeout s) (timers s)
       (files s) (dirs s) (sffs s) (faults s) (fresh s) (trace s).
Definition set_imageProcessor (w : option nat) (s : St) : St :=
  mkSt (imageProcessorHandles s) w (imageProcessorDeinitTimeout s) (timers s)
       (files s) (dirs s) (sffs s) (faults s) (fresh s) (trace s).
Definition set_deinitTimeout (t : option nat) (s : St) : St :=
  mkSt (imageProcessorHandles s) (imageProcessor s) t (timers s)
       (files s) (dirs s) (sffs s) (faults s) (fresh s) (trace s).
Definition set_timers (ts : list (nat * N)) (s : St) : St :=
  mkSt (imageProcessorHandles s) (imageProcessor s)
       (imageProcessorDeinitTimeout s) ts
       (files s) (dirs s) (sffs s) (faults s) (fresh s) (trace s).
Definition set_files (f : gmap string File) (s : St) : St :=
  mkSt (imageProcessorHandles s) (imageProcessor s)
       (imageProcessorDeinitTimeout s) (timers s)
       f (dirs s) (sffs s) (faults s) (fresh s) (trace s).
Definition set_dirs (d : gset string) (s : St) : St :=
  mkSt (imageProcessorHandles s) (imageProcessor s)
       (imageProcessorDeinitTimeout s) (timers s)
       (files s) d (sffs s) (faults s) (fresh s) (trace s).
Definition set_sffs (c : option (gmap string SFFSResource)) (s : St) : St :=
  mkSt (imageProcessorHandles s) (imageProcessor s)
       (imageProcessorDeinitTimeout s) (timers s)
       (files s) (dirs s) c (faults s) (fresh s) (trace s).
Definition set_fresh (n : nat) (s : St) : St :=
  mkSt (imageProcessorHandles s) (imageProcessor s)
       (imageProcessorDeinitTimeout s) (timers s)
       (files s) (dirs s) (sffs s) (faults s) n (trace s).
Definition set_trace (tr : list Effect) (s : St) : St :=
  mkSt (imageProcessorHandles s) (imageProcessor s)
       (imageProcessorDeinitTimeout s) (timers s)
       (files s) (dirs s) (sffs s) (faults s) (fresh s) tr.

(** ** The monad: state and exceptions *)

Inductive Res (A : Type) : Type :=
| Ok (a : A)
| Throw (e : string).
Arguments Ok {A} a.
Arguments Throw {A} e.

Definition M (A : Type) : Type := St -> Res A * St.

Definition ret {A} (a : A) : M A := fun s => (Ok a, s).

Definition bind {A B} (m : M A) (k : A -> M B) : M B :=
  fun s =>
    match m s with
    | (Ok a, s') => k a s'
    | (Throw e, s') => (Throw e, s')
    end.

Definition throw {A} (e : string) : M A := fun s => (Throw e, s).

(** [try { m } catch (e) { handler(e) }] *)
Definition try_catch {A} (m : M A) (handler : string -> M A) : M A :=
  fun s =>
    match m s with
    | (Ok a, s') => (Ok a, s')
    | (Throw e, s') => handler e s'
    end.

Definition gets {A} (f : St -> A) : M A := fun s => (Ok (f s), s).
Definition modify (f : St -> St) : M unit := fun s => (Ok tt, f s).

Declare Scope js_scope.
Delimit Scope js_scope with js.
Notation "x <- m ;; k" := (bind m (fun x => k))
  (at level 100, m at next level, right associativity) : js_scope.
Notation "m ;;; k" := (bind m (fun _ => k))
  (at level 100, right associativity) : js_scope.
Local Open Scope js_scope.

Definition emit (e : Effect) : M unit :=
  modify (fun s => set_trace (trace s ++ [e]) s).

(** A fresh identity. *)
Definition new_id : M nat :=
  fun s => (Ok (fresh s), set_fresh (S (fresh s)) s).

(** [l.forEach(f)] *)
Fixpoint forEach {A} (f : A -> M unit) (l : list A) : M unit :=
  match l with
  | [] => ret tt
  | x :: l' => f x ;;; forEach f l'
  end.

(** ** Runtime primitives *)

(** [new Response(body, { status, headers })] *)
Definition new_Response (b : string) (st : nat)
    (hs : list (string * string)) : M Response :=
  o <- new_id ;;
  ret {| obj := o; status := st; headers := hs; body := b |}.

(** [response.clone()]: a new object with the same content. *)
Definition clone (r : Response) : M Response :=
  o <- new_id ;;
  ret {| obj := o; status := status r; headers := headers r; body := body r |}.

(** [handle.resolve(r)] *)
Definition resolve (h : Handle) (r : Response) : M unit :=
  emit (EResolve h r).

(** [setTimeout(deinitializeImageProcessor, delay)]: the only callback ever
    armed is [deinitializeImageProcessor], so a timer is its identity and its
    delay. *)
Definition setTimeout (delay : N) : M nat :=
  t <- new_id ;;
  modify (fun s => set_timers (timers s ++ [(t, delay)]) s) ;;;
  emit (ESetTimeout t delay) ;;;
  ret t.

(** [clearTimeout(t)] *)
Definition clearTimeout (t : nat) : M unit :=
  modify (fun s =>
    set_timers (List.filter (fun td => negb (Nat.eqb (fst td) t)) (timers s)) s) ;;;
  emit (EClearTimeout t).

(** [net.fetch(`file://${file}`)]: rejects when there is no such file. *)
Definition net_fetch (file : string) : M Response :=
  emit (EFetch file) ;;;
  f <- gets (fun s => files s !! file) ;;
  match f with
  | Some f => new_Response (file_bytes f) 200 [("content-type", file_mime f)]
  | None => throw "net::ERR_FILE_NOT_FOUND"
  end.

(** [stat(p)] of [fs/promises]: rejects when [p] is neither a file nor a
    directory. *)
Definition stat (p : string) : M unit :=
  f <- gets (fun s => files s !! p) ;;
  d <- gets (fun s => bool_decide (p ∈ dirs s)) ;;
  match f with
  | Some _ => ret tt
  | None => if d then ret tt else throw "ENOENT"
  end.

(** [mkdir(dir, { recursive: true })] *)
Definition mkdir (dir : string) : M unit :=
  emit (EMkdir dir) ;;;
  bad <- gets (fun s => mkdir_fails (faults s)) ;;
  if bad then throw "EACCES"
  else modify (fun s => set_dirs ({[ dir ]} ∪ dirs s) s).

(** [rename(src, dst)] of [fs/promises]: moves the file, replacing what was
    at [dst]; rejects when [src] does not exist. *)
Definition rename (src dst : string) : M unit :=
  emit (ERename src dst) ;;;
  bad <- gets (fun s => rename_fails (faults s)) ;;
  f <- gets (fun s => files s !! src) ;;
  if bad then throw "EPERM"
  else match f with
       | None => throw "ENOENT"
       | Some f => modify (fun s => set_files (<[dst := f]> (delete src (files s))) s)
       end.

(** [log.error(...)] *)
Definition log_error (msg : string) : M unit := emit (ELogError msg).

(** The catalog, [sffs.readResource(id).catch(() => null)]: the record, or
    nothing when there is no catalog or no such record. *)
Definition readResource (resourceId : string) : M (option SFFSResource) :=
  gets (fun s => c ← sffs s; c !! resourceId).

(** The catalog, [sffs.updateResource(raw)] on the catalog [c]: stores the
    record under its id. *)
Definition updateResource (c : gmap string SFFSResource) (r : SFFSResource)
    : M unit :=
  emit (EUpdateResource r) ;;;
  bad <- gets (fun s => updateResource_fails (faults s)) ;;
  if bad then throw "updateResource failed"
  else modify (set_sffs (Some (<[id r := r]> c))).

(** ** The worker's channels *)

(** [imageProcessorOnMessage]: hands the worker's result to every request
    waiting under [result.messageID]. *)
Definition imageProcessorOnMessage (result : WorkerResult) : M unit :=
  hs <- gets (fun s => JsMap.get (messageID result) (imageProcessorHandles s)) ;;
  match hs with
  | None => ret tt
  | Some handles =>
      response <-
        (if negb (success result) then
           let e := default "undefined" (error result) in
           log_error ("Image processing error: " +:+ e) ;;;
           new_Response ("Image Processing Error: " +:+ e) 500
             [("content-type", "text/plain;charset=UTF-8")]
         else new_Response (buffer result) 200 []) ;;
      forEach (fun handle => c <- clone response ;; resolve handle c) handles ;;;
      modify (fun s =>
        set_handles (JsMap.delete (messageID result) (imageProcessorHandles s)) s)
  end.

(** [imageProcessorOnError]: the worker is beyond recovery; every open handle
    is resolved with an error and its entry deleted. *)
Definition imageProcessorOnError (err : string) : M unit :=
  log_error ("Image processing error: " +:+ err +:+
             "! Resolving all active handles with error!") ;;;
  entries <- gets imageProcessorHandles ;;
  forEach (fun '(k, handles) =>
    forEach (fun handle =>
      r <- new_Response "Image Processing Error: Fatal error!" 500
             [("content-type", "text/plain;charset=UTF-8")] ;;
      resolve handle r) handles ;;;
    modify (fun s => set_handles (JsMap.delete k (imageProcessorHandles s)) s))
    entries.

(** [initializeImageProcessor]: starts a worker and listens to it. *)
Definition initializeImageProcessor : M unit :=
  w <- new_id ;;
  emit (ESpawn w) ;;;
  modify (set_imageProcessor (Some w)) ;;;
  emit (EListen w).

(** [deinitializeImageProcessor], the callback of the teardown timer. *)
Definition deinitializeImageProcessor : M unit :=
  p <- gets imageProcessor ;;
  match p with
  | None => ret tt
  | Some w =>
      n <- gets (fun s => JsMap.size (imageProcessorHandles s)) ;;
      if (0 <? n)%nat then
        t <- setTimeout 10000%N ;;
        modify (set_deinitTimeout (Some t))
      else
        emit (EUnlisten w) ;;;
        emit (ETerminate w) ;;;
        modify (set_deinitTimeout None)
  end.

(** The callback of [imageProcessor.terminate().then(...).catch(...)], run
    once the termination has settled: [imageProcessor = null]. *)
Definition terminate_settled : M unit :=
  modify (set_imageProcessor None).

(** ** The transcode coordinator *)

Section Handlers.
Context {env : Env}.

(** [extractImageOptions] *)
Definition extractImageOptions (url : URL) : ImageProcessingOptions :=
  {| quality :=
       if searchParams_has url "quality"
       then Some (parseInt (default "100" (searchParams_get url "quality")))
       else None;
     maxDimension :=
       if searchParams_has url "maxDimension"
       then Some (parseInt (default EmptyString (searchParams_get url "maxDimension")))
       else None |}.

(** [generateCachedPath] *)
Definition generateCachedPath (resourceId baseCacheDir : string)
    (o : ImageProcessingOptions) : string :=
  let cachedName := "/" +:+ resourceId in
  let cachedName :=
    match quality o with
    | Some q => cachedName +:+ "_quality-" +:+ numberToString q
    | None => cachedName
    end in
  let cachedName :=
    match maxDimension o with
    | Some d => cachedName +:+ "_maxDimension-" +:+ numberToString d
    | None => cachedName
    end in
  join [baseCacheDir; cachedName].

(** [processImageWithWorker]: registers a handle under the message id and,
    when the id had no entry, posts the job; then re-arms the teardown timer.
    Returns the promise of the new handle.  ([imgPath] is a string, so the
    [undefined] check never fires, and the executor of [new Promise] runs at
    once, so [resolve] is never [null].) *)
Definition processImageWithWorker (worker : nat) (params : ProcessParams)
    : M Handle :=
  let messageID := imgPath params in
  promise <- new_id ;;
  existing <- gets (fun s => JsMap.get messageID (imageProcessorHandles s)) ;;
  match existing with
  | Some handles =>
      modify (fun s =>
        set_handles
          (JsMap.set messageID (handles ++ [promise]) (imageProcessorHandles s)) s)
  | None =>
      modify (fun s =>
        set_handles (JsMap.set messageID [promise] (imageProcessorHandles s)) s) ;;;
      emit (EPostMessage worker params messageID)
  end ;;;
  old <- gets imageProcessorDeinitTimeout ;;
  match old with
  | Some t => clearTimeout t ;;; modify (set_deinitTimeout None)
  | None => ret tt
  end ;;;
  t <- setTimeout 10000%N ;;
  modify (set_deinitTimeout (Some t)) ;;;
  ret promise.

(** [createCacheDirIfNotExists] *)
Definition createCacheDirIfNotExists (cacheDir : string) : M unit :=
  try_catch (stat cacheDir) (fun _ => mkdir cacheDir).

(** An [async] handler either has its response or is suspended on the promise
    of a handle. *)
Inductive Outcome : Type :=
| Done (r : Response)
| Awaiting (h : Handle).

(** The headers every image response gets. *)
Definition cacheHeaders (resourceId : string) : list (string * string) :=
  [("Cache-Control", "max-age=172800");
   ("ETag", dquote +:+ resourceId +:+ dquote);
   ("Last-Modified", toUTCString_now)].

(** [new Response(response.body, { status, headers: {...response.headers,
    ...cacheHeaders} })] *)
Definition withCacheHeaders (resourceId : string) (response : Response)
    : M Response :=
  new_Response (body response) (status response)
    (headers response ++ cacheHeaders resourceId).

(** [surfProtocolHandleImages], up to the point where it has a response or
    awaits the worker.  The parameter object is destructured as in the
    source. *)
Definition surfProtocolHandleImages
    (requestURL resourceId imgPath cacheDir : string) : M Outcome :=
  try_catch
    (createCacheDirIfNotExists cacheDir ;;;
     url <- match URL_parse requestURL with
            | Some u => ret u
            | None => throw "TypeError: Invalid URL"
            end ;;
     let options := extractImageOptions url in
     match quality options, maxDimension options with
     | None, None =>
         response <- net_fetch imgPath ;;
         r <- withCacheHeaders resourceId response ;;
         ret (Done r)
     | _, _ =>
         let cachedPath := generateCachedPath resourceId cacheDir options in
         stats <- try_catch (stat cachedPath ;;; ret true) (fun _ => ret false) ;;
         if (stats : bool) then
           response <- net_fetch cachedPath ;;
           r <- withCacheHeaders resourceId response ;;
           ret (Done r)
         else
           p <- gets imageProcessor ;;
           match p with
           | None => initializeImageProcessor
           | Some _ => ret tt
           end ;;;
           p <- gets imageProcessor ;;
           match p with
           | None => throw "TypeError: imageProcessor is null"
           | Some worker =>
               h <- processImageWithWorker worker
                      {| imgPath := imgPath; savePath := cachedPath;
                         options := options |} ;;
               ret (Awaiting h)
           end
     end)
    (fun err =>
       log_error ("Image processing error: " +:+ err) ;;;
       r <- new_Response ("'Internal Server Error: " +:+ err) 500
              [("content-type", "text/plain;charset=UTF-8")] ;;
       ret (Done r)).

(** [surfProtocolHandleImages] after its [await processImageWithWorker(...)]:
    the response the handle was resolved with is wrapped with the cache
    headers. *)
Definition surfProtocolHandleImages_resume (resourceId : string)
    (response : Response) : M Response :=
  withCacheHeaders resourceId response.

(** ** The resource locator *)

(** What [fetchFilePath] and [fetchResourceFile] return. *)
Record Located : Type := {
  response : Response;
  filePath : string;
  base : string
}.

(** [fetchFilePath]: a path outside [base] gives a [403] result, a file that
    cannot be fetched gives [null]. *)
Definition fetchFilePath (base filePath : string) : M (option Located) :=
  try_catch
    (if negb (isPathSafe base filePath) then
       r <- new_Response "Forbidden" 403
              [("content-type", "text/plain;charset=UTF-8")] ;;
       ret (Some {| response := r; filePath := filePath; base := base |})
     else
       r <- net_fetch filePath ;;
       ret (Some {| response := r; filePath := filePath; base := base |}))
    (fun _ => ret None).

(** [migrateResourceFile] *)
Definition migrateResourceFile (legacyFilePath newFilePath : string)
    (resource : option SFFSResource) : M unit :=
  (if negb (String.eqb legacyFilePath newFilePath)
   then rename legacyFilePath newFilePath
   else ret tt) ;;;
  catalog <- gets sffs ;;
  match resource, catalog with
  | Some r, Some c =>
      updateResource c
        {| id := id r; path := newFilePath; type := type r;
           createdAt := createdAt r; updatedAt := updatedAt r;
           deleted := deleted r |}
  | _, _ => ret tt
  end.

(** The directory of the resource files,
    [join(app.getPath('userData'), 'sffs_backend', 'resources')]. *)
Definition resourcesDir : string :=
  join [userData; "sffs_backend"; "resources"].

(** The extension [fetchResourceFile] computes: the one of the record's type,
    or none without a record. *)
Definition extensionOf (resource : option SFFSResource) : string :=
  match resource with
  | Some r => getResourceFileExtension (type r)
  | None => EmptyString
  end.

(** The path [fetchResourceFile] calls [newFilePath]. *)
Definition newFilePathOf (resourceId : string) (resource : option SFFSResource)
    : string :=
  let extension := extensionOf resource in
  let newFileName :=
    match resource with
    | Some r => getResourceFileName r
    | None => resourceId
    end in
  join [resourcesDir;
        if String.eqb extension EmptyString then resourceId
        else newFileName +:+ "." +:+ extension].

(** The [404] result of [fetchResourceFile]. *)
Definition notFound (resourceId : string) : M Located :=
  r <- new_Response "Not Found" 404
         [("content-type", "text/plain;charset=UTF-8")] ;;
  ret {| response := r; filePath := join [resourcesDir; resourceId];
         base := resourcesDir |}.

(** [fetchResourceFile] *)
Definition fetchResourceFile (resourceId : string)
    (resource : option SFFSResource) : M Located :=
  let base := resourcesDir in
  try_catch
    (let extension := extensionOf resource in
     stored <-
       match resource with
       | Some r =>
           if negb (String.eqb (path r) EmptyString) &&
              (endsWith (path r) ("." +:+ extension) ||
               endsWith (path r) ".json")
           then fetchFilePath base (path r)
           else ret None
       | None => ret None
       end ;;
     match stored with
     | Some result => ret result
     | None =>
         let newFilePath := newFilePathOf resourceId resource in
         result <- fetchFilePath base newFilePath ;;
         match result with
         | Some result =>
             (if match resource with
                 | Some r => negb (String.eqb (path r) newFilePath)
                 | None => true
                 end
              then migrateResourceFile newFilePath newFilePath resource
              else ret tt) ;;;
             ret result
         | None =>
             let legacyFilePath := join [base; resourceId] in
             result <- fetchFilePath base legacyFilePath ;;
             match result with
             | Some result =>
                 migrateResourceFile legacyFilePath newFilePath resource ;;;
                 ret result
             | None => notFound resourceId
             end
         end
     end)
    (fun err =>
       log_error ("Error fetching resource file: " +:+ err) ;;;
       notFound resourceId).

(** ** The router *)

(** A [GlobalRequest], of which the handlers read the URL. *)
Record Request : Type := { url : string }.

(** [handleSurfResourceDataRequest] *)
Definition handleSurfResourceDataRequest (req : Request) (resourceId : string)
    : M Outcome :=
  resource <- readResource resourceId ;;
  located <- fetchResourceFile resourceId resource ;;
  let contentType := headers_get (response located) "content-type" in
  if match contentType with
     | Some ct => startsWith ct "image/" && negb (startsWith ct "image/gif")
     | None => false
     end
  then surfProtocolHandleImages (url req) resourceId (filePath located)
         (join [base located; "cache"])
  else ret (Done (response located)).

(** [req.url.match(/^surf:\/\/surf\/resource\/([^\/\?]+)/)?.[1]]: the longest
    run of characters other than [/] and [?] after the prefix, when it is not
    empty. *)
Fixpoint takeId (s : string) : string :=
  match s with
  | EmptyString => EmptyString
  | String c s' =>
      if Ascii.eqb c "/" || Ascii.eqb c "?" then EmptyString
      else String c (takeId s')
  end.

Definition matchResourceId (u : string) : option string :=
  let p := "surf://surf/resource/" in
  if String.prefix p u then
    let i := takeId (substring (String.length p) (String.length u) u) in
    if String.eqb i EmptyString then None else Some i
  else None.

Section Router.
(** [handleSurfFileRequest], which serves the hosting document and its
    assets, is left open: the router is modelled for any such handler. *)
Context (handleSurfFileRequest : Request -> M Outcome).

(** [surfProtocolHandler] *)
Definition surfProtocolHandler (req : Request) : M Outcome :=
  try_catch
    (match matchResourceId (url req) with
     | Some resourceId =>
         u <- match URL_parse (url req) with
              | Some u => ret u
              | None => throw "TypeError: Invalid URL"
              end ;;
         if searchParams_has u "raw" &&
            negb (bool_decide (searchParams_get u "raw" = Some "false"))
         then handleSurfResourceDataRequest req resourceId
         else handleSurfFileRequest req
     | None => handleSurfFileRequest req
     end)
    (fun err =>
       log_error ("surf protocol error: " +:+ err) ;;;
       r <- new_Response "Internal Server Error" 500
              [("content-type", "text/plain;charset=UTF-8")] ;;
       ret (Done r)).
End Router.

(** ** The event loop

    What can happen to the coordinator, one atomic step each: a request
    reaches [surfProtocolHandleImages], the worker answers or fails, a
    teardown timer fires, a pending [terminate()] settles, or the worker
    writes a file. *)
Inductive Event : Type :=
| ImagesRequest (requestURL resourceId imgPath cacheDir : string)
| WorkerMessage (result : WorkerResult)
| WorkerError (err : string)
| TimerFires (t : nat)
| TerminateSettled
| FileWritten (file : string) (f : File).

Definition step (e : Event) (s : St) : St :=
  match e with
  | ImagesRequest requestURL resourceId imgPath cacheDir =>
      snd (surfProtocolHandleImages requestURL resourceId imgPath cacheDir s)
  | WorkerMessage result => snd (imageProcessorOnMessage result s)
  | WorkerError err => snd (imageProcessorOnError err s)
  | TimerFires t =>
      if existsb (fun td => Nat.eqb (fst td) t) (timers s) then
        snd (deinitializeImageProcessor
               (set_timers
                  (List.filter (fun td => negb (Nat.eqb (fst td) t)) (timers s)) s))
      else s
  | TerminateSettled => snd (terminate_settled s)
  | FileWritten file f => set_files (<[file := f]> (files s)) s
  end.

(** The state after a list of events, oldest first. *)
Definition run (es : list Event) (s : St) : St :=
  fold_left (fun s e => step e s) es s.

End Handlers.

(** The state the module starts in: no handle, no worker, no timer. *)
Definition initial (fs : gmap string File) (ds : gset string)
    (c : option (gmap string SFFSResource)) (fl : Faults) : St :=
  mkSt [] None None [] fs ds c fl 0 [].

(** ** Reading the trace *)

(** The handles resolved in a trace, in order. *)
Definition resolvedHandles (tr : list Effect) : list Handle :=
  flat_map (fun e => match e with EResolve h _ => [h] | _ => [] end) tr.

(** The responses handed out in a trace, in order. *)
Definition resolutions (tr : list Effect) : list (Handle * Response) :=
  flat_map (fun e => match e with EResolve h r => [(h, r)] | _ => [] end) tr.

(** The jobs posted in a trace: worker, parameters, message id. *)
Definition postedJobs (tr : list Effect) : list (nat * ProcessParams * string) :=
  flat_map (fun e =>
    match e with EPostMessage w p k => [(w, p, k)] | _ => [] end) tr.

(** The workers started in a trace. *)
Definition spawned (tr : list Effect) : list nat :=
  flat_map (fun e => match e with ESpawn w => [w] | _ => [] end) tr.

(** The workers told to terminate in a trace. *)
Definition terminated (tr : list Effect) : list nat :=
  flat_map (fun e => match e with ETerminate w => [w] | _ => [] end) tr.

(** The [rename] calls of a trace. *)
Definition renames (tr : list Effect) : list (string * string) :=
  flat_map (fun e => match e with ERename a b => [(a, b)] | _ => [] end) tr.

(** The files fetched in a trace. *)
Definition fetches (tr : list Effect) : list string :=
  flat_map (fun e => match e with EFetch f => [f] | _ => [] end) tr.

(** The catalog updates of a trace. *)
Definition catalogUpdates (tr : list Effect) : list SFFSResource :=
  flat_map (fun e => match e with EUpdateResource r => [r] | _ => [] end) tr.

(** All handles of a table. *)
Definition tableHandles (m : JsMap.t (list Handle)) : list Handle :=
  concat (List.map snd m).

(** ** The name of a cache file, as the spec words it

    The resource id, then [_quality-<n>] when a quality is given, then
    [_maxDimension-<n>] when a maximal dimension is given. *)
Definition qualitySuffix (o : ImageProcessingOptions) : string :=
  match quality o with
  | Some q => "_quality-" +:+ numberToString q
  | None => EmptyString
  end.

Definition maxDimensionSuffix (o : ImageProcessingOptions) : string :=
  match maxDimension o with
  | Some d => "_maxDimension-" +:+ numberToString d
  | None => EmptyString
  end.

Definition cacheKey (resourceId : string) (o : ImageProcessingOptions) : string :=
  resourceId +:+ qualitySuffix o +:+ maxDimensionSuffix o.

(** ** A concrete platform

    POSIX [path.join], a plain URL parser and decimal [parseInt]: the
    platform the examples below are evaluated on. *)
Module Posix.

(** The segments of a path between its [/] separators. *)
Fixpoint segments (s : string) : list string :=
  match s with
  | EmptyString => [EmptyString]
  | String c s' =>
      if Ascii.eqb c "/" then EmptyString :: segments s'
      else match segments s' with
           | x :: xs => String c x :: xs
           | [] => [String c EmptyString]
           end
  end.

(** One step of Node's [normalizeString]: the stack holds the segments kept
    so far, last one first. *)
Definition pushSegment (allowAboveRoot : bool) (stack : list string)
    (seg : string) : list string :=
  if String.eqb seg EmptyString || String.eqb seg "." then stack
  else if String.eqb seg ".." then
    match stack with
    | top :: rest =>
        if String.eqb top ".."
        then (if allowAboveRoot then ".." :: stack else stack)
        else rest
    | [] => if allowAboveRoot then [".."] else []
    end
  else seg :: stack.

(** [path.posix.normalize] *)
Definition normalize (p : string) : string :=
  if String.eqb p EmptyString then "." else
  let isAbsolute := String.prefix "/" p in
  let trailingSeparator := endsWith p "/" in
  let kept :=
    String.concat "/"
      (rev (fold_left (pushSegment (negb isAbsolute)) (segments p) [])) in
  if String.eqb kept EmptyString then
    (if isAbsolute then "/" else if trailingSeparator then "./" else ".")
  else
    let kept := if trailingSeparator then kept +:+ "/" else kept in
    if isAbsolute then "/" +:+ kept else kept.

(** [path.posix.join] *)
Definition join (args : list string) : string :=
  match List.filter (fun a => negb (String.eqb a EmptyString)) args with
  | [] => "."
  | parts => normalize (String.concat "/" parts)
  end.

(** Modelled from the spec: [isPathSafe] of [./utils] is not among the
    sources; the spec's PathResolver accepts a candidate whose canonical form
    is the base or nested under it. *)
Definition isPathSafe (base candidate : string) : bool :=
  let b := normalize base in
  let c := normalize candidate in
  String.eqb c b || String.prefix (b +:+ "/") c.

(** The longest prefix of [s] whose characters all satisfy [keep], and the
    rest. *)
Fixpoint span (keep : ascii -> bool) (s : string) : string * string :=
  match s with
  | EmptyString => (EmptyString, EmptyString)
  | String c s' =>
      if keep c then let '(a, b) := span keep s' in (String c a, b)
      else (EmptyString, s)
  end.

Definition isNot (cs : list ascii) (c : ascii) : bool :=
  negb (existsb (Ascii.eqb c) cs).

(** The pieces of [s] between the occurrences of [sep]. *)
Fixpoint splitOn (sep : ascii) (s : string) : list string :=
  match s with
  | EmptyString => [EmptyString]
  | String c s' =>
      if Ascii.eqb c sep then EmptyString :: splitOn sep s'
      else match splitOn sep s' with
           | x :: xs => String c x :: xs
           | [] => [String c EmptyString]
           end
  end.

(** [name=value] to the pair; a piece without [=] has the empty value. *)
Definition queryPair (piece : string) : string * string :=
  let '(k, rest) := span (isNot ["="%char]) piece in
  (k, match rest with String _ v => v | EmptyString => EmptyString end).

(** A URL of the shape [scheme://host/path?query#fragment], without
    percent-decoding. *)
Definition URL_parse (s : string) : option URL :=
  let '(scheme, rest) := span (isNot [":"%char]) s in
  if String.eqb scheme EmptyString || negb (String.prefix "://" rest) then None
  else
    let rest := substring 3 (String.length rest) rest in
    let '(host, rest) := span (isNot ["/"; "?"; "#"]%char) rest in
    let '(p, rest) := span (isNot ["?"; "#"]%char) rest in
    let query :=
      match rest with
      | String "?" q => fst (span (isNot ["#"%char]) q)
      | _ => EmptyString
      end in
    Some {| protocol := scheme +:+ ":";
            hostname := host;
            pathname := if String.eqb p EmptyString then "/" else p;
            searchParams :=
              if String.eqb query EmptyString then []
              else List.map queryPair (splitOn "&" query) |}.

(** The value of a run of decimal digits read so far. *)
Fixpoint digits (acc : option Z) (s : string) : option Z :=
  match s with
  | EmptyString => acc
  | String c s' =>
      let n := nat_of_ascii c in
      if (48 <=? n)%nat && (n <=? 57)%nat
      then digits (Some (10 * default 0%Z acc + Z.of_nat (n - 48))%Z) s'
      else acc
  end.

(** [Number.parseInt] on decimal input: an optional sign, then digits up to
    the first other character; [NaN] without a digit. *)
Definition parseInt (s : string) : number :=
  match s with
  | String "-" s' =>
      match digits None s' with Some z => Int (- z) | None => NaN end
  | String "+" s' =>
      match digits None s' with Some z => Int z | None => NaN end
  | _ => match digits None s with Some z => Int z | None => NaN end
  end.

(** Modelled from the spec: the naming rules of [@deta/utils] are not among
    the sources; the spec's scenario keeps image [123] in the file
    [img-123.png]. *)
Definition getResourceFileExtension (type : string) : string :=
  if String.eqb type "image/png" then "png"
  else if String.eqb type "image/gif" then "gif"
  else if String.eqb type "application/pdf" then "pdf"
  else "json".

(** Modelled from the spec: see [getResourceFileExtension]. *)
Definition getResourceFileName (r : SFFSResource) : string := "img-" +:+ id r.

#[export] Instance env : Env :=
  Build_Env join isPathSafe getResourceFileExtension getResourceFileName
    "/data" URL_parse parseInt "Mon, 02 Nov 2026 09:00:00 GMT".

End Posix.

(** ** What the worker's channels hand out *)

(** The response [imageProcessorOnMessage] builds from a result, as the
    object [o]. *)
Definition workerResponse (result : WorkerResult) (o : nat) : Response :=
  if success result then
    {| obj := o; status := 200; headers := []; body := buffer result |}
  else
    {| obj := o; status := 500;
       headers := [("content-type", "text/plain;charset=UTF-8")];
       body := "Image Processing Error: " +:+ default "undefined" (error result) |}.

(** The clone of [r] that is the object [o]. *)
Definition copyOf (r : Response) (o : nat) : Response :=
  {| obj := o; status := status r; headers := headers r; body := body r |}.

(** The response [imageProcessorOnError] builds for a handle, as the object
    [o]. *)
Definition fatalResponse (o : nat) : Response :=
  {| obj := o; status := 500;
     headers := [("content-type", "text/plain;charset=UTF-8")];
     body := "Image Processing Error: Fatal error!" |}.


(** ** A scenario

    The scenario of the spec: image [123] kept at the current-scheme path
    [img-123.png], its record in the catalog, an empty cache. *)
Module Scenario.
Import Posix.

Definition resources : string := "/data/sffs_backend/resources".
Definition imagePath : string := "/data/sffs_backend/resources/img-123.png".
Definition legacyPath : string := "/data/sffs_backend/resources/123".
Definition cachePath : string := "/data/sffs_backend/resources/cache".

Definition image123 : File :=
  {| file_bytes := "png bytes of 123"; file_mime := "image/png" |}.

Definition record123 : SFFSResource :=
  {| id := "123"; path := imagePath; type := "image/png";
     createdAt := "2026-01-01"; updatedAt := "2026-01-02"; deleted := false |}.

Definition noFaults : Faults :=
  {| rename_fails := false; mkdir_fails := false; updateResource_fails := false |}.

(** The image at its current-scheme path, the cache directory not yet
    made. *)
Definition start : St :=
  initial {[ imagePath := image123 ]} ∅ (Some {[ "123" := record123 ]}) noFaults.

(** The record of image [123] before any migration: it points at the
    legacy path. *)
Definition legacyRecord : SFFSResource :=
  {| id := "123"; path := legacyPath; type := "image/png";
     createdAt := "2026-01-01"; updatedAt := "2026-01-02"; deleted := false |}.

(** The image at its legacy path only, under the given faults. *)
Definition legacyStart (fl : Faults) : St :=
  initial {[ legacyPath := image123 ]} ∅ (Some {[ "123" := legacyRecord ]}) fl.

Definition renameFaults : Faults :=
  {| rename_fails := true; mkdir_fails := false; updateResource_fails := false |}.

Definition updateFaults : Faults :=
  {| rename_fails := false; mkdir_fails := false; updateResource_fails := true |}.

(** A stand-in for [handleSurfFileRequest] in the examples: it answers with
    the entry document of the host. *)
Definition documentShell (req : Request) : M Outcome :=
  bind (new_Response "<html>resource.html</html>" 200
          [("content-type", "text/html")])
       (fun r => ret (Done r)).

(** A second image, [456], and the state with both images on disk. *)
Definition imagePath456 : string := "/data/sffs_backend/resources/img-456.png".

Definition image456 : File :=
  {| file_bytes := "png bytes of 456"; file_mime := "image/png" |}.

Definition startTwo : St :=
  initial {[ imagePath := image123; imagePath456 := image456 ]} ∅ None noFaults.

Definition request456 : Event :=
  ImagesRequest "surf://surf/resource/456?raw=1&maxDimension=200" "456"
    imagePath456 cachePath.

(** The cache file of image [123] at quality 70, and the state where it is
    on disk. *)
Definition cached70Path : string :=
  "/data/sffs_backend/resources/cache/123_quality-70".

Definition cached70 : File :=
  {| file_bytes := "webp bytes of 123 at 70"; file_mime := "image/webp" |}.

Definition cachedStart : St :=
  initial {[ imagePath := image123; cached70Path := cached70 ]} {[ cachePath ]}
    (Some {[ "123" := record123 ]}) noFaults.

(** The answer of the worker for image [123]. *)
Definition answer123 : WorkerResult :=
  {| messageID := imagePath; success := true;
     buffer := "webp bytes of 123 at 70"; error := None |}.

Definition request70 : Event :=
  ImagesRequest "surf://surf/resource/123?raw=1&quality=70" "123" imagePath cachePath.
Definition request30 : Event :=
  ImagesRequest "surf://surf/resource/123?raw=1&quality=30" "123" imagePath cachePath.

End Scenario.


(** ** Invariants of the coordinator *)

(** Effects that concern neither the worker, nor a handle, nor a timer. *)
Definition quietEffect (e : Effect) : bool :=
  match e with
  | EFetch _ | ERename _ _ | EMkdir _ | EUpdateResource _ | ELogError _ => true
  | _ => false
  end.

(** [s'] comes after [s] and the coordinator has not moved: same table, same
    worker, same timers; only files, catalog and quiet effects in between. *)
Record quietStep (s s' : St) : Prop := {
  quiet_handles : imageProcessorHandles s' = imageProcessorHandles s;
  quiet_worker : imageProcessor s' = imageProcessor s;
  quiet_timeout : imageProcessorDeinitTimeout s' = imageProcessorDeinitTimeout s;
  quiet_timers : timers s' = timers s;
  quiet_fresh : fresh s <= fresh s';
  quiet_trace : exists tr,
    trace s' = trace s ++ tr /\ forallb quietEffect tr = true
}.

(** A computation that never moves the coordinator. *)
Definition quiet {A} (m : M A) : Prop := forall s, quietStep s (snd (m s)).

(** Handles are handed out once: no handle is resolved twice, no handle sits
    in the table twice, no handle of the table has been resolved, and every
    handle seen so far is older than the next fresh identity. *)
Record handlesOnce (s : St) : Prop := {
  once_resolved : NoDup (resolvedHandles (trace s));
  once_table : NoDup (tableHandles (imageProcessorHandles s));
  once_apart : forall h,
    h ∈ tableHandles (imageProcessorHandles s) ->
    h ∉ resolvedHandles (trace s);
  once_old : forall h,
    h ∈ tableHandles (imageProcessorHandles s) ++ resolvedHandles (trace s) ->
    h < fresh s
}.

(** At most one teardown timer is pending, it is the one the variable
    [imageProcessorDeinitTimeout] holds, and its delay is the fixed one. *)
Definition timersOk (s : St) : Prop :=
  timers s = [] \/
  exists t, timers s = [(t, 10000%N)] /\ imageProcessorDeinitTimeout s = Some t.


(** ** The locator, as the spec words it

    An ordered list of candidate paths, tried in sequence, the first one
    that resolves wins: the stored path of the record (when it ends in the
    extension of the record's type or in [.json]), then the current-scheme
    path, then the legacy path; finding the file at the legacy path triggers
    the migration to the current-scheme path. *)
Section LocatorSpec.
Context {env : Env}.
Local Open Scope js_scope.

Inductive Strategy : Type :=
| StoredPath
| CurrentScheme
| LegacyPath.

(** The legacy path of a resource: the bare id, no extension. *)
Definition legacyPathOf (resourceId : string) : string :=
  join [resourcesDir; resourceId].

(** Whether the stored path of a record is a candidate. *)
Definition storedPathQualifies (r : SFFSResource) : bool :=
  negb (String.eqb (path r) EmptyString) &&
  (endsWith (path r) ("." +:+ getResourceFileExtension (type r)) ||
   endsWith (path r) ".json").

(** The candidates, in the order they are tried. *)
Definition candidates (resourceId : string) (resource : option SFFSResource)
    : list (Strategy * string) :=
  match resource with
  | Some r => if storedPathQualifies r then [(StoredPath, path r)] else []
  | None => []
  end ++
  [(CurrentScheme, newFilePathOf resourceId resource);
   (LegacyPath, legacyPathOf resourceId)].

(** Tries the candidates in order and stops at the first that resolves. *)
Fixpoint tryCandidates (base : string) (cs : list (Strategy * string))
    : M (option (Strategy * Located)) :=
  match cs with
  | [] => ret None
  | (strategy, p) :: rest =>
      result <- fetchFilePath base p ;;
      match result with
      | Some located => ret (Some (strategy, located))
      | None => tryCandidates base rest
      end
  end.

(** The migration a successful strategy triggers. *)
Definition migrationFor (strategy : Strategy) (resourceId : string)
    (resource : option SFFSResource) : M unit :=
  let newFilePath := newFilePathOf resourceId resource in
  match strategy with
  | StoredPath => ret tt
  | CurrentScheme =>
      if match resource with
         | Some r => negb (String.eqb (path r) newFilePath)
         | None => true
         end
      then migrateResourceFile newFilePath newFilePath resource
      else ret tt
  | LegacyPath =>
      migrateResourceFile (legacyPathOf resourceId) newFilePath resource
  end.

(** The locator of the spec, with the [catch] of the source around it. *)
Definition locate (resourceId : string) (resource : option SFFSResource)
    : M Located :=
  try_catch
    (found <- tryCandidates resourcesDir (candidates resourceId resource) ;;
     match found with
     | Some (strategy, located) =>
         migrationFor strategy resourceId resource ;;;
         ret located
     | None => notFound resourceId
     end)
    (fun err =>
       log_error ("Error fetching resource file: " +:+ err) ;;;
       notFound resourceId).

End LocatorSpec.


(** ** Invariants of the locator *)

(** The response [net.fetch] builds for the file [f], as the object [o]. *)
Definition fileResponse (f : File) (o : nat) : Response :=
  {| obj := o; status := 200;
     headers := [("content-type", file_mime f)]; body := file_bytes f |}.

(** [s'] comes after [s] with the same files, no [rename] in between, and
    the same faults. *)
Record worldSame (s s' : St) : Prop := {
  same_files : files s' = files s;
  same_renames : renames (trace s') = renames (trace s);
  same_faults : faults s' = faults s
}.

(** A computation that renames nothing and leaves the files alone. *)
Definition keepsWorld {A} (m : M A) : Prop := forall s, worldSame s (snd (m s)).


(** ** Concurrent requests for one key

    Requests are concurrent when they reach the coordinator before the
    worker has answered: between them anything may happen but a completion
    of their key. *)
Section Concurrent.
Context {env : Env}.

(** The handle a step leaves waiting under the key [k]: the one of a request
    for the image [k] that was submitted to the worker. *)
Definition awaited (k : string) (e : Event) (s : St) : list Handle :=
  match e with
  | ImagesRequest requestURL resourceId img cacheDir =>
      if String.eqb img k then
        match fst (surfProtocolHandleImages requestURL resourceId img cacheDir s) with
        | Ok (Awaiting h) => [h]
        | _ => []
        end
      else []
  | _ => []
  end.

(** The handles a run of events leaves waiting under [k], in order. *)
Fixpoint waiters (k : string) (es : list Event) (s : St) : list Handle :=
  match es with
  | [] => []
  | e :: es' => awaited k e s ++ waiters k es' (step e s)
  end.

(** Whether an event completes the job of the key [k]: the answer of the
    worker for [k], or a fatal error. *)
Definition completes (k : string) (e : Event) : bool :=
  match e with
  | WorkerMessage result => String.eqb (messageID result) k
  | WorkerError _ => true
  | _ => false
  end.

(** The jobs of a trace posted under the key [k]. *)
Definition jobsFor (k : string) (tr : list Effect)
    : list (nat * ProcessParams * string) :=
  List.filter (fun j => String.eqb (snd j) k) (postedJobs tr).

End Concurrent.


(** ** More string methods *)

(** [s.toLowerCase()], on the letters [A] to [Z].  The handlers compare the
    result with the names of [ALLOWED_HOSTNAMES], and no character other
    than an upper-case letter of such a name lower-cases to one of its
    letters. *)
Definition lowerAscii (c : ascii) : ascii :=
  let n := nat_of_ascii c in
  if (65 <=? n)%nat && (n <=? 90)%nat then ascii_of_nat (n + 32) else c.

Fixpoint toLowerCase (s : string) : string :=
  match s with
  | EmptyString => EmptyString
  | String c s' => String (lowerAscii c) (toLowerCase s')
  end.

(** What follows the prefix [p] in [s], when [s] starts with [p]. *)
Fixpoint stripPrefix (p s : string) : option string :=
  match p, s with
  | EmptyString, _ => Some s
  | String a p', String b s' =>
      if Ascii.eqb a b then stripPrefix p' s' else None
  | String _ _, EmptyString => None
  end.

(** [s.replace(pat, '')] with a string pattern: the first occurrence of
    [pat] is taken out, and [s] is returned as it is when there is none. *)
Fixpoint removeFirst (pat s : string) : string :=
  match stripPrefix pat s with
  | Some rest => rest
  | None =>
      match s with
      | EmptyString => EmptyString
      | String c s' => String c (removeFirst pat s')
      end
  end.

(** [s.substring(n)] *)
Fixpoint dropChars (n : nat) (s : string) : string :=
  match n, s with
  | O, _ => s
  | S n', String _ s' => dropChars n' s'
  | S _, EmptyString => EmptyString
  end.

(** [l.includes(x)] *)
Definition includes (l : list string) (x : string) : bool :=
  existsb (String.eqb x) l.

(** [response.ok] *)
Definition ok (r : Response) : bool :=
  (200 <=? status r)%nat && (status r <=? 299)%nat.

(** ** The file server *)

(** [const ALLOWED_HOSTNAMES] *)
Definition ALLOWED_HOSTNAMES : list string := ["core"; "overlay"; "surf"].

(** [HOSTNAME_TO_ROOT[h]].  The object is indexed with [url.hostname] only
    after the host name has passed the check against [ALLOWED_HOSTNAMES],
    and with the literal ['surf']; no inherited property is ever read. *)
Definition HOSTNAME_TO_ROOT (h : string) : option string :=
  if String.eqb h "core" then Some "/Core/core.html"
  else if String.eqb h "overlay" then Some "/Overlay/overlay.html"
  else if String.eqb h "surf" then Some "/Resource/resource.html"
  else None.

(** The longest run of characters other than [/] at the start of [s], and
    what follows it. *)
Fixpoint untilSlash (s : string) : string * string :=
  match s with
  | EmptyString => (EmptyString, EmptyString)
  | String c s' =>
      if Ascii.eqb c "/" then (EmptyString, s)
      else let '(a, b) := untilSlash s' in (String c a, b)
  end.

(** The end of the pattern of [handleSurfFileRequest], after the type: an
    optional group of a [/] and one or more characters other than [/] (the
    id), an optional [/], the end of the input.  The result is the id, when
    the group took part in the match. *)
Definition matchIdTail (rest : string) : option (option string) :=
  match rest with
  | EmptyString => Some None
  | String c r =>
      if Ascii.eqb c "/" then
        let '(i, after) := untilSlash r in
        if String.eqb i EmptyString then
          (if String.eqb r EmptyString then Some None else None)
        else if String.eqb after EmptyString || String.eqb after "/"
        then Some (Some i)
        else None
      else None
  end.

(** [pathname.match(...)] with the pattern of [handleSurfFileRequest]: a
    [/], the type [notebook] or [resource], then [matchIdTail].  The result
    is the type and the id. *)
Definition matchTypeId (pathname : string) : option (string * option string) :=
  match stripPrefix "/notebook" pathname with
  | Some rest => (fun i => ("notebook", i)) <$> matchIdTail rest
  | None =>
      match stripPrefix "/resource" pathname with
      | Some rest => (fun i => ("resource", i)) <$> matchIdTail rest
      | None => None
      end
  end.

(** What [serveFile] and [handleSurfFileRequest] import, next to [Env]:
    Electron's [app], Node's [url] module, [getContentType] of [./utils],
    the build and its environment, and the serialiser of [URL]. *)
Class FileEnv : Type := {
  (** [app.getAppPath()] *)
  getAppPath : string;
  (** [pathToFileURL(p).href] *)
  pathToFileURL : string -> string;
  getContentType : string -> string;
  (** [import.meta.env.DEV && process.env.ELECTRON_RENDERER_URL], when it is
      truthy *)
  devRendererURL : option string;
  (** [new URL(s).href], for [s] that parses *)
  URL_href : string -> string;
  (** [.search] and [.hash] of [URL.parse(s)], for [s] that parses *)
  URL_search : string -> string;
  URL_hash : string -> string;
  (** [.href] of the URL [href] once [.search] and [.hash] are assigned *)
  URL_setSearchHash : string -> string -> string -> string
}.

Section FileServer.
Context {env : Env} {fenv : FileEnv}.
(** [net.fetch(href)], whatever it does *)
Context (fetchURL : string -> M Response).

(** [serveFile].  Only [log.error] is traced, [log.debug] is not. *)
Definition serveFile (req : Request) (targetPath : string) : M Response :=
  try_catch
    (let basePath := join [getAppPath; "out"; "renderer"] in
     let target := join [basePath; targetPath] in
     if negb (isPathSafe basePath target) then
       log_error ("Path is not safe: " +:+ basePath +:+ " " +:+ targetPath) ;;;
       new_Response "Forbidden" 403
         [("content-type", "text/plain;charset=UTF-8")]
     else
       let mainURL :=
         match devRendererURL with
         | Some dev => dev +:+ targetPath
         | None => pathToFileURL target
         end in
       newURL <- match URL_parse mainURL with
                 | Some _ => ret (URL_href mainURL)
                 | None => throw "TypeError: Invalid URL"
                 end ;;
       let newURL :=
         match devRendererURL, URL_parse (url req) with
         | Some _, Some _ =>
             URL_setSearchHash newURL (URL_search (url req)) (URL_hash (url req))
         | _, _ => newURL
         end in
       response <- fetchURL newURL ;;
       match devRendererURL with
       | Some _ => ret response
       | None =>
           new_Response (body response) (status response)
             [("Content-Type", getContentType mainURL)]
       end)
    (fun err =>
       log_error ("serve file: " +:+ err) ;;;
       new_Response "Internal Server Error" 500
         [("content-type", "text/plain;charset=UTF-8")]).

(** The block [handleSurfFileRequest] repeats for a root document: the path
    under [HOSTNAME_TO_ROOT], or the [400] answer. *)
Definition rootPathOf (h hostname : string) : M (Response + string) :=
  match HOSTNAME_TO_ROOT h with
  | Some rootPath => ret (inr rootPath)
  | None =>
      log_error ("Invalid hostname for root path: " +:+ hostname) ;;;
      r <- new_Response "Invalid Breakwind internal protocol hostname" 400
             [("content-type", "text/plain;charset=UTF-8")] ;;
      ret (inl r)
  end.

(** The [try] block of [handleSurfFileRequest] up to its last statement:
    the answer it returns early, or the target path it hands to
    [serveFile]. *)
Definition targetPathOf (req : Request) : M (Response + string) :=
  u <- match URL_parse (url req) with
       | Some u => ret u
       | None => throw "TypeError: Invalid URL"
       end ;;
  if negb (String.eqb (protocol u) "surf-internal:") &&
     negb (String.eqb (protocol u) "surf:") then
    log_error ("Invalid protocol: " +:+ protocol u) ;;;
    r <- new_Response "Invalid Breakwind protocol URL" 400
           [("content-type", "text/plain;charset=UTF-8")] ;;
    ret (inl r)
  else if negb (includes ALLOWED_HOSTNAMES (toLowerCase (hostname u))) then
    log_error ("Invalid hostname: " +:+ hostname u) ;;;
    r <- new_Response "Invalid Breakwind internal protocol hostname" 400
           [("content-type", "text/plain;charset=UTF-8")] ;;
    ret (inl r)
  else if String.eqb (pathname u) "/" then
    rootPathOf (hostname u) (hostname u)
  else if String.eqb (hostname u) "surf" then
    match matchTypeId (pathname u) with
    | Some (type, Some i) =>
        if String.eqb (pathname u) ("/" +:+ type +:+ "/" +:+ i) then
          rootPathOf "surf" (hostname u)
        else if String.eqb (pathname u) ("/" +:+ type) then
          rootPathOf "surf" (hostname u)
        else
          ret (inr (removeFirst ("surf://surf/" +:+ type +:+ "/" +:+ i +:+ "/")
                      (URL_href (url req))))
    | Some (type, None) =>
        if String.eqb (pathname u) ("/" +:+ type) then
          rootPathOf "surf" (hostname u)
        else ret (inr (dropChars (String.length type + 1) (pathname u)))
    | None => ret (inr (pathname u))
    end
  else ret (inr (pathname u)).

(** [handleSurfFileRequest].  The promise of [serveFile] is returned, not
    awaited, so the [catch] does not cover it. *)
Definition handleSurfFileRequest (req : Request) : M Outcome :=
  target <-
    try_catch (targetPathOf req)
      (fun err =>
         log_error ("surf internal protocol error: " +:+ err) ;;;
         r <- new_Response "Internal Server Error" 500
                [("content-type", "text/plain;charset=UTF-8")] ;;
         ret (inl r)) ;;
  match target with
  | inl r => ret (Done r)
  | inr targetPath =>
      r <- serveFile req targetPath ;;
      ret (Done r)
  end.


End FileServer.

Section Surflet.
Context {env : Env}.

(** [checkSurfProtocolRequest] *)
Definition checkSurfProtocolRequest (u : string) : bool :=
  match URL_parse u with
  | Some parsed =>
      String.eqb (protocol parsed) "surf:" &&
      includes ALLOWED_HOSTNAMES (toLowerCase (hostname parsed))
  | None => false
  end.

(** [const cspPolicy] of [surfletProtocolHandler] *)
Definition cspPolicy : string :=
  "default-src 'self'; " +:+
  "script-src 'self' 'unsafe-inline' https://cdnjs.cloudflare.com; " +:+
  "script-src 'self' 'unsafe-inline' https://cdn.jsdelivr.net; " +:+
  "style-src 'self' 'unsafe-inline' https://fonts.googleapis.com https://cdnjs.cloudflare.com; " +:+
  "font-src 'self' https://fonts.googleapis.com https://fonts.gstatic.com; " +:+
  "img-src 'self' data: https://picsum.photos https://via.placeholder.com https://images.unsplash.com; " +:+
  "connect-src 'self'; frame-src 'none'; object-src 'none'; base-uri 'self'; form-action 'self';".

(** [surfletProtocolHandler] *)
Definition surfletProtocolHandler (req : Request) : M Response :=
  try_catch
    (u <- match URL_parse (url req) with
          | Some u => ret u
          | None => throw "TypeError: Invalid URL"
          end ;;
     if negb (endsWith (hostname u) ".app.local") then
       new_Response "Invalid Surflet protocol URL" 400
         [("content-type", "text/plain;charset=UTF-8")]
     else
       let isV2Protocol := endsWith (hostname u) ".v2.app.local" in
       let suffix := if isV2Protocol then ".v2.app.local" else ".app.local" in
       let resourceId := removeFirst suffix (hostname u) in
       resource <- readResource resourceId ;;
       located <- fetchResourceFile resourceId resource ;;
       if negb (ok (response located)) then
         new_Response "Not Found" 404
           [("content-type", "text/plain;charset=UTF-8")]
       else
         let code := body (response located) in
         let headers :=
           ("Content-Type", "text/html") ::
           (if isV2Protocol then [("Content-Security-Policy", cspPolicy)] else []) in
         new_Response code 200 headers)
    (fun err =>
       log_error ("surflet protocol error: " +:+ err) ;;;
       new_Response "Internal Server Error" 500
         [("content-type", "text/plain;charset=UTF-8")]).

End Surflet.


(** ** A concrete file server

    The production build on the platform [Posix]: the application is
    installed under [/app], a [file:] URL is [file://] before the path, and
    URLs are written in their serialised form already. *)
Module PosixFiles.

(** A stand-in for [getContentType] of [./utils] in the examples: the
    content type by the extension of the name. *)
Definition getContentType (u : string) : string :=
  if endsWith u ".html" then "text/html"
  else if endsWith u ".js" then "text/javascript"
  else if endsWith u ".css" then "text/css"
  else "application/octet-stream".

Definition pathToFileURL (p : string) : string := "file://" +:+ p.

(** The query of a URL with its [?], and its fragment with its [#]. *)
Definition URL_search (s : string) : string :=
  match snd (Posix.span (Posix.isNot ["?"; "#"]%char) s) with
  | String "?" q => String "?" (fst (Posix.span (Posix.isNot ["#"%char]) q))
  | _ => EmptyString
  end.

Definition URL_hash (s : string) : string :=
  snd (Posix.span (Posix.isNot ["#"%char]) s).

Definition URL_setSearchHash (href search hash : string) : string :=
  fst (Posix.span (Posix.isNot ["?"; "#"]%char) href) +:+ search +:+ hash.

#[export] Instance fenv : FileEnv :=
  Build_FileEnv "/app" pathToFileURL getContentType None (fun s => s)
    URL_search URL_hash URL_setSearchHash.

(** [net.fetch] of a [file:] URL reads the file at its path; any other URL
    is out of reach. *)
Definition fetchURL (href : string) : M Response :=
  match stripPrefix "file://" href with
  | Some p => net_fetch p
  | None => throw "net::ERR_FAILED"
  end.

End PosixFiles.


(** ** Reading strings *)

(** Whether every character of [s] satisfies [keep]. *)
Fixpoint allChars (keep : ascii -> bool) (s : string) : bool :=
  match s with
  | EmptyString => true
  | String c s' => keep c && allChars keep s'
  end.

(** Whether [s] is empty or starts with a character that satisfies [stop]. *)
Definition stopsAt (stop : ascii -> bool) (s : string) : bool :=
  match s with
  | EmptyString => true
  | String c _ => stop c
  end.

(** The characters that end a resource id in a URL. *)
Definition endsId (c : ascii) : bool := Ascii.eqb c "/" || Ascii.eqb c "?".

(** The separator of path segments. *)
Definition isSlash (c : ascii) : bool := Ascii.eqb c "/".


(** ** What a computation adds to the trace *)

(** Whatever the state, the computation [m] appends effects that satisfy
    [P] to the trace. *)
Definition traceAdds {A} (P : list Effect -> Prop) (m : M A) : Prop :=
  forall s, exists tr, trace (snd (m s)) = trace s ++ tr /\ P tr.

Section Confined.
Context {env : Env}.

(** The effects of a locator that stays inside the directory of the
    resource files: every file fetched is at a path [isPathSafe] accepts,
    and so is the destination of every rename. *)
Definition confined (tr : list Effect) : Prop :=
  Forall (fun p => isPathSafe resourcesDir p = true) (fetches tr)
  /\ Forall (fun ab => isPathSafe resourcesDir (snd ab) = true) (renames tr).

End Confined.


(** The separator of the labels of a host name. *)
Definition isDot (c : ascii) : bool := Ascii.eqb c ".".





(** * Properties *)

(** ** The table of handles *)

Section JsMapFacts.
Context {V : Type}.
Implicit Types (m : JsMap.t V) (k : string) (v : V).

Lemma JsMap_has_get k m :
  JsMap.has k m = match JsMap.get k m with Some _ => true | None => false end.
Proof.
  unfold JsMap.has, JsMap.get.
  induction m as [|[k' v'] m IH]; cbn; [reflexivity|].
  destruct (String.eqb k' k); cbn; [reflexivity|exact IH].
Qed.

Lemma JsMap_get_set_eq k v m : JsMap.get k (JsMap.set k v m) = Some v.
Proof.
  unfold JsMap.get.
  induction m as [|[k' v'] m IH]; cbn.
  - rewrite String.eqb_refl. reflexivity.
  - destruct (String.eqb k' k) eqn:E; cbn.
    + rewrite String.eqb_refl. reflexivity.
    + rewrite E. exact IH.
Qed.

Lemma JsMap_get_set_ne k k' v m :
  k <> k' -> JsMap.get k' (JsMap.set k v m) = JsMap.get k' m.
Proof.
  intros Hne. unfold JsMap.get.
  induction m as [|[k0 v0] m IH]; cbn.
  - destruct (String.eqb_spec k k'); [contradiction|reflexivity].
  - destruct (String.eqb_spec k0 k) as [->|Hk]; cbn.
    + destruct (String.eqb_spec k k'); [contradiction|reflexivity].
    + destruct (String.eqb k0 k'); [reflexivity|exact IH].
Qed.

Lemma JsMap_get_delete_eq k m : JsMap.get k (JsMap.delete k m) = None.
Proof.
  unfold JsMap.get, JsMap.delete.
  induction m as [|[k' v'] m IH]; cbn; [reflexivity|].
  destruct (String.eqb k' k) eqn:E; cbn; [exact IH|].
  rewrite E. exact IH.
Qed.

Lemma JsMap_get_delete_ne k k' m :
  k <> k' -> JsMap.get k' (JsMap.delete k m) = JsMap.get k' m.
Proof.
  intros Hne. unfold JsMap.get, JsMap.delete.
  induction m as [|[k0 v0] m IH]; cbn; [reflexivity|].
  destruct (String.eqb_spec k0 k) as [->|Hk]; cbn.
  - destruct (String.eqb_spec k k'); [contradiction|exact IH].
  - destruct (String.eqb k0 k'); [reflexivity|exact IH].
Qed.

Lemma JsMap_keys_set k v m :
  JsMap.keys (JsMap.set k v m) =
  if JsMap.has k m then JsMap.keys m else JsMap.keys m ++ [k].
Proof.
  unfold JsMap.keys, JsMap.has.
  induction m as [|[k' v'] m IH]; cbn; [reflexivity|].
  destruct (String.eqb_spec k' k) as [->|Hk]; cbn; [reflexivity|].
  rewrite IH. destruct (existsb _ m); reflexivity.
Qed.

(** Deleting every key of a table, one after the other, empties it. *)
Lemma JsMap_delete_all m (ks : list string) :
  (forall k, In k (JsMap.keys m) -> In k ks) ->
  fold_left (fun m k => JsMap.delete k m) ks m = [].
Proof.
  revert m. induction ks as [|k ks IH]; intros m Hin; cbn.
  - destruct m as [|[k v] m]; [reflexivity|].
    exfalso. apply (Hin k). left. reflexivity.
  - apply IH. intros k' Hk'.
    unfold JsMap.keys, JsMap.delete in Hk'.
    apply in_map_iff in Hk' as [[k0 v0] [<- Hf]].
    apply filter_In in Hf as [Hm Hne]. cbn in *.
    destruct (Hin k0) as [->|]; [| |assumption].
    + apply in_map_iff. exists (k0, v0). split; [reflexivity|assumption].
    + rewrite String.eqb_refl in Hne. discriminate.
Qed.
End JsMapFacts.

Arguments JsMap.get : simpl never.
Arguments JsMap.has : simpl never.
Arguments JsMap.set : simpl never.
Arguments JsMap.delete : simpl never.

(** ** The handlers, step by step *)

Ltac unfold_monad :=
  unfold bind, gets, modify, new_id, ret, throw, try_catch, emit, resolve,
    clone, new_Response, log_error, clearTimeout, setTimeout;
  unfold bind, gets, modify, ret, emit.

Section HandlerFacts.
Context {env : Env}.
Local Open Scope js_scope.

(** A submission, as one state update: the handle is the next fresh
    identity, the timer the one after. *)
Lemma processImageWithWorker_eq w params s :
  processImageWithWorker w params s =
  let k := imgPath params in
  let p := fresh s in
  let t := S p in
  (Ok p,
   mkSt (JsMap.set k (default [] (JsMap.get k (imageProcessorHandles s)) ++ [p])
           (imageProcessorHandles s))
        (imageProcessor s)
        (Some t)
        (match imageProcessorDeinitTimeout s with
         | Some old => List.filter (fun td => negb (Nat.eqb (fst td) old)) (timers s)
         | None => timers s
         end ++ [(t, 10000%N)])
        (files s) (dirs s) (sffs s) (faults s) (S t)
        (trace s
           ++ match JsMap.get k (imageProcessorHandles s) with
              | Some _ => []
              | None => [EPostMessage w params k]
              end
           ++ match imageProcessorDeinitTimeout s with
              | Some old => [EClearTimeout old]
              | None => []
              end
           ++ [ESetTimeout t 10000%N])).
Proof.
  destruct s as [hs wk t ts fs ds c fl n tr].
  unfold processImageWithWorker. unfold_monad. cbn.
  destruct (JsMap.get (imgPath params) hs) as [l|]; cbn;
    destruct t as [old|]; cbn;
    rewrite <- ?app_assoc; reflexivity.
Qed.

(** A loop that hands every handle a response built as a new object. *)
Lemma forEach_resolve_fresh (mk : nat -> Response) (hs : list Handle) s :
  forEach (fun handle => r <- (o <- new_id ;; ret (mk o)) ;; resolve handle r) hs s =
  (Ok tt,
   set_fresh (fresh s + List.length hs)
     (set_trace (trace s ++ imap (fun i h => EResolve h (mk (fresh s + i))) hs) s)).
Proof.
  revert s. induction hs as [|h hs IH]; intros s.
  - destruct s. cbn. unfold ret, set_fresh, set_trace. cbn.
    rewrite Nat.add_0_r, app_nil_r. reflexivity.
  - cbn [forEach]. unfold bind at 1. unfold bind at 1.
    unfold resolve. unfold_monad. rewrite IH.
    destruct s as [m wk t ts fs ds c fl n tr]. unfold set_fresh, set_trace. cbn.
    rewrite Nat.add_0_r, <- app_assoc. cbn.
    replace (n + S (List.length hs)) with (S (n + List.length hs)) by lia.
    do 4 f_equal.
    apply imap_ext. intros i x _. cbn. do 2 f_equal. lia.
Qed.

(** The loop of [imageProcessorOnMessage]: one clone per handle. *)
Lemma forEach_clone_resolve response (hs : list Handle) s :
  forEach (fun handle => c <- clone response ;; resolve handle c) hs s =
  (Ok tt,
   set_fresh (fresh s + List.length hs)
     (set_trace
        (trace s ++ imap (fun i h => EResolve h (copyOf response (fresh s + i))) hs)
        s)).
Proof. exact (forEach_resolve_fresh (copyOf response) hs s). Qed.

(** The inner loop of [imageProcessorOnError]: one new response per
    handle. *)
Lemma forEach_fatal_resolve (hs : list Handle) s :
  forEach (fun handle =>
      r <- new_Response "Image Processing Error: Fatal error!" 500
             [("content-type", "text/plain;charset=UTF-8")] ;;
      resolve handle r) hs s =
  (Ok tt,
   set_fresh (fresh s + List.length hs)
     (set_trace
        (trace s ++ imap (fun i h => EResolve h (fatalResponse (fresh s + i))) hs)
        s)).
Proof. exact (forEach_resolve_fresh fatalResponse hs s). Qed.

(** [imageProcessorOnMessage], as one state update. *)
Lemma imageProcessorOnMessage_eq result s :
  imageProcessorOnMessage result s =
  match JsMap.get (messageID result) (imageProcessorHandles s) with
  | None => (Ok tt, s)
  | Some hs =>
      let response := workerResponse result (fresh s) in
      (Ok tt,
       mkSt (JsMap.delete (messageID result) (imageProcessorHandles s))
            (imageProcessor s) (imageProcessorDeinitTimeout s) (timers s)
            (files s) (dirs s) (sffs s) (faults s)
            (S (fresh s) + List.length hs)
            (trace s
               ++ (if success result then []
                   else [ELogError ("Image processing error: " +:+
                                    default "undefined" (error result))])
               ++ imap (fun i h => EResolve h (copyOf response (S (fresh s) + i))) hs))
  end.
Proof.
  unfold imageProcessorOnMessage. unfold bind at 1. unfold gets at 1.
  destruct (JsMap.get (messageID result) (imageProcessorHandles s)) as [hs|];
    [|reflexivity].
  unfold bind at 1.
  destruct s as [m wk t ts fs ds c fl n tr].
  unfold workerResponse.
  destruct (success result); cbn [negb].
  - unfold new_Response, new_id. unfold bind at 1. unfold ret at 1.
    cbv beta iota. unfold bind at 1. rewrite forEach_clone_resolve.
    reflexivity.
  - unfold log_error, emit, new_Response, new_id.
    unfold bind at 1. unfold modify at 1. cbv beta iota.
    unfold bind at 1. unfold ret at 1. cbv beta iota.
    unfold bind at 1. rewrite forEach_clone_resolve.
    cbn. rewrite <- app_assoc. reflexivity.
Qed.

(** The loop of [imageProcessorOnError] over the entries of the table. *)
Lemma forEach_entries_fatal (entries : JsMap.t (list Handle)) s :
  forEach (fun '(k, handles) =>
    forEach (fun handle =>
      r <- new_Response "Image Processing Error: Fatal error!" 500
             [("content-type", "text/plain;charset=UTF-8")] ;;
      resolve handle r) handles ;;;
    modify (fun s => set_handles (JsMap.delete k (imageProcessorHandles s)) s))
    entries s =
  (Ok tt,
   mkSt (fold_left (fun m k => JsMap.delete k m) (JsMap.keys entries)
           (imageProcessorHandles s))
        (imageProcessor s) (imageProcessorDeinitTimeout s) (timers s)
        (files s) (dirs s) (sffs s) (faults s)
        (fresh s + List.length (tableHandles entries))
        (trace s ++ imap (fun i h => EResolve h (fatalResponse (fresh s + i)))
                      (tableHandles entries))).
Proof.
  revert s. induction entries as [|[k hs] entries IH]; intros s.
  - destruct s. cbn. unfold ret. rewrite Nat.add_0_r, app_nil_r. reflexivity.
  - cbn [forEach]. unfold bind at 1. unfold bind at 1.
    rewrite forEach_fatal_resolve.
    unfold modify at 1. rewrite IH.
    destruct s as [m wk t ts fs ds c fl n tr]. cbn.
    unfold tableHandles. cbn. rewrite length_app, imap_app, <- app_assoc.
    rewrite Nat.add_assoc.
    do 4 f_equal.
    apply imap_ext. intros i x _. cbn. do 2 f_equal. lia.
Qed.

(** [imageProcessorOnError], as one state update: the table ends empty. *)
Lemma imageProcessorOnError_eq err s :
  imageProcessorOnError err s =
  (Ok tt,
   mkSt [] (imageProcessor s) (imageProcessorDeinitTimeout s) (timers s)
        (files s) (dirs s) (sffs s) (faults s)
        (fresh s + List.length (tableHandles (imageProcessorHandles s)))
        (trace s
           ++ [ELogError ("Image processing error: " +:+ err +:+
                          "! Resolving all active handles with error!")]
           ++ imap (fun i h => EResolve h (fatalResponse (fresh s + i)))
                (tableHandles (imageProcessorHandles s)))).
Proof.
  unfold imageProcessorOnError, log_error, emit.
  unfold bind at 1. unfold modify at 1.
  unfold bind at 1. unfold gets at 1.
  rewrite forEach_entries_fatal.
  destruct s as [m wk t ts fs ds c fl n tr]. cbn.
  rewrite JsMap_delete_all by auto. rewrite <- app_assoc. reflexivity.
Qed.

(** [deinitializeImageProcessor], as one state update. *)
Lemma deinitializeImageProcessor_eq s :
  deinitializeImageProcessor s =
  match imageProcessor s with
  | None => (Ok tt, s)
  | Some w =>
      if (0 <? JsMap.size (imageProcessorHandles s))%nat then
        (Ok tt,
         mkSt (imageProcessorHandles s) (Some w) (Some (fresh s))
              (timers s ++ [(fresh s, 10000%N)])
              (files s) (dirs s) (sffs s) (faults s) (S (fresh s))
              (trace s ++ [ESetTimeout (fresh s) 10000%N]))
      else
        (Ok tt,
         mkSt (imageProcessorHandles s) (Some w) None (timers s)
              (files s) (dirs s) (sffs s) (faults s) (fresh s)
              (trace s ++ [EUnlisten w; ETerminate w]))
  end.
Proof.
  destruct s as [m wk t ts fs ds c fl n tr].
  unfold deinitializeImageProcessor. unfold_monad. cbn.
  destruct wk as [w|]; [|reflexivity].
  destruct m as [|e m]; cbn; rewrite <- ?app_assoc; reflexivity.
Qed.

End HandlerFacts.

Arguments JsMap.size : simpl never.


(** ** Cache key and deduplication key *)

Lemma append_assoc (a b c : string) : (a +:+ b) +:+ c = a +:+ (b +:+ c).
Proof.
  induction a as [|x a IH]; [reflexivity|].
  change (String x ((a +:+ b) +:+ c) = String x (a +:+ b +:+ c)).
  f_equal. exact IH.
Qed.

Lemma append_empty_r (a : string) : a +:+ EmptyString = a.
Proof.
  induction a as [|x a IH]; [reflexivity|].
  change (String x (a +:+ EmptyString) = String x a).
  f_equal. exact IH.
Qed.

Lemma postedJobs_app tr1 tr2 :
  postedJobs (tr1 ++ tr2) = postedJobs tr1 ++ postedJobs tr2.
Proof. apply flat_map_app. Qed.

Section CacheKey.
Context {env : Env}.

(** The path of a cache file is the cache directory joined with [/] and the
    cache key. *)
Lemma generateCachedPath_cacheKey resourceId baseCacheDir o :
  generateCachedPath resourceId baseCacheDir o =
  join [baseCacheDir; "/" +:+ cacheKey resourceId o].
Proof.
  unfold generateCachedPath, cacheKey, qualitySuffix, maxDimensionSuffix.
  destruct (quality o), (maxDimension o); cbn;
    rewrite ?append_assoc, ?append_empty_r; reflexivity.
Qed.

(** C1, as the code has it: the path of the cache file is the cache
    directory joined with the resource id followed by [_quality-<n>] when a
    quality is given and then by [_maxDimension-<n>] when a maximal dimension
    is given; the key a submission is filed under in the table of in-flight
    handles is another one, the path of the source image, whatever the
    transform parameters: the new handle is appended under that key, and a
    job is posted exactly when that key had no entry. *)
Theorem cache_path_and_dedup_key resourceId baseCacheDir o w params s :
  generateCachedPath resourceId baseCacheDir o =
    join [baseCacheDir;
          "/" +:+ resourceId +:+ qualitySuffix o +:+ maxDimensionSuffix o]
  /\ let table := imageProcessorHandles s in
     let k := imgPath params in
     let s' := snd (processImageWithWorker w params s) in
     JsMap.get k (imageProcessorHandles s') =
       Some (default [] (JsMap.get k table) ++ [fresh s])
     /\ JsMap.keys (imageProcessorHandles s') =
          (if JsMap.has k table then JsMap.keys table
           else JsMap.keys table ++ [k])
     /\ (forall k', k' <> k ->
           JsMap.get k' (imageProcessorHandles s') = JsMap.get k' table)
     /\ postedJobs (trace s') =
          postedJobs (trace s) ++
          (if JsMap.has k table then [] else [(w, params, k)]).
Proof.
  split; [apply generateCachedPath_cacheKey|].
  rewrite processImageWithWorker_eq. cbn.
  repeat split.
  - apply JsMap_get_set_eq.
  - apply JsMap_keys_set.
  - intros k' Hne. apply JsMap_get_set_ne. congruence.
  - rewrite JsMap_has_get, !postedJobs_app.
    destruct (JsMap.get (imgPath params) (imageProcessorHandles s));
      destruct (imageProcessorDeinitTimeout s); cbn;
      rewrite ?app_nil_r; reflexivity.
Qed.

End CacheKey.

Section CacheKeyScenario.
#[local] Existing Instance Posix.env.

(** C1 as stated fails: two requests for image [123], one with [quality=70]
    and one with [quality=30], have different cache files but one
    deduplication key, the path of the image; the second request posts no
    job and waits for the result of the first. *)
Lemma dedup_key_is_not_cache_key :
  let s := run [Scenario.request70; Scenario.request30] Scenario.start in
  generateCachedPath "123" Scenario.cachePath
    {| quality := Some (Int 70); maxDimension := None |}
    = "/data/sffs_backend/resources/cache/123_quality-70"
  /\ generateCachedPath "123" Scenario.cachePath
       {| quality := Some (Int 30); maxDimension := None |}
       = "/data/sffs_backend/resources/cache/123_quality-30"
  /\ imageProcessorHandles s = [(Scenario.imagePath, [1; 3])]
  /\ postedJobs (trace s) =
       [(0, {| imgPath := Scenario.imagePath;
               savePath := "/data/sffs_backend/resources/cache/123_quality-70";
               options := {| quality := Some (Int 70); maxDimension := None |} |},
         Scenario.imagePath)].
Proof. vm_compute. repeat split. Qed.

End CacheKeyScenario.

(** ** Resolutions in a trace *)

Lemma resolutions_app tr1 tr2 :
  resolutions (tr1 ++ tr2) = resolutions tr1 ++ resolutions tr2.
Proof. apply flat_map_app. Qed.

Lemma resolutions_imap (f : nat -> Response) (hs : list Handle) :
  resolutions (imap (fun i h => EResolve h (f i)) hs) =
  imap (fun i h => (h, f i)) hs.
Proof.
  revert f. induction hs as [|h hs IH]; intros f; [reflexivity|].
  cbn. f_equal. apply (IH (f ∘ S)).
Qed.

Lemma fst_imap_pair {B} (f : nat -> B) (hs : list Handle) :
  List.map fst (imap (fun i h => (h, f i)) hs) = hs.
Proof.
  revert f. induction hs as [|h hs IH]; intros f; [reflexivity|].
  cbn. f_equal. apply (IH (f ∘ S)).
Qed.

Lemma snd_imap_pair {B} (f : nat -> B) (hs : list Handle) :
  List.map snd (imap (fun i h => (h, f i)) hs) =
  List.map f (seq 0 (List.length hs)).
Proof.
  revert f. induction hs as [|h hs IH]; intros f; [reflexivity|].
  cbn. f_equal. rewrite <- seq_shift, List.map_map. apply (IH (f ∘ S)).
Qed.

(** ** Computations that leave the coordinator alone *)

Lemma quietStep_refl s : quietStep s s.
Proof.
  split; try reflexivity. exists []. split; [symmetry; apply app_nil_r|reflexivity].
Qed.

Lemma quietStep_trans s1 s2 s3 :
  quietStep s1 s2 -> quietStep s2 s3 -> quietStep s1 s3.
Proof.
  intros [H1 H2 H3 H4 H5 (tr & H6 & H7)] [K1 K2 K3 K4 K5 (tr' & K6 & K7)].
  split; try congruence; [lia|].
  exists (tr ++ tr'). split.
  - rewrite K6, H6, app_assoc. reflexivity.
  - rewrite forallb_app, H7, K7. reflexivity.
Qed.

Lemma quiet_ret {A} (a : A) : quiet (ret a).
Proof. intros s. apply quietStep_refl. Qed.

Lemma quiet_throw {A} e : quiet (@throw A e).
Proof. intros s. apply quietStep_refl. Qed.

Lemma quiet_gets {A} (f : St -> A) : quiet (gets f).
Proof. intros s. apply quietStep_refl. Qed.

Lemma quiet_bind {A B} (m : M A) (k : A -> M B) :
  quiet m -> (forall a, quiet (k a)) -> quiet (bind m k).
Proof.
  intros Hm Hk s. unfold bind. specialize (Hm s).
  destruct (m s) as [[a|e] s1]; cbn in *; [|exact Hm].
  eapply quietStep_trans; [exact Hm|apply Hk].
Qed.

Lemma quiet_try_catch {A} (m : M A) (h : string -> M A) :
  quiet m -> (forall e, quiet (h e)) -> quiet (try_catch m h).
Proof.
  intros Hm Hh s. unfold try_catch. specialize (Hm s).
  destruct (m s) as [[a|e] s1]; cbn in *; [exact Hm|].
  eapply quietStep_trans; [exact Hm|apply Hh].
Qed.

Lemma quiet_emit e : quietEffect e = true -> quiet (emit e).
Proof.
  intros He s. destruct s. split; cbn; try reflexivity.
  exists [e]. split; [reflexivity|]. cbn. rewrite He. reflexivity.
Qed.

Lemma quiet_new_id : quiet new_id.
Proof.
  intros s. destruct s. split; cbn; try reflexivity; [lia|].
  exists []. split; [symmetry; apply app_nil_r|reflexivity].
Qed.

Lemma quiet_modify_world (f : St -> St) :
  (forall s, imageProcessorHandles (f s) = imageProcessorHandles s
             /\ imageProcessor (f s) = imageProcessor s
             /\ imageProcessorDeinitTimeout (f s) = imageProcessorDeinitTimeout s
             /\ timers (f s) = timers s
             /\ fresh (f s) = fresh s
             /\ trace (f s) = trace s) ->
  quiet (modify f).
Proof.
  intros Hf s. destruct (Hf s) as (H1 & H2 & H3 & H4 & H5 & H6).
  split; cbn; try assumption; [lia|].
  exists []. rewrite H6. split; [symmetry; apply app_nil_r|reflexivity].
Qed.

Create HintDb quiet.
#[export] Hint Resolve quiet_ret quiet_throw quiet_gets quiet_new_id : quiet.

Ltac quiet_step :=
  first
    [ apply quiet_bind; [|intros ?]
    | apply quiet_try_catch; [|intros ?]
    | apply quiet_emit; reflexivity
    | apply quiet_modify_world; intros []; cbn; repeat split; reflexivity
    | solve [auto with quiet]
    | match goal with
      | |- quiet (match ?x with _ => _ end) => destruct x
      | |- quiet (if ?b then _ else _) => destruct b
      | |- quiet (let '(_, _) := ?x in _) => destruct x
      end ].

Ltac quiet_auto := repeat quiet_step.

Lemma quiet_new_Response b st hs : quiet (new_Response b st hs).
Proof. unfold new_Response. quiet_auto. Qed.

#[export] Hint Resolve quiet_new_Response : quiet.

Lemma quiet_log_error msg : quiet (log_error msg).
Proof. unfold log_error. quiet_auto. Qed.

Lemma quiet_net_fetch file : quiet (net_fetch file).
Proof. unfold net_fetch. quiet_auto. Qed.

Lemma quiet_stat p : quiet (stat p).
Proof. unfold stat. quiet_auto. Qed.

Lemma quiet_mkdir dir : quiet (mkdir dir).
Proof. unfold mkdir. quiet_auto. Qed.

Lemma quiet_rename src dst : quiet (rename src dst).
Proof. unfold rename. quiet_auto. Qed.

Lemma quiet_updateResource c r : quiet (updateResource c r).
Proof. unfold updateResource. quiet_auto. Qed.

Lemma quiet_readResource resourceId : quiet (readResource resourceId).
Proof. unfold readResource. quiet_auto. Qed.

#[export] Hint Resolve quiet_log_error quiet_net_fetch
  quiet_stat quiet_mkdir quiet_rename quiet_updateResource quiet_readResource
  : quiet.

Section QuietHandlers.
Context {env : Env}.
Local Open Scope js_scope.

Lemma quiet_createCacheDirIfNotExists d : quiet (createCacheDirIfNotExists d).
Proof. unfold createCacheDirIfNotExists. quiet_auto. Qed.

Lemma quiet_withCacheHeaders resourceId r : quiet (withCacheHeaders resourceId r).
Proof. unfold withCacheHeaders. quiet_auto. Qed.

Lemma quiet_fetchFilePath b p : quiet (fetchFilePath b p).
Proof. unfold fetchFilePath. quiet_auto. Qed.

Lemma quiet_migrateResourceFile a b r : quiet (migrateResourceFile a b r).
Proof. unfold migrateResourceFile. quiet_auto. Qed.

Lemma quiet_notFound resourceId : quiet (notFound resourceId).
Proof. unfold notFound. quiet_auto. Qed.

#[local] Hint Resolve quiet_createCacheDirIfNotExists quiet_withCacheHeaders
  quiet_fetchFilePath quiet_migrateResourceFile quiet_notFound : quiet.

Lemma quiet_fetchResourceFile resourceId r : quiet (fetchResourceFile resourceId r).
Proof. unfold fetchResourceFile. quiet_auto. Qed.

(** Probing a path with [stat] changes nothing. *)
Lemma stat_probe p s :
  exists b, try_catch (stat p ;;; ret true) (fun _ => ret false) s = (Ok b, s).
Proof.
  unfold stat. unfold_monad.
  destruct (files s !! p); [eexists; reflexivity|].
  destruct (bool_decide (p ∈ dirs s)); eexists; reflexivity.
Qed.

(** The handler of the [catch] of [surfProtocolHandleImages] answers. *)
Lemma images_catch_done err s :
  exists resp s',
    (log_error ("Image processing error: " +:+ err) ;;;
     r <- new_Response ("'Internal Server Error: " +:+ err) 500
            [("content-type", "text/plain;charset=UTF-8")] ;;
     ret (Done r)) s = (Ok (Done resp), s')
    /\ quietStep s s'.
Proof.
  eexists _, _. split; [reflexivity|].
  destruct s. split; cbn; try reflexivity; [lia|].
  eexists. split; [reflexivity|reflexivity].
Qed.

(** Fetching a file and wrapping it with the cache headers answers or
    throws, and leaves the coordinator alone. *)
Lemma fetch_with_headers resourceId file s :
  let rs := (response <- net_fetch file ;;
             r <- withCacheHeaders resourceId response ;;
             ret (Done r)) s in
  quietStep s (snd rs)
  /\ ((exists resp, fst rs = Ok (Done resp)) \/ (exists e, fst rs = Throw e)).
Proof.
  split.
  - apply (quiet_bind (net_fetch file)); [auto with quiet|].
    intros a. quiet_auto.
  - unfold net_fetch, withCacheHeaders. unfold_monad. cbn.
    destruct (files s !! file); cbn; eauto.
Qed.

End QuietHandlers.

(** ** The shape of an image request *)

Ltac mstep H := unfold bind at 1 in H; cbv beta iota in H.
Ltac mprim f H := unfold f at 1 in H; cbv beta iota in H.

Ltac answer_from_catch e s1 Q1 E :=
  left; cbv beta in E;
  let resp := fresh "resp" in let s' := fresh "s'" in
  let E' := fresh "E" in let Q := fresh "Q" in
  destruct (images_catch_done e s1) as (resp & s' & E' & Q);
  rewrite E' in E; injection E as <- <-; exists resp;
  split; [reflexivity|]; eapply quietStep_trans; [exact Q1|exact Q].

Section Shape.
Context {env : Env}.
Local Open Scope js_scope.

(** A request to [surfProtocolHandleImages] either answers at once, the
    coordinator left alone, or starts a worker when there is none and then
    submits to the worker. *)
Lemma surfProtocolHandleImages_shape requestURL resourceId img cacheDir s r s' :
  surfProtocolHandleImages requestURL resourceId img cacheDir s = (r, s') ->
  (exists resp, r = Ok (Done resp) /\ quietStep s s')
  \/ (exists s1 params,
        quietStep s s1
        /\ imgPath params = img
        /\ let s2 := match imageProcessor s1 with
                     | Some _ => s1
                     | None => snd (initializeImageProcessor s1)
                     end in
           exists w, imageProcessor s2 = Some w
             /\ (r, s') = (Ok (Awaiting (fresh s2)),
                      snd (processImageWithWorker w params s2))).
Proof.
  intros E. unfold surfProtocolHandleImages in E. unfold try_catch at 1 in E.
  unfold bind at 1 in E.
  pose proof (quiet_createCacheDirIfNotExists cacheDir s) as Q1.
  destruct (createCacheDirIfNotExists cacheDir s) as [[[]|e] s1]; cbn [snd] in Q1.
  2:{ answer_from_catch e s1 Q1 E. }
  unfold bind at 1 in E.
  destruct (URL_parse requestURL) as [u|].
  2:{ unfold throw at 1 in E. answer_from_catch "TypeError: Invalid URL" s1 Q1 E. }
  unfold ret at 1 in E. cbv beta iota in E.
  assert (Hfetch : forall file,
    (let (r0, s'0) := (response <- net_fetch file ;;
                       r <- withCacheHeaders resourceId response ;;
                       ret (Done r)) s1 in
     match r0 with
     | Ok a => (Ok a, s'0)
     | Throw e =>
         (log_error ("Image processing error: " +:+ e) ;;;
          r1 <- new_Response ("'Internal Server Error: " +:+ e) 500
                  [("content-type", "text/plain;charset=UTF-8")] ;;
          ret (Done r1)) s'0
     end) = (r, s') ->
    exists resp, r = Ok (Done resp) /\ quietStep s s').
  { intros file E'.
    destruct (fetch_with_headers resourceId file s1) as [Q2 Hr]. cbv zeta in Q2, Hr.
    destruct ((response <- net_fetch file ;;
               r <- withCacheHeaders resourceId response ;; ret (Done r)) s1)
      as [r0 s2]. cbn [fst snd] in *.
    destruct Hr as [[resp ->]|[e ->]].
    - injection E' as <- <-. exists resp. split; [reflexivity|].
      eapply quietStep_trans; eassumption.
    - destruct (images_catch_done e s2) as (resp & s3 & E3 & Q3).
      rewrite E3 in E'. injection E' as <- <-. exists resp.
      split; [reflexivity|].
      eapply quietStep_trans; [exact Q1|]. eapply quietStep_trans; eassumption. }
  assert (Hwork : forall p o,
    (let (r0, s'0) :=
       (stats <- try_catch (stat p ;;; ret true) (fun _ => ret false) ;;
        if (stats : bool) then
          response <- net_fetch p ;;
          r <- withCacheHeaders resourceId response ;;
          ret (Done r)
        else
          w <- gets imageProcessor ;;
          match w with
          | None => initializeImageProcessor
          | Some _ => ret tt
          end ;;;
          w <- gets imageProcessor ;;
          match w with
          | None => throw "TypeError: imageProcessor is null"
          | Some worker =>
              h <- processImageWithWorker worker
                     {| imgPath := img; savePath := p; options := o |} ;;
              ret (Awaiting h)
          end) s1 in
     match r0 with
     | Ok a => (Ok a, s'0)
     | Throw e =>
         (log_error ("Image processing error: " +:+ e) ;;;
          r1 <- new_Response ("'Internal Server Error: " +:+ e) 500
                  [("content-type", "text/plain;charset=UTF-8")] ;;
          ret (Done r1)) s'0
     end) = (r, s') ->
    (exists resp, r = Ok (Done resp) /\ quietStep s s')
    \/ (exists s0 params,
          quietStep s s0
          /\ imgPath params = img
          /\ let s2 := match imageProcessor s0 with
                       | Some _ => s0
                       | None => snd (initializeImageProcessor s0)
                       end in
             exists w, imageProcessor s2 = Some w
               /\ (r, s') = (Ok (Awaiting (fresh s2)),
                             snd (processImageWithWorker w params s2)))).
  { intros p o E'. unfold bind at 1 in E'.
    destruct (stat_probe p s1) as [b Hb]. rewrite Hb in E'.
    destruct b.
    - left. apply (Hfetch p). exact E'.
    - right. exists s1, {| imgPath := img; savePath := p; options := o |}.
      split; [exact Q1|]. split; [reflexivity|]. cbv zeta.
      unfold bind at 1 in E'. unfold gets at 1 in E'.
      destruct (imageProcessor s1) as [w|] eqn:Ew.
      + exists w. split; [exact Ew|].
        mstep E'. mprim @ret E'. mstep E'. mprim @gets E'. rewrite Ew in E'.
        mstep E'. rewrite processImageWithWorker_eq in *. cbv zeta in *.
        unfold ret in E'. cbn [snd]. symmetry. exact E'.
      + exists (fresh s1). split; [destruct s1; reflexivity|].
        mstep E'.
        destruct (initializeImageProcessor s1) as [[[]|e] s2] eqn:Ei;
          [|destruct s1; discriminate].
        assert (Hw : imageProcessor s2 = Some (fresh s1)).
        { destruct s1. cbn in Ei. injection Ei as <-. reflexivity. }
        mstep E'. mprim @gets E'. rewrite Hw in E'.
        mstep E'. cbn [snd].
        rewrite processImageWithWorker_eq in *. cbv zeta in *.
        unfold ret in E'. cbn [snd]. symmetry. exact E'. }
  destruct (quality (extractImageOptions u)).
  - eapply Hwork. exact E.
  - destruct (maxDimension (extractImageOptions u)).
    + eapply Hwork. exact E.
    + left. eapply Hfetch. exact E.
Qed.
End Shape.

(** ** Coalescing of concurrent requests *)

Lemma postedJobs_quiet tr : forallb quietEffect tr = true -> postedJobs tr = [].
Proof.
  induction tr as [|e tr IH]; [reflexivity|]. cbn.
  destruct e; cbn; try discriminate; exact IH.
Qed.

Lemma jobsFor_app k tr1 tr2 : jobsFor k (tr1 ++ tr2) = jobsFor k tr1 ++ jobsFor k tr2.
Proof. unfold jobsFor. rewrite postedJobs_app. apply List.filter_app. Qed.

Section Interleaved.
Context {env : Env}.

(** What a request does to the table and to the posted jobs. *)
Lemma request_summary requestURL resourceId img cacheDir s :
  let rs := surfProtocolHandleImages requestURL resourceId img cacheDir s in
  (exists resp,
     fst rs = Ok (Done resp)
     /\ imageProcessorHandles (snd rs) = imageProcessorHandles s
     /\ postedJobs (trace (snd rs)) = postedJobs (trace s)
     /\ fresh s <= fresh (snd rs))
  \/ (exists h w params,
        fst rs = Ok (Awaiting h)
        /\ imgPath params = img
        /\ fresh s <= h < fresh (snd rs)
        /\ imageProcessorHandles (snd rs) =
             JsMap.set img
               (default [] (JsMap.get img (imageProcessorHandles s)) ++ [h])
               (imageProcessorHandles s)
        /\ postedJobs (trace (snd rs)) =
             postedJobs (trace s) ++
             match JsMap.get img (imageProcessorHandles s) with
             | Some _ => []
             | None => [(w, params, img)]
             end).
Proof.
  cbv zeta.
  destruct (surfProtocolHandleImages requestURL resourceId img cacheDir s)
    as [r s'] eqn:E.
  apply surfProtocolHandleImages_shape in E
    as [(resp & -> & Q)|(s1 & params & Q & Hp & w & Hw & E)].
  - cbn [fst snd]. left. exists resp. destruct Q as [Q1 _ _ _ Q5 (tr & Q6 & Q7)].
    rewrite Q1, Q6, postedJobs_app, (postedJobs_quiet tr Q7), app_nil_r.
    repeat split; try reflexivity. exact Q5.
  - right.
    destruct Q as [Q1 _ _ _ Q5 (tr & Q6 & Q7)].
    set (s2 := match imageProcessor s1 with
               | Some _ => s1
               | None => snd (initializeImageProcessor s1)
               end) in *.
    assert (H2 : imageProcessorHandles s2 = imageProcessorHandles s
                 /\ postedJobs (trace s2) = postedJobs (trace s)
                 /\ fresh s <= fresh s2).
    { subst s2. destruct (imageProcessor s1).
      - rewrite Q1, Q6, postedJobs_app, (postedJobs_quiet tr Q7), app_nil_r.
        repeat split; try reflexivity. exact Q5.
      - destruct s1; cbn in *. rewrite Q1, Q6.
        rewrite <- !app_assoc, !postedJobs_app, (postedJobs_quiet tr Q7). cbn.
        rewrite !app_nil_r. repeat split; try reflexivity. lia. }
    destruct H2 as (Ha & Hb & Hc). clearbody s2.
    injection E as -> ->. cbn [fst snd].
    exists (fresh s2), w, params.
    rewrite processImageWithWorker_eq. cbv zeta.
    cbn [snd imageProcessorHandles trace fresh]. rewrite Hp. rewrite Ha.
    split; [reflexivity|]. split; [reflexivity|]. split; [lia|].
    split; [reflexivity|].
    rewrite !postedJobs_app, Hb.
    destruct (JsMap.get img (imageProcessorHandles s));
      destruct (imageProcessorDeinitTimeout s2); cbn;
      rewrite ?app_nil_r; reflexivity.
Qed.

(** One step that does not complete [k]: the entry of [k] grows by the
    handle the step leaves waiting, if any, and a job is posted under [k]
    only by a step that creates the entry. *)
Lemma step_key k e s :
  completes k e = false ->
  let ws := awaited k e s in
  let s' := step e s in
  JsMap.get k (imageProcessorHandles s') =
    match ws with
    | [] => JsMap.get k (imageProcessorHandles s)
    | _ => Some (default [] (JsMap.get k (imageProcessorHandles s)) ++ ws)
    end
  /\ (exists jobs,
        jobsFor k (trace s') = jobsFor k (trace s) ++ jobs
        /\ List.length jobs =
             match JsMap.get k (imageProcessorHandles s), ws with
             | None, _ :: _ => 1
             | _, _ => 0
             end)
  /\ (forall h, h ∈ ws -> fresh s <= h < fresh s')
  /\ fresh s <= fresh s'
  /\ List.length ws <= 1.
Proof.
  intros Hc. cbv zeta.
  assert (Hsame : forall s',
            imageProcessorHandles s' = imageProcessorHandles s ->
            postedJobs (trace s') = postedJobs (trace s) ->
            fresh s <= fresh s' ->
            JsMap.get k (imageProcessorHandles s') = JsMap.get k (imageProcessorHandles s)
            /\ (exists jobs,
                  jobsFor k (trace s') = jobsFor k (trace s) ++ jobs
                  /\ List.length jobs =
                       match JsMap.get k (imageProcessorHandles s), @nil Handle with
                       | None, _ :: _ => 1
                       | _, _ => 0
                       end)
            /\ (forall h, h ∈ @nil Handle -> fresh s <= h < fresh s')
            /\ fresh s <= fresh s'
            /\ List.length (@nil Handle) <= 1).
  { intros s' H1 H2 H3. rewrite H1. split; [reflexivity|]. split.
    - exists []. unfold jobsFor. rewrite H2, app_nil_r. split; [reflexivity|].
      destruct (JsMap.get k (imageProcessorHandles s)); reflexivity.
    - split; [intros h Hh; inversion Hh|]. split; [exact H3|]. cbn. lia. }
  destruct e as [u rid img cd|result|err|t| |file f]; cbn [step awaited completes] in *.
  - destruct (request_summary u rid img cd s)
      as [(resp & Hr & H1 & H2 & H3)|(h & w & params & Hr & Hp & Hh & H1 & H2)].
    + rewrite Hr. destruct (String.eqb img k); apply Hsame; assumption.
    + rewrite Hr, H1. destruct (String.eqb_spec img k) as [->|Hne].
      * rewrite JsMap_get_set_eq. split; [reflexivity|]. split.
        -- unfold jobsFor. rewrite H2, List.filter_app.
           destruct (JsMap.get k (imageProcessorHandles s)); cbn.
           ++ exists []. split; reflexivity.
           ++ rewrite String.eqb_refl. eexists. split; reflexivity.
        -- split; [intros h' Hin; apply list_elem_of_singleton in Hin as ->; exact Hh|].
           split; [lia|]. cbn. lia.
      * rewrite JsMap_get_set_ne by exact Hne. split; [reflexivity|]. split.
        -- unfold jobsFor. rewrite H2, List.filter_app.
           exists []. split.
           ++ f_equal. destruct (JsMap.get img (imageProcessorHandles s)); cbn;
                [reflexivity|].
              destruct (String.eqb_spec img k); [contradiction|reflexivity].
           ++ destruct (JsMap.get k (imageProcessorHandles s)); reflexivity.
        -- split; [intros h' Hin; inversion Hin|]. split; [lia|]. cbn. lia.
  - rewrite imageProcessorOnMessage_eq.
    destruct (JsMap.get (messageID result) (imageProcessorHandles s)) as [hs|] eqn:Hg.
    + cbv zeta. cbn [snd imageProcessorHandles trace fresh].
      apply String.eqb_neq in Hc.
      rewrite JsMap_get_delete_ne by exact Hc. split; [reflexivity|]. split.
      * exists []. unfold jobsFor. rewrite !postedJobs_app.
        assert (Hno : forall (g : nat -> Response) l,
                   postedJobs (imap (fun i h => EResolve h (g i)) l) = []).
        { intros g l. revert g. induction l as [|x l IH]; intros g; [reflexivity|].
          cbn. apply (IH (g ∘ S)). }
        rewrite Hno. destruct (success result); cbn; rewrite !app_nil_r;
          (split; [reflexivity|]);
          destruct (JsMap.get k (imageProcessorHandles s)); reflexivity.
      * split; [intros h' Hin; inversion Hin|]. split; [lia|]. cbn. lia.
    + apply Hsame; reflexivity || lia.
  - discriminate.
  - destruct (existsb _ (timers s)); [|apply Hsame; reflexivity || lia].
    rewrite deinitializeImageProcessor_eq.
    set (s0 := set_timers _ s).
    assert (H0 : imageProcessorHandles s0 = imageProcessorHandles s
                 /\ trace s0 = trace s /\ fresh s0 = fresh s)
      by (destruct s; repeat split).
    destruct H0 as (A & B & C). clearbody s0.
    destruct (imageProcessor s0);
      [|cbn [snd]; apply Hsame; [exact A | rewrite B; reflexivity | lia]].
    destruct (0 <? _)%nat; apply Hsame;
      cbn [snd imageProcessorHandles trace fresh];
      rewrite ?A, ?B, ?C, ?postedJobs_app; cbn; rewrite ?app_nil_r;
      reflexivity || lia.
  - destruct s; apply Hsame; reflexivity || lia.
  - destruct s; apply Hsame; reflexivity || lia.
Qed.

Lemma run_cons e es s : run (e :: es) s = run es (step e s).
Proof. reflexivity. Qed.

(** A run in which nothing completes [k]: the entry of [k] grows by the
    handles left waiting, in order, and one job is posted under [k], by the
    step that creates the entry. *)
Lemma run_key k es : forall s,
  forallb (fun e => negb (completes k e)) es = true ->
  let ws := waiters k es s in
  let s1 := run es s in
  JsMap.get k (imageProcessorHandles s1) =
    match ws with
    | [] => JsMap.get k (imageProcessorHandles s)
    | _ => Some (default [] (JsMap.get k (imageProcessorHandles s)) ++ ws)
    end
  /\ (exists jobs,
        jobsFor k (trace s1) = jobsFor k (trace s) ++ jobs
        /\ List.length jobs =
             match JsMap.get k (imageProcessorHandles s), ws with
             | None, _ :: _ => 1
             | _, _ => 0
             end)
  /\ (forall h, h ∈ ws -> fresh s <= h < fresh s1)
  /\ fresh s <= fresh s1
  /\ NoDup ws.
Proof.
  induction es as [|e es IH]; intros s Hes; cbv zeta.
  - cbn [waiters]. unfold run. cbn [fold_left].
    split; [reflexivity|]. split.
    + exists []. rewrite app_nil_r. split; [reflexivity|].
      destruct (JsMap.get k (imageProcessorHandles s)); reflexivity.
    + split; [intros h Hh; inversion Hh|]. split; [lia|constructor].
  - cbn [forallb] in Hes. apply andb_true_iff in Hes as [He Hes].
    apply negb_true_iff in He.
    rewrite run_cons. cbn [waiters].
    destruct (step_key k e s He) as (G1 & (j1 & J1 & L1) & F1 & M1 & W1).
    destruct (IH (step e s) Hes) as (G2 & (j2 & J2 & L2) & F2 & M2 & N2).
    destruct (awaited k e s) as [|h [|h' l]]; [| |cbn in W1; lia]; cbn [app].
    + rewrite G1 in G2, L2. split; [exact G2|]. split.
      * exists (j1 ++ j2). rewrite J2, J1, <- app_assoc. split; [reflexivity|].
        rewrite List.length_app, L2.
        destruct (JsMap.get k (imageProcessorHandles s)); cbn in L1; lia.
      * split; [|split; [lia|exact N2]].
        intros h Hh. apply F2 in Hh. lia.
    + rewrite G1 in G2, L2. split.
      * rewrite G2. destruct (waiters k es (step e s)); [reflexivity|].
        simpl (default _ (Some _)). rewrite <- app_assoc. reflexivity.
      * split.
        -- exists (j1 ++ j2). rewrite J2, J1, <- app_assoc. split; [reflexivity|].
           rewrite List.length_app, L2, L1.
           destruct (JsMap.get k (imageProcessorHandles s));
             destruct (waiters k es (step e s)); reflexivity.
        -- assert (Hh : fresh s <= h < fresh (step e s))
             by (apply F1; apply list_elem_of_singleton; reflexivity).
           split; [|split; [lia|]].
           ++ intros x Hx. apply elem_of_cons in Hx as [->|Hx]; [lia|].
              apply F2 in Hx. lia.
           ++ constructor; [|exact N2]. intros Hin. apply F2 in Hin. lia.
Qed.

(** C2: requests for the image [k] are concurrent when they arrive, mixed
    with any other events, in a run [es] in which nothing completes [k]: no
    answer of the worker for [k] and no fatal error; the run starts where
    [k] has no entry.  When one or more of these requests reach the worker,
    [hs] being their handles in order of arrival, the handles are pairwise
    distinct, the entry of [k] holds exactly [hs], and exactly one job has
    been posted under [k] during the run.  When the worker then reports
    success for [k], every handle of [hs] is resolved, in order, each with a
    response of its own (pairwise distinct objects) that has status 200 and
    the bytes the worker sent; the entry of [k] is deleted and nothing more
    is posted. *)
Theorem coalescing k es s result :
  JsMap.get k (imageProcessorHandles s) = None ->
  forallb (fun e => negb (completes k e)) es = true ->
  waiters k es s <> [] ->
  messageID result = k ->
  success result = true ->
  let hs := waiters k es s in
  let s1 := run es s in
  let s2 := step (WorkerMessage result) s1 in
  NoDup hs
  /\ JsMap.get k (imageProcessorHandles s1) = Some hs
  /\ (exists job, jobsFor k (trace s1) = jobsFor k (trace s) ++ [job])
  /\ (exists delivered,
        resolutions (trace s2) = resolutions (trace s1) ++ delivered
        /\ List.map fst delivered = hs
        /\ Forall (fun hr => status (snd hr) = 200 /\ body (snd hr) = buffer result)
             delivered
        /\ NoDup (List.map (fun hr => obj (snd hr)) delivered))
  /\ JsMap.get k (imageProcessorHandles s2) = None
  /\ postedJobs (trace s2) = postedJobs (trace s1).
Proof.
  intros Hnone Hes Hne Hid Hok. cbv zeta.
  destruct (run_key k es s Hes) as (Hget & (jobs & Hjobs & Hlen) & _ & _ & Hnd).
  rewrite Hnone in Hget, Hlen.
  destruct (waiters k es s) as [|h0 hs0] eqn:Hws; [contradiction|].
  cbn [default app] in Hget.
  clear Hws Hne. revert Hget Hnd. generalize (h0 :: hs0). intros hs Hget Hnd.
  split; [exact Hnd|]. split; [exact Hget|]. split.
  { destruct jobs as [|job [|job' jobs]]; try discriminate Hlen.
    exists job. exact Hjobs. }
  cbn [step]. rewrite imageProcessorOnMessage_eq, Hid, Hget. cbv zeta.
  cbn [snd trace imageProcessorHandles]. rewrite Hok.
  set (response := workerResponse result (fresh (run es s))).
  split; [|split].
  - exists (imap (fun i h => (h, copyOf response (S (fresh (run es s)) + i)))
              hs).
    split; [|split; [|split]].
    + rewrite !resolutions_app, app_nil_l, resolutions_imap. reflexivity.
    + apply fst_imap_pair.
    + apply Forall_forall. intros [h r] Hin.
      apply elem_of_lookup_imap in Hin as (i & h' & Heq & _).
      injection Heq as -> ->. subst response. unfold workerResponse.
      rewrite Hok. cbn. split; reflexivity.
    + rewrite <- (List.map_map snd obj), snd_imap_pair, List.map_map. cbn.
      apply NoDup_fmap_2; [|apply NoDup_seq].
      intros i j Hij. cbn in Hij. lia.
  - apply JsMap_get_delete_eq.
  - rewrite !postedJobs_app. cbn.
    assert (Hno : forall (f : nat -> Response) l,
               postedJobs (imap (fun i h => EResolve h (f i)) l) = []).
    { intros f l. revert f. induction l as [|x l IH]; intros f; [reflexivity|].
      cbn. apply (IH (f ∘ S)). }
    rewrite Hno, app_nil_r. reflexivity.
Qed.

End Interleaved.

(** ** Every handle is resolved at most once *)

Lemma resolvedHandles_app tr1 tr2 :
  resolvedHandles (tr1 ++ tr2) = resolvedHandles tr1 ++ resolvedHandles tr2.
Proof. apply flat_map_app. Qed.

Lemma resolvedHandles_quiet tr :
  forallb quietEffect tr = true -> resolvedHandles tr = [].
Proof.
  induction tr as [|e tr IH]; [reflexivity|]. cbn.
  destruct e; cbn; try discriminate; exact IH.
Qed.

Lemma resolvedHandles_imap (f : nat -> Response) (hs : list Handle) :
  resolvedHandles (imap (fun i h => EResolve h (f i)) hs) = hs.
Proof.
  revert f. induction hs as [|h hs IH]; intros f; [reflexivity|].
  cbn. f_equal. apply (IH (f ∘ S)).
Qed.

(** The handles of a table after [set]: the new handle joins the others. *)
Lemma tableHandles_set k (p : Handle) (m : JsMap.t (list Handle)) :
  tableHandles (JsMap.set k (default [] (JsMap.get k m) ++ [p]) m)
  ≡ₚ p :: tableHandles m.
Proof.
  unfold tableHandles, JsMap.get, JsMap.set.
  induction m as [|[k' v'] m IH]; cbn.
  - reflexivity.
  - destruct (String.eqb k' k) eqn:E; cbn.
    + rewrite <- app_assoc. cbn.
      rewrite (Permutation_middle v'). reflexivity.
    + rewrite IH. rewrite (Permutation_middle v'). reflexivity.
Qed.

Lemma tableHandles_get k (m : JsMap.t (list Handle)) hs :
  JsMap.get k m = Some hs -> hs ⊆ tableHandles m.
Proof.
  unfold tableHandles, JsMap.get.
  induction m as [|[k' v'] m IH]; cbn; [discriminate|].
  destruct (String.eqb k' k); cbn.
  - intros [= <-]. intros h Hh. apply elem_of_app. left. exact Hh.
  - intros Hg h Hh. apply elem_of_app. right. apply IH; assumption.
Qed.

Lemma tableHandles_get_NoDup k (m : JsMap.t (list Handle)) hs :
  JsMap.get k m = Some hs -> NoDup (tableHandles m) -> NoDup hs.
Proof.
  unfold tableHandles, JsMap.get.
  induction m as [|[k' v'] m IH]; cbn; [discriminate|].
  intros Hg Hnd. apply NoDup_app in Hnd as (Hv & _ & Hm).
  destruct (String.eqb k' k); cbn in *.
  - injection Hg as <-. exact Hv.
  - apply IH; assumption.
Qed.

Lemma tableHandles_delete k (m : JsMap.t (list Handle)) :
  tableHandles (JsMap.delete k m) `sublist_of` tableHandles m.
Proof.
  unfold tableHandles, JsMap.delete.
  induction m as [|[k' v'] m IH]; cbn; [reflexivity|].
  destruct (String.eqb k' k); cbn.
  - apply sublist_inserts_l. exact IH.
  - apply sublist_app; [reflexivity|exact IH].
Qed.

(** What [get] returns is gone after [delete], when no handle sits in the
    table twice. *)
Lemma tableHandles_delete_get k (m : JsMap.t (list Handle)) hs :
  NoDup (tableHandles m) ->
  JsMap.get k m = Some hs ->
  forall h, h ∈ hs -> h ∉ tableHandles (JsMap.delete k m).
Proof.
  unfold tableHandles, JsMap.get, JsMap.delete.
  induction m as [|[k' v'] m IH]; cbn; [discriminate|].
  intros Hnd Hg h Hh.
  apply NoDup_app in Hnd as (Hv & Hdisj & Hm).
  destruct (String.eqb k' k) eqn:E; cbn in *.
  - injection Hg as <-. intros Hin. apply (Hdisj h Hh).
    eapply elem_of_sublist; [exact Hin|].
    apply (tableHandles_delete k m).
  - intros Hin. apply elem_of_app in Hin as [Hin|Hin].
    + apply (Hdisj h Hin). apply (tableHandles_get k m hs Hg). exact Hh.
    + revert Hin. apply IH; assumption.
Qed.

Lemma handlesOnce_same s s' :
  imageProcessorHandles s' = imageProcessorHandles s ->
  resolvedHandles (trace s') = resolvedHandles (trace s) ->
  fresh s <= fresh s' ->
  handlesOnce s -> handlesOnce s'.
Proof.
  intros Hh Hr Hf [H1 H2 H3 H4].
  split; rewrite ?Hh, ?Hr; try assumption.
  intros h Hin. specialize (H4 h Hin). lia.
Qed.

Lemma handlesOnce_quiet s s' : quietStep s s' -> handlesOnce s -> handlesOnce s'.
Proof.
  intros [H1 _ _ _ H5 (tr & H6 & H7)]. apply handlesOnce_same; try assumption.
  rewrite H6, resolvedHandles_app, (resolvedHandles_quiet tr H7), app_nil_r.
  reflexivity.
Qed.

Lemma handlesOnce_initial fs ds c fl : handlesOnce (initial fs ds c fl).
Proof.
  split; cbn; try constructor.
  - intros h Hh. inversion Hh.
  - intros h Hh. inversion Hh.
Qed.

Lemma handlesOnce_initialize s :
  handlesOnce s -> handlesOnce (snd (initializeImageProcessor s)).
Proof.
  apply handlesOnce_same; destruct s; cbn; try reflexivity; [|lia].
  rewrite <- app_assoc, resolvedHandles_app, app_nil_r. reflexivity.
Qed.

Lemma handlesOnce_submit w params s :
  handlesOnce s -> handlesOnce (snd (processImageWithWorker w params s)).
Proof.
  intros [H1 H2 H3 H4]. rewrite processImageWithWorker_eq. cbv zeta.
  assert (Hres : forall tr,
    resolvedHandles
      (trace s
         ++ match JsMap.get (imgPath params) (imageProcessorHandles s) with
            | Some _ => []
            | None => [EPostMessage w params (imgPath params)]
            end
         ++ (match imageProcessorDeinitTimeout s with
             | Some old => [EClearTimeout old]
             | None => []
             end) ++ tr) = resolvedHandles (trace s) ++ resolvedHandles tr).
  { intros tr. rewrite !resolvedHandles_app.
    destruct (JsMap.get _ _); destruct (imageProcessorDeinitTimeout s);
      reflexivity. }
  assert (Hnew : (fresh s ∉ tableHandles (imageProcessorHandles s))
                 /\ (fresh s ∉ resolvedHandles (trace s))).
  { split; intros Hin; specialize (H4 (fresh s)); rewrite elem_of_app in H4;
      [specialize (H4 (or_introl Hin))|specialize (H4 (or_intror Hin))]; lia. }
  destruct Hnew as [Hn1 Hn2].
  split; cbn [snd trace imageProcessorHandles fresh]; rewrite ?Hres; cbn;
    rewrite ?app_nil_r.
  - exact H1.
  - rewrite tableHandles_set. constructor; assumption.
  - intros h. rewrite tableHandles_set. intros Hin.
    apply elem_of_cons in Hin as [->|Hin]; [exact Hn2|]. apply H3. exact Hin.
  - intros h Hin. apply elem_of_app in Hin as [Hin|Hin].
    + rewrite tableHandles_set in Hin.
      apply elem_of_cons in Hin as [->|Hin]; [lia|].
      specialize (H4 h). rewrite elem_of_app in H4.
      specialize (H4 (or_introl Hin)). lia.
    + specialize (H4 h). rewrite elem_of_app in H4.
      specialize (H4 (or_intror Hin)). lia.
Qed.

Lemma handlesOnce_message result s :
  handlesOnce s -> handlesOnce (snd (imageProcessorOnMessage result s)).
Proof.
  intros [H1 H2 H3 H4]. rewrite imageProcessorOnMessage_eq.
  destruct (JsMap.get (messageID result) (imageProcessorHandles s)) as [hs|] eqn:Hg;
    [|split; assumption].
  cbv zeta.
  assert (Hres : resolvedHandles
    (trace s
       ++ (if success result then []
           else [ELogError ("Image processing error: " +:+
                            default "undefined" (error result))])
       ++ imap (fun i h => EResolve h
                  (copyOf (workerResponse result (fresh s)) (S (fresh s) + i))) hs)
    = resolvedHandles (trace s) ++ hs).
  { rewrite !resolvedHandles_app, resolvedHandles_imap.
    destruct (success result); reflexivity. }
  pose proof (tableHandles_get _ _ _ Hg) as Hsub.
  pose proof (tableHandles_delete (messageID result) (imageProcessorHandles s)) as Hdel.
  split; cbn [snd trace imageProcessorHandles fresh]; rewrite ?Hres.
  - apply NoDup_app. split; [exact H1|]. split.
    + intros h Hr Hh. apply (H3 h); [apply Hsub|]; assumption.
    + eapply tableHandles_get_NoDup; eassumption.
  - eapply sublist_NoDup; eassumption.
  - intros h Hin Hr. apply elem_of_app in Hr as [Hr|Hr].
    + apply (H3 h); [|exact Hr]. exact (elem_of_sublist _ _ _ Hin Hdel).
    + exact (tableHandles_delete_get _ _ _ H2 Hg h Hr Hin).
  - intros h Hin. assert (h < fresh s); [|lia]. apply H4.
    rewrite !elem_of_app in *. destruct Hin as [Hin|[Hin|Hin]].
    + left. exact (elem_of_sublist _ _ _ Hin Hdel).
    + right. exact Hin.
    + left. apply Hsub. exact Hin.
Qed.

Lemma handlesOnce_error err s :
  handlesOnce s -> handlesOnce (snd (imageProcessorOnError err s)).
Proof.
  intros [H1 H2 H3 H4]. rewrite imageProcessorOnError_eq.
  split; cbn [snd trace imageProcessorHandles fresh tableHandles List.map concat];
    rewrite ?resolvedHandles_app, ?resolvedHandles_imap; cbn [resolvedHandles flat_map app].
  - apply NoDup_app. split; [exact H1|]. split; [|exact H2].
    intros h Hr Hh. exact (H3 h Hh Hr).
  - constructor.
  - intros h Hin. inversion Hin.
  - intros h Hin. assert (h < fresh s); [|lia]. apply H4.
    apply elem_of_app.
    apply elem_of_app in Hin as [Hin|Hin]; [right|left]; assumption.
Qed.

Lemma handlesOnce_deinitialize s :
  handlesOnce s -> handlesOnce (snd (deinitializeImageProcessor s)).
Proof.
  rewrite deinitializeImageProcessor_eq.
  destruct (imageProcessor s); [|auto].
  destruct (0 <? JsMap.size (imageProcessorHandles s))%nat;
    apply handlesOnce_same; cbn; try reflexivity; try lia;
    rewrite resolvedHandles_app, app_nil_r; reflexivity.
Qed.

Section HandlesOnce.
Context {env : Env}.

Lemma handlesOnce_request requestURL resourceId img cacheDir s :
  handlesOnce s ->
  handlesOnce (snd (surfProtocolHandleImages requestURL resourceId img cacheDir s)).
Proof.
  intros H.
  destruct (surfProtocolHandleImages requestURL resourceId img cacheDir s)
    as [r s'] eqn:E.
  apply surfProtocolHandleImages_shape in E
    as [(resp & _ & Q)|(s1 & params & Q & _ & w & _ & E)]; cbn [snd].
  - eapply handlesOnce_quiet; eassumption.
  - injection E as _ ->. apply handlesOnce_submit.
    pose proof (handlesOnce_quiet _ _ Q H) as H1.
    destruct (imageProcessor s1); [exact H1|].
    apply handlesOnce_initialize. exact H1.
Qed.

Lemma handlesOnce_step e s : handlesOnce s -> handlesOnce (step e s).
Proof.
  intros H. destruct e; cbn [step].
  - apply handlesOnce_request. exact H.
  - apply handlesOnce_message. exact H.
  - apply handlesOnce_error. exact H.
  - destruct (existsb _ (timers s)); [|exact H].
    apply handlesOnce_deinitialize.
    revert H. apply handlesOnce_same; destruct s; cbn; auto.
  - revert H. apply handlesOnce_same; destruct s; cbn; auto.
  - revert H. apply handlesOnce_same; destruct s; cbn; auto.
Qed.

Lemma handlesOnce_run es s : handlesOnce s -> handlesOnce (run es s).
Proof.
  revert s. induction es as [|e es IH]; intros s H; [exact H|].
  cbn. apply IH, handlesOnce_step, H.
Qed.

(** C10: whatever happens, in whatever order (requests, answers and fatal
    errors of the worker, timers), no handle is resolved twice.  An answer of
    the worker whose message id has no entry in the table changes nothing at
    all, in particular any answer that arrives after a fatal error has
    emptied the table; an answer that finds an entry resolves exactly the
    handles of that entry and leaves no entry under that id, in the one
    step; and the step of a fatal error resolves every handle of the table
    and leaves the table empty. *)
Theorem resolved_at_most_once es fs ds c fl s result err :
  NoDup (resolvedHandles (trace (run es (initial fs ds c fl))))
  /\ (JsMap.get (messageID result) (imageProcessorHandles s) = None ->
      imageProcessorOnMessage result s = (Ok tt, s))
  /\ imageProcessorOnMessage result (snd (imageProcessorOnError err s))
     = (Ok tt, snd (imageProcessorOnError err s))
  /\ (forall hs,
        JsMap.get (messageID result) (imageProcessorHandles s) = Some hs ->
        let s' := snd (imageProcessorOnMessage result s) in
        resolvedHandles (trace s') = resolvedHandles (trace s) ++ hs
        /\ JsMap.get (messageID result) (imageProcessorHandles s') = None)
  /\ (let s' := snd (imageProcessorOnError err s) in
      resolvedHandles (trace s') =
        resolvedHandles (trace s) ++ tableHandles (imageProcessorHandles s)
      /\ imageProcessorHandles s' = []).
Proof.
  split; [apply once_resolved, handlesOnce_run, handlesOnce_initial|].
  split; [intros Hg; rewrite imageProcessorOnMessage_eq, Hg; reflexivity|].
  split; [rewrite imageProcessorOnMessage_eq, imageProcessorOnError_eq;
          reflexivity|].
  split.
  - intros hs Hg. rewrite imageProcessorOnMessage_eq, Hg. cbv zeta.
    cbn [snd trace imageProcessorHandles]. split.
    + rewrite !resolvedHandles_app, resolvedHandles_imap.
      destruct (success result); reflexivity.
    + apply JsMap_get_delete_eq.
  - rewrite imageProcessorOnError_eq. cbn [snd trace imageProcessorHandles].
    split; [|reflexivity].
    rewrite !resolvedHandles_app, resolvedHandles_imap. reflexivity.
Qed.

End HandlesOnce.

(** ** Teardown of the worker *)

Lemma terminated_app tr1 tr2 :
  terminated (tr1 ++ tr2) = terminated tr1 ++ terminated tr2.
Proof. apply flat_map_app. Qed.

Lemma terminated_quiet tr : forallb quietEffect tr = true -> terminated tr = [].
Proof.
  induction tr as [|e tr IH]; [reflexivity|]. cbn.
  destruct e; cbn; try discriminate; exact IH.
Qed.

Lemma terminated_quietStep s s' :
  quietStep s s' -> terminated (trace s') = terminated (trace s).
Proof.
  intros [_ _ _ _ _ (tr & -> & Hq)].
  rewrite terminated_app, (terminated_quiet tr Hq), app_nil_r. reflexivity.
Qed.

Lemma terminated_initialize s :
  terminated (trace (snd (initializeImageProcessor s))) = terminated (trace s).
Proof.
  destruct s; cbn. rewrite <- app_assoc, terminated_app, app_nil_r. reflexivity.
Qed.

Lemma terminated_submit w params s :
  terminated (trace (snd (processImageWithWorker w params s)))
  = terminated (trace s).
Proof.
  rewrite processImageWithWorker_eq. cbn. rewrite !terminated_app.
  destruct (JsMap.get _ _); destruct (imageProcessorDeinitTimeout s); cbn;
    rewrite ?app_nil_r; reflexivity.
Qed.

Lemma terminated_imap_resolve (f : nat -> Response) (hs : list Handle) :
  terminated (imap (fun i h => EResolve h (f i)) hs) = [].
Proof.
  revert f. induction hs as [|h hs IH]; intros f; [reflexivity|].
  cbn. apply (IH (f ∘ S)).
Qed.

Lemma terminated_message result s :
  terminated (trace (snd (imageProcessorOnMessage result s)))
  = terminated (trace s).
Proof.
  rewrite imageProcessorOnMessage_eq.
  destruct (JsMap.get _ _); [|reflexivity]. cbv zeta. cbn [snd trace].
  rewrite !terminated_app, terminated_imap_resolve.
  destruct (success result); cbn; rewrite ?app_nil_r; reflexivity.
Qed.

Lemma terminated_error err s :
  terminated (trace (snd (imageProcessorOnError err s))) = terminated (trace s).
Proof.
  rewrite imageProcessorOnError_eq. cbn [snd trace].
  rewrite !terminated_app, terminated_imap_resolve. cbn.
  rewrite app_nil_r. reflexivity.
Qed.

Lemma timersOk_submit w params s :
  timersOk s ->
  let s' := snd (processImageWithWorker w params s) in
  timers s' = [(S (fresh s), 10000%N)]
  /\ imageProcessorDeinitTimeout s' = Some (S (fresh s)).
Proof.
  intros Hok. rewrite processImageWithWorker_eq. cbn. split; [|reflexivity].
  destruct Hok as [->|(t & -> & ->)]; cbn.
  - destruct (imageProcessorDeinitTimeout s); reflexivity.
  - rewrite Nat.eqb_refl. reflexivity.
Qed.

Lemma timersOk_deinitialize s :
  timers s = [] -> timersOk (snd (deinitializeImageProcessor s)).
Proof.
  intros Ht. rewrite deinitializeImageProcessor_eq.
  destruct (imageProcessor s); [|left; exact Ht].
  destruct (0 <? JsMap.size (imageProcessorHandles s))%nat; cbn.
  - right. exists (fresh s). rewrite Ht. split; reflexivity.
  - left. exact Ht.
Qed.

Section Teardown.
Context {env : Env}.

Lemma timersOk_step e s : timersOk s -> timersOk (step e s).
Proof.
  intros Hok. destruct e as [u rid img cd|result|err|t| |file f]; cbn [step].
  - destruct (surfProtocolHandleImages u rid img cd s) as [r s'] eqn:E.
    apply surfProtocolHandleImages_shape in E
      as [(resp & _ & Q)|(s1 & params & Q & _ & w & _ & E)]; cbn [snd].
    + destruct Q as [_ _ Q3 Q4 _ _]. unfold timersOk. rewrite Q3, Q4. exact Hok.
    + injection E as _ ->.
      assert (Hok1 : timersOk s1).
      { destruct Q as [_ _ Q3 Q4 _ _]. unfold timersOk. rewrite Q3, Q4. exact Hok. }
      assert (Hok2 : timersOk match imageProcessor s1 with
                              | Some _ => s1
                              | None => snd (initializeImageProcessor s1)
                              end).
      { destruct (imageProcessor s1); [exact Hok1|]. destruct s1; exact Hok1. }
      destruct (timersOk_submit w params _ Hok2) as [Ht Hv].
      right. eexists. split; eassumption.
  - rewrite imageProcessorOnMessage_eq.
    destruct (JsMap.get _ _); [|exact Hok]. exact Hok.
  - rewrite imageProcessorOnError_eq. exact Hok.
  - destruct (existsb _ (timers s)) eqn:Ex; [|exact Hok].
    apply timersOk_deinitialize.
    destruct Hok as [Ht|(t0 & Ht & _)]; rewrite Ht in *; cbn in *; [discriminate|].
    destruct s; cbn in *. rewrite orb_false_r in Ex. rewrite Ex. reflexivity.
  - destruct s; exact Hok.
  - destruct s; exact Hok.
Qed.

Lemma timersOk_run es s : timersOk s -> timersOk (run es s).
Proof.
  revert s. induction es as [|e es IH]; intros s H; [exact H|].
  cbn. apply IH, timersOk_step, H.
Qed.

(** Only a timer that fires on an empty table makes the worker terminate. *)
Lemma terminated_step e s :
  terminated (trace (step e s)) <> terminated (trace s) ->
  imageProcessorHandles s = []
  /\ exists t w,
       e = TimerFires t
       /\ In t (List.map fst (timers s))
       /\ imageProcessor s = Some w
       /\ terminated (trace (step e s)) = terminated (trace s) ++ [w].
Proof.
  destruct e as [u rid img cd|result|err|t| |file f]; cbn [step]; intros Hne.
  - exfalso. apply Hne.
    destruct (surfProtocolHandleImages u rid img cd s) as [r s'] eqn:E.
    apply surfProtocolHandleImages_shape in E
      as [(resp & _ & Q)|(s1 & params & Q & _ & w & _ & E)]; cbn [snd].
    + apply terminated_quietStep. exact Q.
    + injection E as _ ->. rewrite terminated_submit.
      rewrite <- (terminated_quietStep _ _ Q).
      destruct (imageProcessor s1); [reflexivity|apply terminated_initialize].
  - exfalso. apply Hne, terminated_message.
  - exfalso. apply Hne, terminated_error.
  - destruct (existsb _ (timers s)) eqn:Ex; [|contradiction].
    rewrite deinitializeImageProcessor_eq in *.
    destruct s as [m wk tv ts fs0 ds0 c0 fl0 n tr]. cbn in *.
    destruct wk as [w|]; [|contradiction].
    unfold JsMap.size in *.
    destruct m as [|entry m]; cbn in *.
    + split; [reflexivity|]. exists t, w. repeat split.
      * apply existsb_exists in Ex as ([t' d] & Hin & Heq). cbn in Heq.
        apply Nat.eqb_eq in Heq as ->.
        apply in_map_iff. exists (t, d). split; [reflexivity|exact Hin].
      * rewrite terminated_app. reflexivity.
    + exfalso. apply Hne. rewrite terminated_app, app_nil_r. reflexivity.
  - destruct s; contradiction.
  - destruct s; contradiction.
Qed.

(** C8: in every state the handlers can reach, at most one teardown timer
    is pending, with the fixed delay.  When it fires while the table of
    handles is not empty, the worker is not terminated: it stays, the table
    stays, and a new timer with the same delay is armed.  A step terminates
    the worker only when it is a timer firing on an empty table.  And every
    submission clears the pending timer and arms a new one with that delay. *)
Theorem teardown_deferred es fs ds c fl :
  let s := run es (initial fs ds c fl) in
  timersOk s
  /\ (forall t w,
        imageProcessor s = Some w ->
        imageProcessorHandles s <> [] ->
        timers s = [(t, 10000%N)] ->
        let s' := step (TimerFires t) s in
        terminated (trace s') = terminated (trace s)
        /\ imageProcessor s' = Some w
        /\ imageProcessorHandles s' = imageProcessorHandles s
        /\ timers s' = [(fresh s, 10000%N)]
        /\ imageProcessorDeinitTimeout s' = Some (fresh s))
  /\ (forall e,
        terminated (trace (step e s)) <> terminated (trace s) ->
        imageProcessorHandles s = []
        /\ exists t w,
             e = TimerFires t
             /\ In t (List.map fst (timers s))
             /\ imageProcessor s = Some w
             /\ terminated (trace (step e s)) = terminated (trace s) ++ [w])
  /\ (forall w params,
        let s' := snd (processImageWithWorker w params s) in
        timers s' = [(S (fresh s), 10000%N)]
        /\ imageProcessorDeinitTimeout s' = Some (S (fresh s))
        /\ forall t d, In (t, d) (timers s) -> In (EClearTimeout t) (trace s')).
Proof.
  intros s.
  assert (Hok : timersOk s).
  { apply timersOk_run. left. reflexivity. }
  split; [exact Hok|]. split; [|split].
  - intros t w Hw Hne Ht. cbn [step]. rewrite Ht. cbn [existsb fst].
    rewrite Nat.eqb_refl. cbn [orb List.filter fst negb].
    rewrite deinitializeImageProcessor_eq.
    destruct s as [m wk tv ts fs0 ds0 c0 fl0 n tr]. cbn in *. subst wk ts.
    unfold JsMap.size. destruct m as [|entry m]; [contradiction|]. cbn.
    rewrite ?Nat.eqb_refl. cbn.
    rewrite terminated_app, app_nil_r. repeat split; reflexivity.
  - intros e. apply terminated_step.
  - intros w params. cbv zeta.
    destruct (timersOk_submit w params s Hok) as [Ht Hv].
    split; [exact Ht|]. split; [exact Hv|].
    intros t d Hin. rewrite processImageWithWorker_eq. cbn [snd trace].
    destruct Hok as [Hnil|(t0 & Hts & Hvar)].
    + rewrite Hnil in Hin. contradiction.
    + rewrite Hts in Hin. destruct Hin as [[= <- <-]|[]]. rewrite Hvar.
      apply in_or_app. right. apply in_or_app. right. left. reflexivity.
Qed.

End Teardown.

(** ** The cache short-circuit *)

Lemma spawned_app tr1 tr2 : spawned (tr1 ++ tr2) = spawned tr1 ++ spawned tr2.
Proof. apply flat_map_app. Qed.

Lemma fetches_app tr1 tr2 : fetches (tr1 ++ tr2) = fetches tr1 ++ fetches tr2.
Proof. apply flat_map_app. Qed.

Lemma spawned_quiet tr : forallb quietEffect tr = true -> spawned tr = [].
Proof.
  induction tr as [|e tr IH]; [reflexivity|]. cbn.
  destruct e; cbn; try discriminate; exact IH.
Qed.

(** ** Files *)

Lemma net_fetch_found file f s :
  files s !! file = Some f ->
  net_fetch file s =
  (Ok {| obj := fresh s; status := 200;
         headers := [("content-type", file_mime f)]; body := file_bytes f |},
   set_fresh (S (fresh s)) (set_trace (trace s ++ [EFetch file]) s)).
Proof.
  intros Hf. destruct s. unfold net_fetch. unfold_monad. cbn in *.
  rewrite Hf. reflexivity.
Qed.

Lemma net_fetch_missing file s :
  files s !! file = None ->
  net_fetch file s =
  (Throw "net::ERR_FILE_NOT_FOUND", set_trace (trace s ++ [EFetch file]) s).
Proof.
  intros Hf. destruct s. unfold net_fetch. unfold_monad. cbn in *.
  rewrite Hf. reflexivity.
Qed.

Lemma stat_probe_file p f s :
  files s !! p = Some f ->
  try_catch (stat p ;;; ret true) (fun _ => ret false) s = (Ok true, s).
Proof.
  intros Hf. unfold stat. unfold_monad. rewrite Hf. reflexivity.
Qed.

(** The cache directory is there, or is made, unless [mkdir] fails; the files
    are as before. *)
Lemma createCacheDirIfNotExists_ok d s :
  d ∈ dirs s \/ mkdir_fails (faults s) = false ->
  exists s1,
    createCacheDirIfNotExists d s = (Ok tt, s1)
    /\ quietStep s s1
    /\ files s1 = files s
    /\ fetches (trace s1) = fetches (trace s).
Proof.
  intros Hd.
  destruct s as [m wk tv ts fs ds c fl n tr].
  unfold createCacheDirIfNotExists, stat, mkdir. unfold_monad. cbn in *.
  destruct (fs !! d); cbn.
  { eexists. repeat split; try reflexivity. apply quietStep_refl. }
  destruct (bool_decide (d ∈ ds)) eqn:Eb; cbn.
  { eexists. repeat split; try reflexivity. apply quietStep_refl. }
  destruct Hd as [Hd|Hd].
  { apply bool_decide_eq_false in Eb. contradiction. }
  rewrite Hd. cbn.
  eexists. split; [reflexivity|]. split; [|split].
  - split; cbn; try reflexivity. exists [EMkdir d]. split; reflexivity.
  - reflexivity.
  - cbn. rewrite fetches_app, app_nil_r. reflexivity.
Qed.

Section CacheHit.
Context {env : Env}.
Local Open Scope js_scope.

(** C7: a request with a transform parameter whose cache file is on disk is
    answered with status 200 and the bytes of that file, fetched from the
    path of the cache file; the table of handles, the worker and the timers
    are as before, no job is posted and no worker is started. *)
Theorem cache_short_circuit requestURL resourceId img cacheDir u f s :
  URL_parse requestURL = Some u ->
  quality (extractImageOptions u) <> None
    \/ maxDimension (extractImageOptions u) <> None ->
  files s !! generateCachedPath resourceId cacheDir (extractImageOptions u)
    = Some f ->
  cacheDir ∈ dirs s \/ mkdir_fails (faults s) = false ->
  let cachedPath := generateCachedPath resourceId cacheDir (extractImageOptions u) in
  let rs := surfProtocolHandleImages requestURL resourceId img cacheDir s in
  (exists resp,
     fst rs = Ok (Done resp)
     /\ status resp = 200
     /\ body resp = file_bytes f
     /\ headers resp = ("content-type", file_mime f) :: cacheHeaders resourceId)
  /\ imageProcessorHandles (snd rs) = imageProcessorHandles s
  /\ imageProcessor (snd rs) = imageProcessor s
  /\ timers (snd rs) = timers s
  /\ postedJobs (trace (snd rs)) = postedJobs (trace s)
  /\ spawned (trace (snd rs)) = spawned (trace s)
  /\ fetches (trace (snd rs)) = fetches (trace s) ++ [cachedPath].
Proof.
  intros HU Hopt Hfile Hdir. cbv zeta.
  destruct (createCacheDirIfNotExists_ok cacheDir s Hdir)
    as (s1 & E1 & Q1 & Hfs & Hfe).
  set (o := extractImageOptions u) in *.
  set (p := generateCachedPath resourceId cacheDir o) in *.
  assert (E : surfProtocolHandleImages requestURL resourceId img cacheDir s =
    (Ok (Done {| obj := S (fresh s1); status := 200;
                 headers := ("content-type", file_mime f) :: cacheHeaders resourceId;
                 body := file_bytes f |}),
     set_fresh (S (S (fresh s1))) (set_trace (trace s1 ++ [EFetch p]) s1))).
  { unfold surfProtocolHandleImages. unfold try_catch at 1.
    unfold bind at 1. rewrite E1. unfold bind at 1. rewrite HU.
    unfold ret at 1. cbv beta iota. fold o. fold p.
    assert (Hhit :
      (stats <- try_catch (stat p ;;; ret true) (fun _ => ret false) ;;
       if (stats : bool) then
         response <- net_fetch p ;;
         r <- withCacheHeaders resourceId response ;;
         ret (Done r)
       else
         w <- gets imageProcessor ;;
         match w with
         | None => initializeImageProcessor
         | Some _ => ret tt
         end ;;;
         w <- gets imageProcessor ;;
         match w with
         | None => throw "TypeError: imageProcessor is null"
         | Some worker =>
             h <- processImageWithWorker worker
                    {| imgPath := img; savePath := p; options := o |} ;;
             ret (Awaiting h)
         end) s1 =
      (Ok (Done {| obj := S (fresh s1); status := 200;
                   headers := ("content-type", file_mime f) :: cacheHeaders resourceId;
                   body := file_bytes f |}),
       set_fresh (S (S (fresh s1))) (set_trace (trace s1 ++ [EFetch p]) s1))).
    { unfold bind at 1. rewrite (stat_probe_file p f) by (rewrite Hfs; exact Hfile).
      unfold bind at 1. rewrite (net_fetch_found p f) by (rewrite Hfs; exact Hfile).
      destruct s1; reflexivity. }
    destruct (quality o); [rewrite Hhit; reflexivity|].
    destruct (maxDimension o); [rewrite Hhit; reflexivity|].
    destruct Hopt as [H|H]; contradiction. }
  rewrite E. cbn [fst snd].
  destruct Q1 as [Q1 Q2 Q3 Q4 Q5 (tr1 & Q6 & Q7)].
  split; [eexists; repeat split; reflexivity|].
  cbn [imageProcessorHandles imageProcessor timers trace set_fresh set_trace].
  rewrite Q1, Q2, Q4, !postedJobs_app, !spawned_app, fetches_app, Hfe, Q6.
  rewrite !postedJobs_app, !spawned_app, (postedJobs_quiet tr1 Q7),
    (spawned_quiet tr1 Q7). cbn. rewrite !app_nil_r.
  repeat split; reflexivity.
Qed.
End CacheHit.
(** ** The locator follows the ordered candidates *)

Section Locator.
Context {env : Env}.
Local Open Scope js_scope.

Ltac case_fetch :=
  match goal with
  | |- context [fetchFilePath ?b ?p ?s] =>
      destruct (fetchFilePath b p s) as [[[?|]|?] ?]
  | |- context [migrateResourceFile ?a ?b ?r ?s] =>
      destruct (migrateResourceFile a b r s) as [[[]|?] ?]
  end.

(** The locator of the source is the locator of the spec. *)
Lemma fetchResourceFile_locate resourceId resource s :
  fetchResourceFile resourceId resource s = locate resourceId resource s.
Proof.
  unfold fetchResourceFile, locate, candidates, migrationFor, storedPathQualifies,
    extensionOf, legacyPathOf.
  destruct resource as [r|]; cbn [app tryCandidates].
  - destruct (negb (String.eqb (path r) EmptyString) &&
              (endsWith (path r) ("." +:+ getResourceFileExtension (type r)) ||
               endsWith (path r) ".json")); cbn [app tryCandidates];
      unfold try_catch, bind, ret;
      repeat (case_fetch; try reflexivity);
      destruct (negb (String.eqb (path r) (newFilePathOf resourceId (Some r))));
      repeat (case_fetch; try reflexivity).
  - unfold try_catch, bind, ret;
      repeat (case_fetch; try reflexivity).
Qed.
End Locator.

(** ** Computations that rename nothing *)

Lemma renames_app tr1 tr2 : renames (tr1 ++ tr2) = renames tr1 ++ renames tr2.
Proof. apply flat_map_app. Qed.

Lemma catalogUpdates_app tr1 tr2 :
  catalogUpdates (tr1 ++ tr2) = catalogUpdates tr1 ++ catalogUpdates tr2.
Proof. apply flat_map_app. Qed.

Lemma worldSame_refl s : worldSame s s.
Proof. split; reflexivity. Qed.

Lemma worldSame_trans s1 s2 s3 :
  worldSame s1 s2 -> worldSame s2 s3 -> worldSame s1 s3.
Proof. intros [H1 H2 H3] [K1 K2 K3]. split; congruence. Qed.

Lemma keepsWorld_ret {A} (a : A) : keepsWorld (ret a).
Proof. intros s. apply worldSame_refl. Qed.

Lemma keepsWorld_throw {A} e : keepsWorld (@throw A e).
Proof. intros s. apply worldSame_refl. Qed.

Lemma keepsWorld_gets {A} (f : St -> A) : keepsWorld (gets f).
Proof. intros s. apply worldSame_refl. Qed.

Lemma keepsWorld_bind {A B} (m : M A) (k : A -> M B) :
  keepsWorld m -> (forall a, keepsWorld (k a)) -> keepsWorld (bind m k).
Proof.
  intros Hm Hk s. unfold bind. specialize (Hm s).
  destruct (m s) as [[a|e] s1]; cbn in *; [|exact Hm].
  eapply worldSame_trans; [exact Hm|apply Hk].
Qed.

Lemma keepsWorld_try_catch {A} (m : M A) (h : string -> M A) :
  keepsWorld m -> (forall e, keepsWorld (h e)) -> keepsWorld (try_catch m h).
Proof.
  intros Hm Hh s. unfold try_catch. specialize (Hm s).
  destruct (m s) as [[a|e] s1]; cbn in *; [exact Hm|].
  eapply worldSame_trans; [exact Hm|apply Hh].
Qed.

Lemma keepsWorld_emit e :
  match e with ERename _ _ => False | _ => True end -> keepsWorld (emit e).
Proof.
  intros He s. destruct s. split; cbn; try reflexivity.
  rewrite renames_app. destruct e; cbn; try contradiction;
    rewrite app_nil_r; reflexivity.
Qed.

Lemma keepsWorld_new_id : keepsWorld new_id.
Proof. intros s. destruct s. split; reflexivity. Qed.

Lemma keepsWorld_modify (f : St -> St) :
  (forall s, files (f s) = files s /\ trace (f s) = trace s
             /\ faults (f s) = faults s) ->
  keepsWorld (modify f).
Proof.
  intros Hf s. destruct (Hf s) as (H1 & H2 & H3).
  split; cbn; try assumption. rewrite H2. reflexivity.
Qed.

Create HintDb world.
#[export] Hint Resolve keepsWorld_ret keepsWorld_throw keepsWorld_gets
  keepsWorld_new_id : world.

Ltac world_step :=
  first
    [ apply keepsWorld_bind; [|intros ?]
    | apply keepsWorld_try_catch; [|intros ?]
    | apply keepsWorld_emit; exact I
    | apply keepsWorld_modify; intros []; cbn; repeat split; reflexivity
    | solve [auto with world]
    | match goal with
      | |- keepsWorld (match ?x with _ => _ end) => destruct x
      | |- keepsWorld (if ?b then _ else _) => destruct b
      end ].

Ltac world_auto := repeat world_step.

Lemma keepsWorld_new_Response b st hs : keepsWorld (new_Response b st hs).
Proof. unfold new_Response. world_auto. Qed.
#[export] Hint Resolve keepsWorld_new_Response : world.

Lemma keepsWorld_log_error msg : keepsWorld (log_error msg).
Proof. unfold log_error. world_auto. Qed.

Lemma keepsWorld_net_fetch file : keepsWorld (net_fetch file).
Proof. unfold net_fetch. world_auto. Qed.

Lemma keepsWorld_updateResource c r : keepsWorld (updateResource c r).
Proof. unfold updateResource. world_auto. Qed.
#[export] Hint Resolve keepsWorld_log_error keepsWorld_net_fetch
  keepsWorld_updateResource : world.

Section LocatorWorld.
Context {env : Env}.
Local Open Scope js_scope.

Lemma keepsWorld_fetchFilePath b p : keepsWorld (fetchFilePath b p).
Proof. unfold fetchFilePath. world_auto. Qed.

Lemma keepsWorld_notFound resourceId : keepsWorld (notFound resourceId).
Proof. unfold notFound. world_auto. Qed.

(** A migration from a path to itself renames nothing. *)
Lemma keepsWorld_migrate_same p r : keepsWorld (migrateResourceFile p p r).
Proof.
  unfold migrateResourceFile. rewrite String.eqb_refl. cbn [negb]. world_auto.
Qed.
#[local] Hint Resolve keepsWorld_fetchFilePath keepsWorld_notFound
  keepsWorld_migrate_same : world.

End LocatorWorld.

(** ** The steps of the locator *)

Section LocatorSteps.
Context {env : Env}.
Local Open Scope js_scope.

Lemma fetchFilePath_found b p f s :
  isPathSafe b p = true ->
  files s !! p = Some f ->
  fetchFilePath b p s =
  (Ok (Some {| response := fileResponse f (fresh s); filePath := p; base := b |}),
   set_fresh (S (fresh s)) (set_trace (trace s ++ [EFetch p]) s)).
Proof.
  intros Hs Hf. unfold fetchFilePath. rewrite Hs. cbn [negb].
  unfold try_catch. unfold bind at 1. rewrite (net_fetch_found p f s Hf).
  reflexivity.
Qed.

Lemma fetchFilePath_missing b p s :
  isPathSafe b p = true ->
  files s !! p = None ->
  fetchFilePath b p s = (Ok None, set_trace (trace s ++ [EFetch p]) s).
Proof.
  intros Hs Hf. unfold fetchFilePath. rewrite Hs. cbn [negb].
  unfold try_catch. unfold bind at 1. rewrite (net_fetch_missing p s Hf).
  reflexivity.
Qed.

Lemma fetchFilePath_unsafe b p s :
  isPathSafe b p = false ->
  fetchFilePath b p s =
  (Ok (Some {| response := {| obj := fresh s; status := 403;
                              headers := [("content-type", "text/plain;charset=UTF-8")];
                              body := "Forbidden" |};
               filePath := p; base := b |}),
   set_fresh (S (fresh s)) s).
Proof.
  intros Hs. unfold fetchFilePath. rewrite Hs. reflexivity.
Qed.

(** Candidates whose path is safe and holds no file are all tried, in order,
    and none resolves. *)
Lemma tryCandidates_miss b cs rest s :
  Forall (fun c => isPathSafe b (snd c) = true /\ files s !! snd c = None) cs ->
  tryCandidates b (cs ++ rest) s =
  tryCandidates b rest
    (set_trace (trace s ++ List.map (fun c => EFetch (snd c)) cs) s).
Proof.
  revert s. induction cs as [|[st p] cs IH]; intros s Hall.
  - destruct s. cbn. unfold set_trace. cbn. rewrite app_nil_r. reflexivity.
  - inversion Hall as [|? ? [Hs Hf] Hrest]; subst. cbn in Hs, Hf.
    cbn [app tryCandidates]. unfold bind at 1.
    rewrite (fetchFilePath_missing b p s Hs Hf).
    rewrite IH.
    + destruct s. cbn. unfold set_trace. cbn. rewrite <- app_assoc. reflexivity.
    + destruct s. cbn in *. exact Hrest.
Qed.

(** A migration that has to rename: the file moves, whatever the catalog
    update does afterwards. *)
Lemma migrateResourceFile_renames a b r f s :
  a <> b ->
  rename_fails (faults s) = false ->
  files s !! a = Some f ->
  let s' := snd (migrateResourceFile a b r s) in
  files s' = <[b := f]> (delete a (files s))
  /\ renames (trace s') = renames (trace s) ++ [(a, b)]
  /\ faults s' = faults s.
Proof.
  intros Hne Hr Hf. destruct s as [m wk tv ts fs ds c fl n tr]. cbn in *.
  unfold migrateResourceFile, rename, updateResource. unfold_monad. cbn.
  destruct (String.eqb_spec a b) as [->|_]; [contradiction|]. cbn.
  rewrite Hr, Hf. cbn.
  destruct r as [r|]; destruct c as [c|]; cbn;
    try destruct (updateResource_fails fl); cbn;
    rewrite ?renames_app; cbn; rewrite ?app_nil_r; repeat split; reflexivity.
Qed.

(** The same migration with a catalog and no fault: the outcome in full. *)
Lemma migrateResourceFile_ok a b r c f s :
  a <> b ->
  rename_fails (faults s) = false ->
  updateResource_fails (faults s) = false ->
  files s !! a = Some f ->
  sffs s = Some c ->
  let r' := {| id := id r; path := b; type := type r;
               createdAt := createdAt r; updatedAt := updatedAt r;
               deleted := deleted r |} in
  migrateResourceFile a b (Some r) s =
  (Ok tt,
   set_sffs (Some (<[id r := r']> c))
     (set_files (<[b := f]> (delete a (files s)))
        (set_trace (trace s ++ [ERename a b; EUpdateResource r']) s))).
Proof.
  intros Hne Hr Hu Hf Hc. destruct s as [m wk tv ts fs ds c0 fl n tr]. cbn in *.
  subst c0.
  unfold migrateResourceFile, rename, updateResource. unfold_monad. cbn.
  destruct (String.eqb_spec a b) as [->|_]; [contradiction|]. cbn.
  rewrite Hr, Hf. cbn. rewrite Hu. cbn. rewrite <- app_assoc. reflexivity.
Qed.

(** When a migration throws: the rename is needed and fails, or the catalog
    update fails. *)
Lemma migrateResourceFile_throws a b r s :
  (a <> b /\ (rename_fails (faults s) = true \/ files s !! a = None))
  \/ ((a = b \/ (rename_fails (faults s) = false /\ files s !! a <> None))
      /\ r <> None /\ sffs s <> None /\ updateResource_fails (faults s) = true) ->
  exists e s', migrateResourceFile a b r s = (Throw e, s').
Proof.
  destruct s as [m wk tv ts fs ds c fl n tr]. cbn.
  unfold migrateResourceFile, rename, updateResource. unfold_monad. cbn.
  intros [[Hne Hbad]|[Hren [Hr [Hc Hu]]]].
  - destruct (String.eqb_spec a b) as [->|_]; [contradiction|]. cbn.
    destruct (rename_fails fl); cbn; [eauto|].
    destruct Hbad as [Hbad|Hbad]; [discriminate|]. rewrite Hbad. cbn. eauto.
  - destruct r as [r|]; [|contradiction]. destruct c as [c|]; [|contradiction].
    destruct (String.eqb_spec a b) as [->|Hne]; cbn.
    + rewrite Hu. eauto.
    + destruct Hren as [Heq|[Hrf Hfile]]; [contradiction|].
      rewrite Hrf. destruct (fs !! a); [|contradiction]. cbn. rewrite Hu. eauto.
Qed.


Lemma notFound_eq resourceId s :
  notFound resourceId s =
  (Ok {| response := {| obj := fresh s; status := 404;
                        headers := [("content-type", "text/plain;charset=UTF-8")];
                        body := "Not Found" |};
         filePath := legacyPathOf resourceId; base := resourcesDir |},
   set_fresh (S (fresh s)) s).
Proof. reflexivity. Qed.

Lemma fetches_map_fetch (cs : list (Strategy * string)) :
  fetches (List.map (fun c => EFetch (snd c)) cs) = List.map snd cs.
Proof. induction cs as [|c cs IH]; [reflexivity|]. cbn. f_equal. exact IH. Qed.

Lemma renames_map_fetch (cs : list (Strategy * string)) :
  renames (List.map (fun c => EFetch (snd c)) cs) = [].
Proof. induction cs as [|c cs IH]; [reflexivity|]. exact IH. Qed.

Lemma catalogUpdates_map_fetch (cs : list (Strategy * string)) :
  catalogUpdates (List.map (fun c => EFetch (snd c)) cs) = [].
Proof. induction cs as [|c cs IH]; [reflexivity|]. exact IH. Qed.

Lemma candidates_last resourceId resource :
  candidates resourceId resource =
  removelast (candidates resourceId resource)
    ++ [(LegacyPath, legacyPathOf resourceId)]
  /\ (CurrentScheme, newFilePathOf resourceId resource)
       ∈ removelast (candidates resourceId resource).
Proof.
  unfold candidates. rewrite removelast_app by discriminate. cbn [removelast].
  split.
  - rewrite <- app_assoc. reflexivity.
  - apply elem_of_app. right. apply list_elem_of_here.
Qed.

(** C5: the locator of the source is the ordered search of the spec: the
    candidates are the stored path of the record (only when it ends in the
    extension of the record's type or in [.json]), then the current-scheme
    path, then the legacy path, tried in this order up to the first that
    resolves.  When none resolves (each path safe, no file there) all of them
    have been fetched, in this order, nothing is renamed or updated, and the
    result is the 404 one.  When only the legacy path holds the file, the
    file is renamed to the current-scheme path and the catalog record is
    updated to point at it. *)
Theorem locator_order resourceId resource s :
  fetchResourceFile resourceId resource s = locate resourceId resource s
  /\ candidates resourceId resource =
       match resource with
       | Some r => if storedPathQualifies r then [(StoredPath, path r)] else []
       | None => []
       end ++
       [(CurrentScheme, newFilePathOf resourceId resource);
        (LegacyPath, legacyPathOf resourceId)]
  /\ (Forall (fun c => isPathSafe resourcesDir (snd c) = true
                       /\ files s !! snd c = None)
        (candidates resourceId resource) ->
      exists located s',
        fetchResourceFile resourceId resource s = (Ok located, s')
        /\ status (response located) = 404
        /\ fetches (trace s') =
             fetches (trace s) ++ List.map snd (candidates resourceId resource)
        /\ renames (trace s') = renames (trace s)
        /\ catalogUpdates (trace s') = catalogUpdates (trace s))
  /\ (forall r c f,
        resource = Some r ->
        sffs s = Some c ->
        rename_fails (faults s) = false ->
        updateResource_fails (faults s) = false ->
        Forall (fun c => isPathSafe resourcesDir (snd c) = true
                         /\ files s !! snd c = None)
          (removelast (candidates resourceId resource)) ->
        isPathSafe resourcesDir (legacyPathOf resourceId) = true ->
        files s !! legacyPathOf resourceId = Some f ->
        let new := newFilePathOf resourceId resource in
        let r' := {| id := id r; path := new; type := type r;
                     createdAt := createdAt r; updatedAt := updatedAt r;
                     deleted := deleted r |} in
        exists located s',
          fetchResourceFile resourceId resource s = (Ok located, s')
          /\ filePath located = legacyPathOf resourceId
          /\ status (response located) = 200
          /\ body (response located) = file_bytes f
          /\ fetches (trace s') =
               fetches (trace s) ++ List.map snd (candidates resourceId resource)
          /\ renames (trace s') =
               renames (trace s) ++ [(legacyPathOf resourceId, new)]
          /\ catalogUpdates (trace s') = catalogUpdates (trace s) ++ [r']
          /\ files s' = <[new := f]> (delete (legacyPathOf resourceId) (files s))
          /\ sffs s' = Some (<[id r := r']> c)).
Proof.
  split; [apply fetchResourceFile_locate|]. split; [reflexivity|]. split.
  - intros Hall. rewrite fetchResourceFile_locate. unfold locate.
    unfold try_catch. unfold bind at 1.
    pose proof (tryCandidates_miss _ _ [] s Hall) as Hmiss.
    rewrite app_nil_r in Hmiss. rewrite Hmiss. cbn [tryCandidates].
    unfold ret at 1. cbv beta iota. rewrite notFound_eq.
    eexists _, _. split; [reflexivity|].
    cbn [response status trace set_fresh set_trace].
    rewrite fetches_app, renames_app, catalogUpdates_app, fetches_map_fetch,
      renames_map_fetch, catalogUpdates_map_fetch, !app_nil_r.
    repeat split; reflexivity.
  - intros r c f -> Hc Hrf Huf Hpre Hsafe Hfile new r'.
    destruct (candidates_last resourceId (Some r)) as [Hcs Hin].
    assert (Hne : legacyPathOf resourceId <> new).
    { intros Heq. pose proof (proj1 (Forall_forall _ _) Hpre) as Hpre'.
      destruct (Hpre' _ Hin) as [_ Hnone]. cbn in Hnone. fold new in Hnone.
      rewrite <- Heq, Hfile in Hnone. discriminate. }
    rewrite fetchResourceFile_locate. unfold locate.
    unfold try_catch. unfold bind at 1.
    replace (tryCandidates resourcesDir (candidates resourceId (Some r)) s)
      with (tryCandidates resourcesDir
              (removelast (candidates resourceId (Some r))
                 ++ [(LegacyPath, legacyPathOf resourceId)]) s)
      by (rewrite <- Hcs; reflexivity).
    rewrite (tryCandidates_miss _ _ _ s Hpre).
    cbn [tryCandidates]. unfold bind at 1.
    rewrite (fetchFilePath_found _ _ f) by assumption.
    unfold ret at 1. cbv beta iota. unfold bind at 1.
    cbn [migrationFor]. fold new.
    rewrite (migrateResourceFile_ok _ _ r c f) by assumption.
    eexists _, _. split; [reflexivity|].
    cbn [response filePath status body fileResponse trace files sffs
         set_fresh set_trace set_files set_sffs].
    replace (List.map snd (candidates resourceId (Some r)))
      with (List.map snd (removelast (candidates resourceId (Some r)))
              ++ [legacyPathOf resourceId])
      by (rewrite Hcs at 2; rewrite List.map_app; reflexivity).
    rewrite !fetches_app, !renames_app, !catalogUpdates_app, fetches_map_fetch,
      renames_map_fetch, catalogUpdates_map_fetch. cbn.
    rewrite !app_nil_r, <- ?app_assoc.
    repeat split; reflexivity.
Qed.
(** C4, as the code has it: when a candidate has resolved and the migration
    it triggers throws (the rename or the catalog update), the throw is
    caught by the locator's [catch]: the error is logged and the call
    answers with the 404 result at the legacy path, not with what was found.
    Only when the migration does not throw is the found result the outcome.
    A failing rename makes the migration of the legacy step throw, a failing
    catalog update the migration of the current-scheme step. *)
Theorem migration_failure_fails_read resourceId resource s strategy located s1 :
  tryCandidates resourcesDir (candidates resourceId resource) s
    = (Ok (Some (strategy, located)), s1) ->
  (forall e s2,
     migrationFor strategy resourceId resource s1 = (Throw e, s2) ->
     fetchResourceFile resourceId resource s =
     (Ok {| response := {| obj := fresh s2; status := 404;
                           headers := [("content-type", "text/plain;charset=UTF-8")];
                           body := "Not Found" |};
            filePath := legacyPathOf resourceId; base := resourcesDir |},
      set_fresh (S (fresh s2))
        (set_trace
           (trace s2 ++ [ELogError ("Error fetching resource file: " +:+ e)])
           s2)))
  /\ (forall s2,
        migrationFor strategy resourceId resource s1 = (Ok tt, s2) ->
        fetchResourceFile resourceId resource s = (Ok located, s2))
  /\ (strategy = LegacyPath ->
      legacyPathOf resourceId <> newFilePathOf resourceId resource ->
      rename_fails (faults s1) = true ->
      exists e s2, migrationFor strategy resourceId resource s1 = (Throw e, s2))
  /\ (forall r,
        strategy = CurrentScheme ->
        resource = Some r ->
        path r <> newFilePathOf resourceId resource ->
        sffs s1 <> None ->
        updateResource_fails (faults s1) = true ->
        exists e s2, migrationFor strategy resourceId resource s1 = (Throw e, s2)).
Proof.
  intros Hfound. split; [|split; [|split]].
  - intros e s2 Hm. rewrite fetchResourceFile_locate. unfold locate.
    unfold try_catch. unfold bind at 1. rewrite Hfound. cbv beta iota.
    unfold bind at 1. rewrite Hm. destruct s2; reflexivity.
  - intros s2 Hm. rewrite fetchResourceFile_locate. unfold locate.
    unfold try_catch. unfold bind at 1. rewrite Hfound. cbv beta iota.
    unfold bind at 1. rewrite Hm. reflexivity.
  - intros -> Hne Hrf. cbn [migrationFor].
    apply migrateResourceFile_throws. left. split; [exact Hne|]. left. exact Hrf.
  - intros r -> -> Hne Hc Hu. cbn [migrationFor].
    destruct (String.eqb_spec (path r) (newFilePathOf resourceId (Some r)))
      as [Heq|_]; [contradiction|]. cbn [negb].
    apply migrateResourceFile_throws. right.
    repeat split; auto; discriminate.
Qed.

End LocatorSteps.

Section MigrationScenario.
#[local] Existing Instance Posix.env.
Import Scenario.

(** [migration_failure_fails_read] at the legacy file of image [123] with a
    failing rename. *)
Lemma migration_failure_fails_read_witness :
  exists located s',
    fetchResourceFile "123" (Some legacyRecord) (legacyStart renameFaults)
      = (Ok located, s')
    /\ status (response located) = 404.
Proof.
  pose (s1 := set_fresh 1
                (set_trace [EFetch imagePath; EFetch legacyPath]
                   (legacyStart renameFaults))).
  pose (s2 := set_trace [EFetch imagePath; EFetch legacyPath;
                         ERename legacyPath imagePath] s1).
  eexists _, _. split.
  - apply (proj1 (migration_failure_fails_read (env := Posix.env)
                    "123" (Some legacyRecord)
                    (legacyStart renameFaults) LegacyPath
                    {| response := fileResponse image123 0;
                       filePath := legacyPath; base := resources |} s1
                    ltac:(vm_compute; reflexivity))
             "EPERM" s2).
    vm_compute. reflexivity.
  - reflexivity.
Defined.

(** C4 as stated fails: the bytes of image [123] are found at the legacy
    path, the rename of the migration fails, and the call answers 404; the
    same when the rename succeeds and the catalog update fails, the file
    then being already renamed. *)
Lemma migration_failure_loses_read :
  fst (fetchFilePath resources legacyPath (legacyStart renameFaults))
    = Ok (Some {| response := fileResponse image123 0;
                  filePath := legacyPath; base := resources |})
  /\ fst (fetchResourceFile "123" (Some legacyRecord) (legacyStart renameFaults))
     = Ok {| response :=
               {| obj := 1; status := 404;
                  headers := [("content-type", "text/plain;charset=UTF-8")];
                  body := "Not Found" |};
             filePath := legacyPath; base := resources |}
  /\ fst (fetchResourceFile "123" (Some legacyRecord) (legacyStart updateFaults))
     = Ok {| response :=
               {| obj := 1; status := 404;
                  headers := [("content-type", "text/plain;charset=UTF-8")];
                  body := "Not Found" |};
             filePath := legacyPath; base := resources |}
  /\ renames
       (trace (snd (fetchResourceFile "123" (Some legacyRecord)
                      (legacyStart updateFaults))))
     = [(legacyPath, imagePath)].
Proof. vm_compute. repeat split. Qed.

End MigrationScenario.

(** ** Migration happens once *)

Section MigrationOnce.
Context {env : Env}.
Local Open Scope js_scope.

Lemma keepsWorld_migrationFor strategy resourceId resource :
  strategy <> LegacyPath ->
  keepsWorld (migrationFor strategy resourceId resource).
Proof.
  intros Hs. destruct strategy; [| |contradiction]; cbn [migrationFor].
  - apply keepsWorld_ret.
  - destruct (match resource with
              | Some r => negb (String.eqb (path r) (newFilePathOf resourceId resource))
              | None => true
              end); [apply keepsWorld_migrate_same|apply keepsWorld_ret].
Qed.

Lemma keepsWorld_locate_catch resourceId err :
  keepsWorld (log_error ("Error fetching resource file: " +:+ err) ;;;
              notFound resourceId).
Proof.
  apply keepsWorld_bind; [apply keepsWorld_log_error|].
  intros _. apply keepsWorld_notFound.
Qed.

(** Without a failing catalog update, a migration that does not have to
    rename does not throw. *)
Lemma migrationFor_no_throw strategy resourceId resource s :
  strategy <> LegacyPath ->
  updateResource_fails (faults s) = false ->
  exists s', migrationFor strategy resourceId resource s = (Ok tt, s').
Proof.
  intros Hs Hu. destruct strategy; [| |contradiction]; cbn [migrationFor].
  - eexists. reflexivity.
  - destruct (match resource with
              | Some r => negb (String.eqb (path r) (newFilePathOf resourceId resource))
              | None => true
              end); [|eexists; reflexivity].
    destruct s as [m wk tv ts fs ds c fl n tr]. cbn in Hu.
    unfold migrateResourceFile, updateResource. rewrite String.eqb_refl.
    unfold_monad. cbn. destruct resource, c; cbn; rewrite ?Hu; eexists; reflexivity.
Qed.

(** Trying the candidates of a record whose file sits at the current-scheme
    path [new]: the stored path or the current-scheme path resolves, at
    [new], and nothing is renamed. *)
Lemma tryCandidates_current resourceId r2 f s :
  let new := newFilePathOf resourceId (Some r2) in
  files s !! new = Some f ->
  isPathSafe resourcesDir new = true ->
  (storedPathQualifies r2 = false
   \/ (isPathSafe resourcesDir (path r2) = true
       /\ (files s !! path r2 = None \/ path r2 = new))) ->
  exists strategy located s',
    tryCandidates resourcesDir (candidates resourceId (Some r2)) s
      = (Ok (Some (strategy, located)), s')
    /\ strategy <> LegacyPath
    /\ filePath located = new
    /\ status (response located) = 200
    /\ body (response located) = file_bytes f
    /\ worldSame s s'.
Proof.
  intros new Hf Hsafe Hstored. unfold candidates.
  assert (Hcur : forall s0, files s0 = files s -> renames (trace s0) = renames (trace s) ->
            faults s0 = faults s ->
            exists strategy located s',
              tryCandidates resourcesDir
                [(CurrentScheme, new); (LegacyPath, legacyPathOf resourceId)] s0
                = (Ok (Some (strategy, located)), s')
              /\ strategy <> LegacyPath
              /\ filePath located = new
              /\ status (response located) = 200
              /\ body (response located) = file_bytes f
              /\ worldSame s s').
  { intros s0 H1 H2 H3. cbn [tryCandidates]. unfold bind at 1.
    rewrite (fetchFilePath_found _ _ f) by (rewrite ?H1; assumption).
    eexists _, _, _. split; [reflexivity|].
    repeat split; try reflexivity; try discriminate; cbn; try assumption.
    rewrite renames_app, app_nil_r. exact H2. }
  destruct (storedPathQualifies r2) eqn:Eq; cbn [app].
  2:{ apply Hcur; reflexivity. }
  destruct Hstored as [|[Hs2 [Hnone|Heq]]]; [discriminate| |].
  - cbn [tryCandidates]. unfold bind at 1.
    rewrite (fetchFilePath_missing _ _ s Hs2 Hnone).
    apply Hcur; cbn; try reflexivity.
    rewrite renames_app, app_nil_r. reflexivity.
  - cbn [tryCandidates]. unfold bind at 1. rewrite Heq.
    rewrite (fetchFilePath_found _ _ f) by assumption.
    eexists _, _, _. split; [reflexivity|].
    repeat split; try reflexivity; try discriminate; cbn.
    rewrite renames_app, app_nil_r. reflexivity.
Qed.

(** A call of the locator for a record whose file sits at the
    current-scheme path renames nothing and, unless the catalog update
    fails, answers with the file at that path. *)
Lemma fetchResourceFile_current resourceId r2 f s :
  let new := newFilePathOf resourceId (Some r2) in
  files s !! new = Some f ->
  isPathSafe resourcesDir new = true ->
  (storedPathQualifies r2 = false
   \/ (isPathSafe resourcesDir (path r2) = true
       /\ (files s !! path r2 = None \/ path r2 = new))) ->
  worldSame s (snd (fetchResourceFile resourceId (Some r2) s))
  /\ (updateResource_fails (faults s) = false ->
      exists located,
        fst (fetchResourceFile resourceId (Some r2) s) = Ok located
        /\ filePath located = new
        /\ status (response located) = 200
        /\ body (response located) = file_bytes f).
Proof.
  intros new Hf Hsafe Hstored.
  destruct (tryCandidates_current resourceId r2 f s Hf Hsafe Hstored)
    as (strategy & located & s' & Htry & Hst & Hpath & Hstatus & Hbody & Hw).
  assert (Heq : fetchResourceFile resourceId (Some r2) s =
                let (r, s0) := migrationFor strategy resourceId (Some r2) s' in
                match r with
                | Ok _ => (Ok located, s0)
                | Throw e =>
                    (log_error ("Error fetching resource file: " +:+ e) ;;;
                     notFound resourceId) s0
                end).
  { rewrite fetchResourceFile_locate. unfold locate, try_catch.
    unfold bind at 1. rewrite Htry. cbv beta iota. unfold bind at 1.
    destruct (migrationFor strategy resourceId (Some r2) s') as [[[]|e] s0];
      reflexivity. }
  rewrite Heq. clear Heq.
  pose proof (keepsWorld_migrationFor strategy resourceId (Some r2) Hst s') as Hm.
  split.
  - destruct (migrationFor strategy resourceId (Some r2) s') as [[[]|e] s'']; cbn in *.
    + eapply worldSame_trans; eassumption.
    + eapply worldSame_trans; [exact Hw|]. eapply worldSame_trans; [exact Hm|].
      apply (keepsWorld_locate_catch resourceId e s'').
  - intros Hu.
    destruct (migrationFor_no_throw strategy resourceId (Some r2) s' Hst)
      as [s'' ->].
    { rewrite (same_faults _ _ Hw). exact Hu. }
    exists located. repeat split; assumption.
Qed.

(** C6: a resource whose file is at the legacy path only (nothing at the
    current-scheme path, nothing resolving at the stored path), renames not
    failing.  The first call of the locator renames the legacy file to the
    current-scheme path.  A second call, with the record as it was or with
    the record pointing at the current-scheme path, renames nothing and
    leaves the files alone, so there is exactly one rename in total; unless
    the catalog update fails it answers with the file, found at the
    current-scheme path. *)
Theorem migration_once resourceId r r2 f s :
  let new := newFilePathOf resourceId (Some r) in
  let legacy := legacyPathOf resourceId in
  files s !! legacy = Some f ->
  files s !! new = None ->
  isPathSafe resourcesDir new = true ->
  (storedPathQualifies r = false
   \/ (isPathSafe resourcesDir (path r) = true /\ files s !! path r = None)) ->
  rename_fails (faults s) = false ->
  type r2 = type r ->
  getResourceFileName r2 = getResourceFileName r ->
  (path r2 = path r \/ path r2 = new) ->
  let s1 := snd (fetchResourceFile resourceId (Some r) s) in
  let second := fetchResourceFile resourceId (Some r2) s1 in
  renames (trace s1) = renames (trace s) ++ [(legacy, new)]
  /\ files s1 = <[new := f]> (delete legacy (files s))
  /\ renames (trace (snd second)) = renames (trace s) ++ [(legacy, new)]
  /\ files (snd second) = files s1
  /\ (updateResource_fails (faults s) = false ->
      exists located,
        fst second = Ok located
        /\ filePath located = new
        /\ status (response located) = 200
        /\ body (response located) = file_bytes f).
Proof.
  intros new legacy Hleg Hnew Hsafe Hstored Hrf Hty Hname Hpath s1 second.
  assert (Hne : legacy <> new).
  { intros Heq. rewrite Heq, Hnew in Hleg. discriminate. }
  (* the first call *)
  assert (Hfirst : renames (trace s1) = renames (trace s) ++ [(legacy, new)]
                   /\ files s1 = <[new := f]> (delete legacy (files s))
                   /\ faults s1 = faults s).
  { subst s1.
    destruct (fetchResourceFile resourceId (Some r) s) as [res1 s1] eqn:E1.
    cbn [snd].
    rewrite fetchResourceFile_locate in E1. unfold locate, try_catch in E1.
    unfold bind at 1 in E1.
    assert (Hpre : Forall (fun c => isPathSafe resourcesDir (snd c) = true
                                    /\ files s !! snd c = None)
                     ((if storedPathQualifies r then [(StoredPath, path r)] else [])
                        ++ [(CurrentScheme, new)])).
    { apply Forall_app. split.
      - destruct (storedPathQualifies r); [|constructor].
        destruct Hstored as [|Hst]; [discriminate|]. repeat constructor; apply Hst.
      - repeat constructor; assumption. }
    unfold candidates in E1.
    change [(CurrentScheme, newFilePathOf resourceId (Some r));
            (LegacyPath, legacyPathOf resourceId)]
      with ([(CurrentScheme, new)] ++ [(LegacyPath, legacy)]) in E1.
    rewrite app_assoc, (tryCandidates_miss _ _ _ s Hpre) in E1.
    set (sa := set_trace _ s) in E1.
    assert (Hsa : files sa = files s /\ renames (trace sa) = renames (trace s)
                  /\ faults sa = faults s).
    { subst sa. cbn. rewrite renames_app, renames_map_fetch, app_nil_r.
      repeat split; reflexivity. }
    destruct Hsa as (Ha1 & Ha2 & Ha3).
    cbn [tryCandidates] in E1. unfold bind at 1 in E1.
    assert (Hfetch : exists located sb,
              fetchFilePath resourcesDir legacy sa = (Ok (Some located), sb)
              /\ files sb = files s /\ renames (trace sb) = renames (trace s)
              /\ faults sb = faults s).
    { destruct (isPathSafe resourcesDir legacy) eqn:Es.
      - rewrite (fetchFilePath_found _ _ f) by (rewrite ?Ha1; assumption).
        eexists _, _. split; [reflexivity|]. cbn.
        rewrite renames_app, app_nil_r. repeat split; assumption.
      - rewrite (fetchFilePath_unsafe _ _ sa Es).
        eexists _, _. split; [reflexivity|]. cbn. repeat split; assumption. }
    destruct Hfetch as (located & sb & Hfe & Hb1 & Hb2 & Hb3).
    rewrite Hfe in E1.
    cbv beta iota in E1. unfold ret at 1 in E1. cbv beta iota in E1.
    unfold bind at 1 in E1.
    cbn [migrationFor] in E1. fold new legacy in E1.
    destruct (migrateResourceFile_renames legacy new (Some r) f sb Hne)
      as (Hc1 & Hc2 & Hc3); [rewrite Hb3; exact Hrf|rewrite Hb1; exact Hleg|].
    destruct (migrateResourceFile legacy new (Some r) sb) as [[[]|e] sc];
      cbn [snd] in *.
    - unfold ret in E1. injection E1 as _ <-.
      rewrite Hc1, Hc2, Hc3, Hb1, Hb2, Hb3. repeat split; reflexivity.
    - destruct (keepsWorld_locate_catch resourceId e sc) as [Hd1 Hd2 Hd3].
      rewrite E1 in Hd1, Hd2, Hd3. cbn [snd] in *.
      rewrite Hd1, Hd2, Hd3, Hc1, Hc2, Hc3, Hb1, Hb2, Hb3.
      repeat split; reflexivity. }
  destruct Hfirst as (Hr1 & Hf1 & Hfl1).
  (* the second call *)
  assert (Hnew2 : newFilePathOf resourceId (Some r2) = new).
  { unfold new, newFilePathOf, extensionOf. rewrite Hty, Hname. reflexivity. }
  assert (Hq2 : storedPathQualifies r2 = false
                \/ (isPathSafe resourcesDir (path r2) = true
                    /\ (files s1 !! path r2 = None \/ path r2 = new))).
  { destruct Hpath as [Hp|Hp].
    - destruct Hstored as [Hq|[Hs Hn]].
      + left. unfold storedPathQualifies in *. rewrite Hp, Hty. exact Hq.
      + right. rewrite Hp. split; [exact Hs|].
        destruct (decide (path r = new)) as [Heq|Hneq]; [right; exact Heq|].
        left. rewrite Hf1, lookup_insert_ne by congruence.
        rewrite lookup_delete_ne; [exact Hn|].
        intros Heq. rewrite <- Heq, Hleg in Hn. discriminate.
    - right. rewrite Hp. split; [exact Hsafe|]. right. reflexivity. }
  destruct (fetchResourceFile_current resourceId r2 f s1) as [Hw Hok].
  { rewrite Hnew2, Hf1. apply lookup_insert_eq. }
  { rewrite Hnew2. exact Hsafe. }
  { rewrite Hnew2. exact Hq2. }
  fold second in Hw, Hok. rewrite Hnew2 in Hok.
  split; [exact Hr1|]. split; [exact Hf1|].
  split; [rewrite (same_renames _ _ Hw); exact Hr1|].
  split; [exact (same_files _ _ Hw)|].
  intros Hu. apply Hok. rewrite Hfl1. exact Hu.
Qed.

End MigrationOnce.

Section MigrationOnceScenario.
#[local] Existing Instance Posix.env.
Import Scenario.

(** [migration_once] at image [123], kept at the legacy path; the second call
    is made with the record the catalog holds after the first. *)
Lemma migration_once_witness :
  let s := legacyStart noFaults in
  let new := newFilePathOf "123" (Some legacyRecord) in
  let legacy := legacyPathOf "123" in
  let s1 := snd (fetchResourceFile "123" (Some legacyRecord) s) in
  let second := fetchResourceFile "123" (Some record123) s1 in
  renames (trace s1) = renames (trace s) ++ [(legacy, new)]
  /\ files s1 = <[new := image123]> (delete legacy (files s))
  /\ renames (trace (snd second)) = renames (trace s) ++ [(legacy, new)]
  /\ files (snd second) = files s1
  /\ (updateResource_fails (faults s) = false ->
      exists located,
        fst second = Ok located
        /\ filePath located = new
        /\ status (response located) = 200
        /\ body (response located) = file_bytes image123).
Proof.
  apply (migration_once (env := Posix.env) "123" legacyRecord record123 image123
           (legacyStart noFaults)).
  - vm_compute. reflexivity.
  - vm_compute. reflexivity.
  - vm_compute. reflexivity.
  - left. vm_compute. reflexivity.
  - reflexivity.
  - reflexivity.
  - reflexivity.
  - right. vm_compute. reflexivity.
Defined.

(** The locator called twice on that resource: one rename. *)
Example migration_once_trace :
  let s1 := snd (fetchResourceFile "123" (Some legacyRecord) (legacyStart noFaults)) in
  let s2 := snd (fetchResourceFile "123" (Some record123) s1) in
  renames (trace s1) = [(legacyPath, imagePath)]
  /\ renames (trace s2) = [(legacyPath, imagePath)]
  /\ fetches (trace s2) = [imagePath; legacyPath; imagePath]
  /\ catalogUpdates (trace s2) = [record123].
Proof. vm_compute. repeat split. Qed.

End MigrationOnceScenario.

(** ** The router *)

Section RouterFacts.
Context {env : Env}.
Context (handleSurfFileRequest : Request -> M Outcome).
Local Open Scope js_scope.

Lemma fetchResourceFile_total resourceId resource s :
  exists located s', fetchResourceFile resourceId resource s = (Ok located, s').
Proof.
  unfold fetchResourceFile. unfold try_catch at 1.
  match goal with |- context [let (_, _) := ?m s in _] => destruct (m s) as [[a|e] s1] end.
  - eauto.
  - eexists _, _. reflexivity.
Qed.

Lemma surfProtocolHandleImages_total requestURL resourceId img cacheDir s :
  exists o s',
    surfProtocolHandleImages requestURL resourceId img cacheDir s = (Ok o, s').
Proof.
  destruct (surfProtocolHandleImages requestURL resourceId img cacheDir s)
    as [r s'] eqn:E.
  apply surfProtocolHandleImages_shape in E
    as [(resp & -> & _)|(s1 & params & _ & _ & w & _ & E)].
  - eauto.
  - injection E as -> ->. eauto.
Qed.

(** Serving the bytes of a resource never throws. *)
Lemma handleSurfResourceDataRequest_total req resourceId s :
  exists o s', handleSurfResourceDataRequest req resourceId s = (Ok o, s').
Proof.
  unfold handleSurfResourceDataRequest. unfold bind at 1.
  unfold readResource at 1. unfold gets at 1. unfold bind at 1.
  destruct (fetchResourceFile_total resourceId (c ← sffs s; c !! resourceId) s)
    as (located & s1 & ->).
  destruct (match headers_get (response located) "content-type" with
            | Some ct => startsWith ct "image/" && negb (startsWith ct "image/gif")
            | None => false
            end).
  - apply surfProtocolHandleImages_total.
  - eexists _, _. reflexivity.
Qed.

(** C9, as the code has it: for a request whose URL matches a direct
    resource path, the [raw] parameter routes to the serving of the
    resource's bytes exactly when it is present with a value other than the
    string [false]; when it is absent, or is [raw=false], the request goes to
    the handler of the hosting document. *)
Theorem raw_routing req resourceId u s :
  matchResourceId (url req) = Some resourceId ->
  URL_parse (url req) = Some u ->
  (searchParams_has u "raw" = true ->
   searchParams_get u "raw" <> Some "false" ->
   surfProtocolHandler handleSurfFileRequest req s
   = handleSurfResourceDataRequest req resourceId s)
  /\ (searchParams_has u "raw" = false \/ searchParams_get u "raw" = Some "false" ->
      surfProtocolHandler handleSurfFileRequest req s
      = try_catch (handleSurfFileRequest req)
          (fun err =>
             log_error ("surf protocol error: " +:+ err) ;;;
             r <- new_Response "Internal Server Error" 500
                    [("content-type", "text/plain;charset=UTF-8")] ;;
             ret (Done r)) s).
Proof.
  intros Hm Hu. unfold surfProtocolHandler. rewrite Hm, Hu.
  split.
  - intros Hhas Hget.
    unfold try_catch. unfold bind at 1. unfold ret at 1. cbv beta iota.
    rewrite Hhas.
    rewrite bool_decide_eq_false_2 by exact Hget. cbn [andb negb].
    destruct (handleSurfResourceDataRequest_total req resourceId s)
      as (o & s' & ->). reflexivity.
  - intros Hno.
    assert (Hc : searchParams_has u "raw" &&
                 negb (bool_decide (searchParams_get u "raw" = Some "false"))
                 = false).
    { destruct Hno as [->| ->]; [reflexivity|].
      rewrite bool_decide_eq_true_2 by reflexivity. apply andb_false_r. }
    unfold try_catch. unfold bind at 1. unfold ret at 1. cbv beta iota.
    rewrite Hc. reflexivity.
Qed.

End RouterFacts.

Section RouterScenario.
#[local] Existing Instance Posix.env.
Import Scenario.

(** [raw_routing] at the request of the spec's scenario. *)
Lemma raw_routing_witness :
  let req := {| url := "surf://surf/resource/123?raw=1&quality=70" |} in
  surfProtocolHandler documentShell req start
  = handleSurfResourceDataRequest req "123" start.
Proof.
  intros req.
  apply (proj1 (raw_routing (env := Posix.env) documentShell req "123"
                  {| protocol := "surf:"; hostname := "surf";
                     pathname := "/resource/123";
                     searchParams := [("raw", "1"); ("quality", "70")] |}
                  start ltac:(vm_compute; reflexivity)
                  ltac:(vm_compute; reflexivity))).
  - reflexivity.
  - discriminate.
Defined.

(** C9 as stated fails: the request carries the [raw] parameter, as
    [raw=false], and is answered by the handler of the hosting document;
    no file of the resource is fetched.  Serving the bytes would have
    answered with the image. *)
Lemma raw_false_serves_shell :
  let req := {| url := "surf://surf/resource/123?raw=false" |} in
  matchResourceId (url req) = Some "123"
  /\ (fun u => searchParams_has u "raw") <$> URL_parse (url req) = Some true
  /\ surfProtocolHandler documentShell req start = documentShell req start
  /\ fetches (trace (snd (surfProtocolHandler documentShell req start))) = []
  /\ fst (handleSurfResourceDataRequest req "123" start)
     = Ok (Done {| obj := 2; status := 200;
                   headers := ("content-type", "image/png") :: cacheHeaders "123";
                   body := "png bytes of 123" |}).
Proof. vm_compute. repeat split. Qed.

End RouterScenario.

(** ** A fatal error of the worker *)

Lemma spawned_imap_resolve (f : nat -> Response) (hs : list Handle) :
  spawned (imap (fun i h => EResolve h (f i)) hs) = [].
Proof.
  revert f. induction hs as [|h hs IH]; intros f; [reflexivity|].
  cbn. apply (IH (f ∘ S)).
Qed.

Section FatalError.
Context {env : Env}.

(** What a fatal error does: every handle of the table gets a 500 response
    of its own and the table is emptied; the variable [imageProcessor] keeps
    the worker that failed. *)
Lemma imageProcessorOnError_keeps_worker err s :
  let s1 := snd (imageProcessorOnError err s) in
  imageProcessorHandles s1 = []
  /\ resolutions (trace s1) =
       resolutions (trace s) ++
       imap (fun i h => (h, fatalResponse (fresh s + i)))
         (tableHandles (imageProcessorHandles s))
  /\ imageProcessor s1 = imageProcessor s
  /\ spawned (trace s1) = spawned (trace s)
  /\ terminated (trace s1) = terminated (trace s).
Proof.
  cbv zeta. rewrite imageProcessorOnError_eq. cbn [snd trace imageProcessorHandles imageProcessor].
  rewrite !resolutions_app, !spawned_app, !terminated_app, resolutions_imap,
    spawned_imap_resolve, terminated_imap_resolve. cbn.
  rewrite !app_nil_r. repeat split; reflexivity.
Qed.

(** While [imageProcessor] holds a worker, a request starts no other one:
    what it posts, it posts to that worker. *)
Lemma request_reuses_worker requestURL resourceId img cacheDir w s :
  imageProcessor s = Some w ->
  let s' := snd (surfProtocolHandleImages requestURL resourceId img cacheDir s) in
  spawned (trace s') = spawned (trace s)
  /\ imageProcessor s' = Some w
  /\ exists jobs,
       postedJobs (trace s') = postedJobs (trace s) ++ jobs
       /\ Forall (fun j => fst (fst j) = w) jobs.
Proof.
  intros Hw. cbv zeta.
  destruct (surfProtocolHandleImages requestURL resourceId img cacheDir s)
    as [r s'] eqn:E.
  apply surfProtocolHandleImages_shape in E
    as [(resp & _ & Q)|(s1 & params & Q & _ & w' & Hw' & E)]; cbn [snd].
  - destruct Q as [_ Q2 _ _ _ (tr & Q6 & Q7)].
    rewrite Q2, Q6, spawned_app, postedJobs_app, (spawned_quiet tr Q7),
      (postedJobs_quiet tr Q7), !app_nil_r.
    repeat split; try assumption. exists []. split; [symmetry; apply app_nil_r|constructor].
  - destruct Q as [_ Q2 _ _ _ (tr & Q6 & Q7)].
    rewrite Q2, Hw in Hw', E. cbv beta iota in Hw', E.
    rewrite Q2, Hw in Hw'. injection Hw' as <-.
    injection E as _ ->.
    rewrite processImageWithWorker_eq.
    cbn [snd trace imageProcessor]. rewrite Q2, Q6.
    rewrite !spawned_app, !postedJobs_app, (spawned_quiet tr Q7),
      (postedJobs_quiet tr Q7), !app_nil_r.
    split; [|split; [exact Hw|]].
    + destruct (JsMap.get _ _); destruct (imageProcessorDeinitTimeout s1); cbn;
        rewrite ?app_nil_r; reflexivity.
    + eexists. split; [reflexivity|].
      destruct (JsMap.get _ _); destruct (imageProcessorDeinitTimeout s1); cbn;
        repeat constructor.
Qed.

End FatalError.

Section FatalErrorScenario.
#[local] Existing Instance Posix.env.
Import Scenario.

(** C3, evaluated: the worker fails while jobs for images [123] and [456]
    are outstanding.  Both handles get a 500 response and the table is
    emptied; but [imageProcessor] still holds the failed worker [0], so the
    next request starts no worker and posts its job to worker [0], where its
    handle stays in the table; and when the teardown timer then fires, the
    table is not empty, so the timer is re-armed and the failed worker
    kept. *)
Theorem fatal_error_worker_not_replaced :
  let s1 := run [request70; request456; WorkerError "crash"] startTwo in
  let s2 := run [request30] s1 in
  let s3 := run [TimerFires 8] s2 in
  imageProcessorHandles s1 = []
  /\ List.map (fun hr => (fst hr, status (snd hr))) (resolutions (trace s1))
     = [(1, 500); (3, 500)]
  /\ imageProcessor s1 = Some 0
  /\ spawned (trace s2) = [0]
  /\ postedJobs (trace s2) =
       postedJobs (trace s1) ++
       [(0, {| imgPath := imagePath;
               savePath := "/data/sffs_backend/resources/cache/123_quality-30";
               options := {| quality := Some (Int 30); maxDimension := None |} |},
         imagePath)]
  /\ imageProcessorHandles s2 = [(imagePath, [7])]
  /\ terminated (trace s3) = []
  /\ imageProcessor s3 = Some 0
  /\ imageProcessorHandles s3 = [(imagePath, [7])]
  /\ timers s3 = [(9, 10000%N)].
Proof. vm_compute. repeat split. Qed.

End FatalErrorScenario.

(** ** The theorems at the scenario *)

Section Witnesses.
#[local] Existing Instance Posix.env.
Import Scenario.

(** [coalescing] at two requests for image [123], at quality 70 and at
    quality 30, with a request for image [456] and a firing of the teardown
    timer in between. *)
Lemma coalescing_witness :
  let es := [request70; request456; TimerFires 4; request30] in
  let hs := waiters imagePath es startTwo in
  let s1 := run es startTwo in
  let s2 := step (WorkerMessage answer123) s1 in
  List.length hs = 2
  /\ NoDup hs
  /\ JsMap.get imagePath (imageProcessorHandles s1) = Some hs
  /\ (exists job,
        jobsFor imagePath (trace s1) = jobsFor imagePath (trace startTwo) ++ [job])
  /\ (exists delivered,
        resolutions (trace s2) = resolutions (trace s1) ++ delivered
        /\ List.map fst delivered = hs
        /\ Forall (fun hr => status (snd hr) = 200
                             /\ body (snd hr) = buffer answer123) delivered
        /\ NoDup (List.map (fun hr => obj (snd hr)) delivered))
  /\ JsMap.get imagePath (imageProcessorHandles s2) = None
  /\ postedJobs (trace s2) = postedJobs (trace s1).
Proof.
  intros es hs s1 s2. split; [vm_compute; reflexivity|].
  apply (coalescing (env := Posix.env) imagePath es startTwo answer123).
  - reflexivity.
  - reflexivity.
  - vm_compute. discriminate.
  - reflexivity.
  - reflexivity.
Defined.

(** [locator_order] where nothing is on disk, and at image [123] kept at the
    legacy path. *)
Lemma locator_order_witness :
  (exists located s',
     fetchResourceFile "123" (Some legacyRecord) (initial ∅ ∅ None noFaults)
       = (Ok located, s')
     /\ status (response located) = 404
     /\ fetches (trace s') = [imagePath; legacyPath])
  /\ (exists located s',
        fetchResourceFile "123" (Some legacyRecord) (legacyStart noFaults)
          = (Ok located, s')
        /\ filePath located = legacyPath
        /\ renames (trace s') = [(legacyPath, imagePath)]
        /\ catalogUpdates (trace s') = [record123]).
Proof.
  split.
  - destruct (proj1 (proj2 (proj2
        (locator_order (env := Posix.env) "123" (Some legacyRecord)
           (initial ∅ ∅ None noFaults)))))
      as (located & s' & E & Hs & Hf & _).
    { vm_compute. repeat constructor. }
    exists located, s'. repeat split; assumption.
  - destruct (proj2 (proj2 (proj2
        (locator_order (env := Posix.env) "123" (Some legacyRecord)
           (legacyStart noFaults))))
        legacyRecord {[ "123" := legacyRecord ]} image123)
      as (located & s' & E & Hp & _ & _ & _ & Hr & Hu & _); try reflexivity.
    { vm_compute. repeat constructor. }
    exists located, s'. repeat split; assumption.
Defined.

(** [cache_short_circuit] at image [123], its cache file for quality 70 on
    disk. *)
Lemma cache_short_circuit_witness :
  let rs := surfProtocolHandleImages "surf://surf/resource/123?raw=1&quality=70"
              "123" imagePath cachePath cachedStart in
  (exists resp,
     fst rs = Ok (Done resp) /\ status resp = 200
     /\ body resp = "webp bytes of 123 at 70")
  /\ imageProcessorHandles (snd rs) = []
  /\ imageProcessor (snd rs) = None
  /\ postedJobs (trace (snd rs)) = []
  /\ spawned (trace (snd rs)) = []
  /\ fetches (trace (snd rs)) = [cached70Path].
Proof.
  intros rs.
  destruct (cache_short_circuit (env := Posix.env)
              "surf://surf/resource/123?raw=1&quality=70" "123" imagePath
              cachePath
              {| protocol := "surf:"; hostname := "surf";
                 pathname := "/resource/123";
                 searchParams := [("raw", "1"); ("quality", "70")] |}
              cached70 cachedStart)
    as ((resp & E & Hs & Hb & _) & Hh & Hw & _ & Hp & Hsp & Hf).
  - vm_compute. reflexivity.
  - left. vm_compute. discriminate.
  - vm_compute. reflexivity.
  - right. reflexivity.
  - split; [exists resp; repeat split; assumption|].
    repeat split; assumption.
Defined.

(** [teardown_deferred] after one request: the timer fires while the job is
    outstanding; and after the worker has answered: the timer fires on the
    empty table. *)
Lemma teardown_deferred_witness :
  (let s := run [request70] start in
   let s' := step (TimerFires 2) s in
   terminated (trace s') = terminated (trace s)
   /\ imageProcessor s' = Some 0
   /\ timers s' = [(3, 10000%N)])
  /\ (let s := run [request70; WorkerMessage answer123] start in
      imageProcessorHandles s = []
      /\ terminated (trace (step (TimerFires 2) s)) = terminated (trace s) ++ [0]).
Proof.
  split.
  - destruct (proj1 (proj2 (teardown_deferred (env := Posix.env) [request70]
                              {[ imagePath := image123 ]} ∅
                              (Some {[ "123" := record123 ]}) noFaults)) 2 0)
      as (H1 & H2 & _ & H4 & _).
    + reflexivity.
    + vm_compute. discriminate.
    + vm_compute. reflexivity.
    + repeat split; assumption.
  - destruct (proj1 (proj2 (proj2
        (teardown_deferred (env := Posix.env) [request70; WorkerMessage answer123]
           {[ imagePath := image123 ]} ∅
           (Some {[ "123" := record123 ]}) noFaults))) (TimerFires 2))
      as (H1 & t & w & He & _ & Hw & Ht).
    + vm_compute. discriminate.
    + split; [exact H1|].
      assert (w = 0) as -> by (vm_compute in Hw; congruence).
      exact Ht.
Defined.

(** [resolved_at_most_once]: an answer that arrives after a fatal error is
    ignored, and an answer that finds its entry resolves it and deletes
    it. *)
Lemma resolved_at_most_once_witness :
  (let s := run [request70; WorkerError "crash"] start in
   NoDup (resolvedHandles (trace s))
   /\ imageProcessorOnMessage answer123 s = (Ok tt, s))
  /\ (let s := run [request70; request30] start in
      let s' := snd (imageProcessorOnMessage answer123 s) in
      resolvedHandles (trace s') = resolvedHandles (trace s) ++ [1; 3]
      /\ JsMap.get imagePath (imageProcessorHandles s') = None).
Proof.
  split.
  - pose proof (resolved_at_most_once (env := Posix.env)
                  [request70; WorkerError "crash"]
                  {[ imagePath := image123 ]} ∅
                  (Some {[ "123" := record123 ]}) noFaults
                  (run [request70; WorkerError "crash"] start)
                  answer123 "crash") as (H1 & H2 & _).
    split; [exact H1|]. apply H2. vm_compute. reflexivity.
  - pose proof (resolved_at_most_once (env := Posix.env) []
                  ∅ ∅ None noFaults
                  (run [request70; request30] start)
                  answer123 "crash") as (_ & _ & _ & H4 & _).
    apply (H4 [1; 3]). vm_compute. reflexivity.
Defined.

End Witnesses.

(** * More of the handlers *)

(** ** Strings *)

Lemma append_cons x (a b : string) : String x a +:+ b = String x (a +:+ b).
Proof. reflexivity. Qed.

Lemma length_append (a b : string) :
  String.length (a +:+ b) = String.length a + String.length b.
Proof.
  induction a as [|x a IH]; [reflexivity|].
  rewrite append_cons. cbn [String.length]. rewrite IH. reflexivity.
Qed.

Lemma prefix_append (p rest : string) : String.prefix p (p +:+ rest) = true.
Proof.
  induction p as [|x p IH]; [destruct rest; reflexivity|].
  rewrite append_cons. cbn [String.prefix].
  destruct (ascii_dec x x) as [_|Hne]; [exact IH|contradiction].
Qed.

Lemma prefix_inv (p u : string) :
  String.prefix p u = true -> exists rest, u = p +:+ rest.
Proof.
  revert u. induction p as [|x p IH]; intros u H.
  - exists u. reflexivity.
  - destruct u as [|y u]; [discriminate|]. cbn [String.prefix] in H.
    destruct (ascii_dec x y) as [->|_]; [|discriminate].
    destruct (IH u H) as (rest & ->). exists rest. reflexivity.
Qed.

Lemma substring_whole (s : string) m :
  String.length s <= m -> substring 0 m s = s.
Proof.
  revert m. induction s as [|x s IH]; intros m H.
  - destruct m; reflexivity.
  - destruct m as [|m]; [cbn in H; lia|]. cbn [substring].
    rewrite IH by (cbn in H; lia). reflexivity.
Qed.

Lemma substring_skip (p rest : string) m :
  substring (String.length p) m (p +:+ rest) = substring 0 m rest.
Proof.
  induction p as [|x p IH]; [reflexivity|].
  rewrite append_cons. cbn [String.length substring]. exact IH.
Qed.

Lemma endsWith_append (a b : string) : endsWith (a +:+ b) b = true.
Proof.
  unfold endsWith. rewrite length_append.
  replace (String.length a + String.length b - String.length b)
    with (String.length a) by lia.
  rewrite substring_skip, substring_whole by lia.
  rewrite String.eqb_refl, andb_true_r. apply Nat.leb_le. lia.
Qed.

(** ** The id of a direct resource request *)

Lemma takeId_append (i rest : string) :
  allChars (fun c => negb (endsId c)) i = true ->
  stopsAt endsId rest = true ->
  takeId (i +:+ rest) = i.
Proof.
  intros Hi Hrest. induction i as [|x i IH].
  - destruct rest as [|c rest]; [reflexivity|].
    cbn in Hrest. change (EmptyString +:+ String c rest) with (String c rest).
    cbn [takeId]. unfold endsId in Hrest. rewrite Hrest. reflexivity.
  - cbn [allChars] in Hi. apply andb_true_iff in Hi as [Hx Hi].
    rewrite append_cons. cbn [takeId]. unfold endsId in Hx.
    apply negb_true_iff in Hx. rewrite Hx, (IH Hi). reflexivity.
Qed.

Lemma takeId_split (t : string) :
  exists rest,
    t = takeId t +:+ rest
    /\ allChars (fun c => negb (endsId c)) (takeId t) = true
    /\ stopsAt endsId rest = true.
Proof.
  induction t as [|x t (rest & IH1 & IH2 & IH3)].
  - exists EmptyString. repeat split.
  - cbn [takeId]. destruct (Ascii.eqb x "/" || Ascii.eqb x "?") eqn:Hx.
    + exists (String x t). repeat split. exact Hx.
    + exists rest. rewrite append_cons. split; [f_equal; exact IH1|].
      split; [|exact IH3]. cbn [allChars]. unfold endsId at 1. rewrite Hx.
      exact IH2.
Qed.

(** X1: [surfProtocolHandler] takes a URL for a direct resource request
    exactly when it is [surf://surf/resource/] followed by a non-empty id
    and then nothing, a [/] or a [?]; the id it extracts is the run of
    characters up to there, so it holds neither [/] nor [?]. *)
Theorem matchResourceId_spec (u i : string) :
  matchResourceId u = Some i <->
  exists rest,
    u = "surf://surf/resource/" +:+ i +:+ rest
    /\ i <> EmptyString
    /\ allChars (fun c => negb (endsId c)) i = true
    /\ stopsAt endsId rest = true.
Proof.
  unfold matchResourceId. split.
  - destruct (String.prefix "surf://surf/resource/" u) eqn:Hp; [|discriminate].
    apply prefix_inv in Hp as (t & ->).
    rewrite substring_skip, substring_whole by (rewrite !length_append; lia).
    destruct (String.eqb_spec (takeId t) EmptyString) as [|Hne]; [discriminate|].
    intros [= <-]. destruct (takeId_split t) as (rest & Ht & Hi & Hrest).
    exists rest. rewrite <- Ht. repeat split; assumption.
  - intros (rest & -> & Hne & Hi & Hrest).
    rewrite prefix_append, substring_skip,
      substring_whole by (rewrite !length_append; lia).
    rewrite (takeId_append i rest Hi Hrest).
    destruct (String.eqb_spec i EmptyString); [contradiction|reflexivity].
Qed.

(** ** The transform parameters of a request *)

Lemma searchParams_get_has (u : URL) (name : string) :
  searchParams_get u name =
  if searchParams_has u name then searchParams_get u name else None.
Proof.
  unfold searchParams_get, searchParams_has.
  induction (searchParams u) as [|[k v] l IH]; [reflexivity|].
  cbn. destruct (String.eqb k name); [reflexivity|exact IH].
Qed.

Lemma searchParams_has_some (u : URL) (name : string) :
  searchParams_has u name = true -> exists v, searchParams_get u name = Some v.
Proof.
  unfold searchParams_get, searchParams_has.
  induction (searchParams u) as [|[k v] l IH]; [discriminate|].
  cbn. destruct (String.eqb k name); [eauto|exact IH].
Qed.

Section Options.
Context {env : Env}.

(** X2: a transform parameter of [extractImageOptions] is present exactly
    when the query has its key, and it is then [parseInt] of the first
    value under that key: the fallback ['100'] of the quality is never
    used. *)
Theorem extractImageOptions_reads_query (u : URL) :
  quality (extractImageOptions u) = parseInt <$> searchParams_get u "quality"
  /\ maxDimension (extractImageOptions u)
     = parseInt <$> searchParams_get u "maxDimension".
Proof.
  unfold extractImageOptions. cbn [quality maxDimension]. split.
  - rewrite (searchParams_get_has u "quality") at 2.
    destruct (searchParams_has u "quality") eqn:Hh; [|reflexivity].
    destruct (searchParams_has_some u "quality" Hh) as (v & ->). reflexivity.
  - rewrite (searchParams_get_has u "maxDimension") at 2.
    destruct (searchParams_has u "maxDimension") eqn:Hh; [|reflexivity].
    destruct (searchParams_has_some u "maxDimension" Hh) as (v & ->). reflexivity.
Qed.

End Options.

(** ** Image requests without a transform, and failing ones *)

Lemma createCacheDirIfNotExists_fails d s :
  files s !! d = None ->
  d ∉ dirs s ->
  mkdir_fails (faults s) = true ->
  createCacheDirIfNotExists d s =
  (Throw "EACCES", set_trace (trace s ++ [EMkdir d]) s).
Proof.
  intros Hf Hd Hm. destruct s as [m wk tv ts fs ds c fl n tr]. cbn in *.
  unfold createCacheDirIfNotExists, stat, mkdir. unfold_monad. cbn.
  rewrite Hf. rewrite bool_decide_eq_false_2 by exact Hd. cbn.
  rewrite Hm. reflexivity.
Qed.

Section Passthrough.
Context {env : Env}.
Local Open Scope js_scope.

Lemma extractImageOptions_none (u : URL) :
  searchParams_has u "quality" = false ->
  searchParams_has u "maxDimension" = false ->
  extractImageOptions u = {| quality := None; maxDimension := None |}.
Proof. intros Hq Hd. unfold extractImageOptions. rewrite Hq, Hd. reflexivity. Qed.

(** X3: a request that asks for no transform (neither [quality] nor
    [maxDimension] in its query) is answered with the image file itself:
    status 200, the bytes of the file, its content type and the cache
    headers.  The cache file is not looked at, the table of handles, the
    worker and the timers are as before, no job is posted and no worker is
    started. *)
Theorem passthrough_serves_original requestURL resourceId img cacheDir u f s :
  URL_parse requestURL = Some u ->
  searchParams_has u "quality" = false ->
  searchParams_has u "maxDimension" = false ->
  files s !! img = Some f ->
  cacheDir ∈ dirs s \/ mkdir_fails (faults s) = false ->
  let rs := surfProtocolHandleImages requestURL resourceId img cacheDir s in
  (exists resp,
     fst rs = Ok (Done resp)
     /\ status resp = 200
     /\ body resp = file_bytes f
     /\ headers resp = ("content-type", file_mime f) :: cacheHeaders resourceId)
  /\ imageProcessorHandles (snd rs) = imageProcessorHandles s
  /\ imageProcessor (snd rs) = imageProcessor s
  /\ timers (snd rs) = timers s
  /\ postedJobs (trace (snd rs)) = postedJobs (trace s)
  /\ spawned (trace (snd rs)) = spawned (trace s)
  /\ fetches (trace (snd rs)) = fetches (trace s) ++ [img].
Proof.
  intros HU Hq Hd Hfile Hdir. cbv zeta.
  destruct (createCacheDirIfNotExists_ok cacheDir s Hdir)
    as (s1 & E1 & Q1 & Hfs & Hfe).
  assert (E : surfProtocolHandleImages requestURL resourceId img cacheDir s =
    (Ok (Done {| obj := S (fresh s1); status := 200;
                 headers := ("content-type", file_mime f) :: cacheHeaders resourceId;
                 body := file_bytes f |}),
     set_fresh (S (S (fresh s1))) (set_trace (trace s1 ++ [EFetch img]) s1))).
  { unfold surfProtocolHandleImages. unfold try_catch at 1.
    unfold bind at 1. rewrite E1. unfold bind at 1. rewrite HU.
    unfold ret at 1. cbv beta iota.
    rewrite (extractImageOptions_none u Hq Hd). cbn [quality maxDimension].
    unfold bind at 1. rewrite (net_fetch_found img f) by (rewrite Hfs; exact Hfile).
    destruct s1; reflexivity. }
  rewrite E. cbn [fst snd].
  destruct Q1 as [Q1 Q2 Q3 Q4 Q5 (tr1 & Q6 & Q7)].
  split; [eexists; repeat split; reflexivity|].
  cbn [imageProcessorHandles imageProcessor timers trace set_fresh set_trace].
  rewrite Q1, Q2, Q4, !postedJobs_app, !spawned_app, fetches_app, Hfe, Q6.
  rewrite !postedJobs_app, !spawned_app, (postedJobs_quiet tr1 Q7),
    (spawned_quiet tr1 Q7). cbn. rewrite !app_nil_r.
  repeat split; reflexivity.
Qed.

(** X4: an image request never throws.  When the cache directory cannot be
    made, when the URL of the request does not parse, or when no transform
    is asked for and the image file is missing, the answer is a response of
    status 500 in plain text, without the cache headers; the error is
    logged, the table of handles, the worker and the timers are as before
    and no job is posted. *)
Theorem image_request_failure_is_500 requestURL resourceId img cacheDir s :
  let rs := surfProtocolHandleImages requestURL resourceId img cacheDir s in
  (exists o, fst rs = Ok o)
  /\ ((files s !! cacheDir = None /\ (cacheDir ∉ dirs s)
       /\ mkdir_fails (faults s) = true)
      \/ URL_parse requestURL = None
      \/ (exists u,
            URL_parse requestURL = Some u
            /\ searchParams_has u "quality" = false
            /\ searchParams_has u "maxDimension" = false
            /\ files s !! img = None
            /\ (cacheDir ∈ dirs s \/ mkdir_fails (faults s) = false)) ->
      exists resp msg,
        fst rs = Ok (Done resp)
        /\ status resp = 500
        /\ headers resp = [("content-type", "text/plain;charset=UTF-8")]
        /\ last (trace (snd rs)) = Some (ELogError msg)
        /\ imageProcessorHandles (snd rs) = imageProcessorHandles s
        /\ imageProcessor (snd rs) = imageProcessor s
        /\ timers (snd rs) = timers s
        /\ postedJobs (trace (snd rs)) = postedJobs (trace s)).
Proof.
  cbv zeta. split.
  { destruct (surfProtocolHandleImages requestURL resourceId img cacheDir s)
      as [r s'] eqn:E.
    apply surfProtocolHandleImages_shape in E
      as [(resp & -> & _)|(s1 & params & _ & _ & w & _ & E)].
    - eauto.
    - injection E as -> ->. eauto. }
  assert (Hcatch : forall e s1,
    quietStep s s1 ->
    let rs := (log_error ("Image processing error: " +:+ e) ;;;
               r <- new_Response ("'Internal Server Error: " +:+ e) 500
                      [("content-type", "text/plain;charset=UTF-8")] ;;
               ret (Done r)) s1 in
    exists resp msg,
      fst rs = Ok (Done resp)
      /\ status resp = 500
      /\ headers resp = [("content-type", "text/plain;charset=UTF-8")]
      /\ last (trace (snd rs)) = Some (ELogError msg)
      /\ imageProcessorHandles (snd rs) = imageProcessorHandles s
      /\ imageProcessor (snd rs) = imageProcessor s
      /\ timers (snd rs) = timers s
      /\ postedJobs (trace (snd rs)) = postedJobs (trace s)).
  { intros e s1 [Q1 Q2 Q3 Q4 Q5 (tr1 & Q6 & Q7)]. cbv zeta.
    destruct s1 as [m wk tv ts fs ds c fl n tr]. cbn in *.
    eexists _, _. split; [reflexivity|]. cbn.
    rewrite last_snoc. subst.
    rewrite !postedJobs_app, (postedJobs_quiet tr1 Q7). cbn.
    rewrite !app_nil_r. repeat split; reflexivity. }
  intros Hfail.
  pose (handler := fun e : string =>
    (log_error ("Image processing error: " +:+ e) ;;;
     r <- new_Response ("'Internal Server Error: " +:+ e) 500
            [("content-type", "text/plain;charset=UTF-8")] ;;
     ret (Done r))).
  assert (Hthrown : exists e s1,
    surfProtocolHandleImages requestURL resourceId img cacheDir s = handler e s1
    /\ quietStep s s1).
  { unfold surfProtocolHandleImages. fold handler.
    destruct Hfail as [(Hf & Hd & Hm)|[HU|(u & HU & Hq & Hdm & Hfile & Hdir)]].
    - unfold try_catch at 1. unfold bind at 1.
      rewrite (createCacheDirIfNotExists_fails cacheDir s Hf Hd Hm).
      eexists _, _. split; [reflexivity|].
      destruct s; split; cbn; try reflexivity; try lia.
      exists [EMkdir cacheDir]. split; reflexivity.
    - pose proof (quiet_createCacheDirIfNotExists cacheDir s) as Q1.
      unfold try_catch at 1. unfold bind at 1.
      destruct (createCacheDirIfNotExists cacheDir s) as [[[]|e] s1];
        cbn [snd] in Q1; [|eexists _, _; split; [reflexivity|exact Q1]].
      unfold bind at 1. rewrite HU. unfold throw at 1.
      eexists _, _; split; [reflexivity|exact Q1].
    - destruct (createCacheDirIfNotExists_ok cacheDir s Hdir)
        as (s1 & E1 & Q1 & Hfs & Hfe).
      unfold try_catch at 1. unfold bind at 1.
      rewrite E1. unfold bind at 1. rewrite HU. unfold ret at 1. cbv beta iota.
      rewrite (extractImageOptions_none u Hq Hdm). cbn [quality maxDimension].
      unfold bind at 1. rewrite (net_fetch_missing img) by (rewrite Hfs; exact Hfile).
      eexists _, _. split; [reflexivity|].
      eapply quietStep_trans; [exact Q1|].
      destruct s1; split; cbn; try reflexivity; try lia.
      exists [EFetch img]. split; reflexivity. }
  destruct Hthrown as (e & s1 & -> & Q). apply (Hcatch e s1 Q).
Qed.

End Passthrough.

Section PassthroughScenario.
#[local] Existing Instance Posix.env.
Import Scenario.

(** [passthrough_serves_original] at image [123], asked for as it is. *)
Lemma passthrough_serves_original_witness :
  let rs := surfProtocolHandleImages "surf://surf/resource/123?raw=1" "123"
              imagePath cachePath start in
  (exists resp,
     fst rs = Ok (Done resp)
     /\ status resp = 200
     /\ body resp = "png bytes of 123"
     /\ headers resp = ("content-type", "image/png") :: cacheHeaders "123")
  /\ imageProcessorHandles (snd rs) = []
  /\ imageProcessor (snd rs) = None
  /\ timers (snd rs) = []
  /\ postedJobs (trace (snd rs)) = []
  /\ spawned (trace (snd rs)) = []
  /\ fetches (trace (snd rs)) = [] ++ [imagePath].
Proof.
  eapply (passthrough_serves_original (env := Posix.env)
            "surf://surf/resource/123?raw=1" "123" imagePath cachePath _
            image123 start).
  - vm_compute. reflexivity.
  - reflexivity.
  - reflexivity.
  - reflexivity.
  - right. reflexivity.
Defined.

(** [image_request_failure_is_500] at a request whose URL does not parse. *)
Lemma image_request_failure_is_500_witness :
  let rs := surfProtocolHandleImages "123?quality=70" "123"
              imagePath cachePath start in
  exists resp msg,
    fst rs = Ok (Done resp)
    /\ status resp = 500
    /\ headers resp = [("content-type", "text/plain;charset=UTF-8")]
    /\ last (trace (snd rs)) = Some (ELogError msg)
    /\ imageProcessorHandles (snd rs) = []
    /\ imageProcessor (snd rs) = None
    /\ timers (snd rs) = []
    /\ postedJobs (trace (snd rs)) = [].
Proof.
  apply (proj2 (image_request_failure_is_500 (env := Posix.env)
                  "123?quality=70" "123" imagePath cachePath start)).
  right. left. reflexivity.
Defined.

End PassthroughScenario.

(** ** A transcode that fails *)

Lemma postedJobs_imap_resolve (f : nat -> Response) (hs : list Handle) :
  postedJobs (imap (fun i h => EResolve h (f i)) hs) = [].
Proof.
  revert f. induction hs as [|x l IH]; intros f; [reflexivity|].
  cbn. apply (IH (f ∘ S)).
Qed.

(** X5: when the worker reports that the job of a key has failed, every
    request waiting under the key is handed a response of its own (pairwise
    distinct objects), of status 500, whose body is the worker's error
    after [Image Processing Error: ]; the entry of the key is deleted and
    the entries of the other keys are as before.  The worker is kept and no
    job is posted again. *)
Theorem worker_failure_reaches_waiters (result : WorkerResult) hs s :
  JsMap.get (messageID result) (imageProcessorHandles s) = Some hs ->
  success result = false ->
  let s' := snd (imageProcessorOnMessage result s) in
  (exists delivered,
     resolutions (trace s') = resolutions (trace s) ++ delivered
     /\ List.map fst delivered = hs
     /\ Forall (fun hr =>
                  status (snd hr) = 500
                  /\ body (snd hr) = "Image Processing Error: " +:+
                                     default "undefined" (error result))
          delivered
     /\ NoDup (List.map (fun hr => obj (snd hr)) delivered))
  /\ JsMap.get (messageID result) (imageProcessorHandles s') = None
  /\ (forall k, k <> messageID result ->
        JsMap.get k (imageProcessorHandles s')
        = JsMap.get k (imageProcessorHandles s))
  /\ imageProcessor s' = imageProcessor s
  /\ postedJobs (trace s') = postedJobs (trace s).
Proof.
  intros Hget Hfail. cbv zeta.
  rewrite imageProcessorOnMessage_eq, Hget. cbv zeta.
  cbn [snd trace imageProcessorHandles imageProcessor]. rewrite Hfail.
  set (response := workerResponse result (fresh s)).
  split; [|split; [|split; [|split]]].
  - exists (imap (fun i h => (h, copyOf response (S (fresh s) + i))) hs).
    split; [|split; [|split]].
    + rewrite !resolutions_app, resolutions_imap. reflexivity.
    + apply fst_imap_pair.
    + apply Forall_forall. intros [h r] Hin.
      apply elem_of_lookup_imap in Hin as (i & h' & Heq & _).
      injection Heq as -> ->. subst response. unfold workerResponse.
      rewrite Hfail. cbn. split; reflexivity.
    + rewrite <- (List.map_map snd obj), snd_imap_pair, List.map_map. cbn.
      apply NoDup_fmap_2; [|apply NoDup_seq].
      intros i j Hij. cbn in Hij. lia.
  - apply JsMap_get_delete_eq.
  - intros k Hk. apply JsMap_get_delete_ne. congruence.
  - reflexivity.
  - rewrite !postedJobs_app, postedJobs_imap_resolve. cbn.
    rewrite app_nil_r. reflexivity.
Qed.

Section FailedTranscode.
Context {env : Env}.

(** X6: the answer to a request whose transcode failed.  The response the
    waiting request is resolved with, by a failure report of the worker or
    by its fatal error, has status 500; [surfProtocolHandleImages] then
    returns it under the same cache headers as an image: status 500 with
    [Cache-Control: max-age=172800], the [ETag] of the resource and
    [Last-Modified]. *)
Theorem failed_transcode_is_answered_with_cache_headers
    resourceId (e : Event) (h : Handle) s :
  match e with
  | WorkerMessage result =>
      success result = false
      /\ exists hs,
           JsMap.get (messageID result) (imageProcessorHandles s) = Some hs
           /\ h ∈ hs
  | WorkerError _ => h ∈ tableHandles (imageProcessorHandles s)
  | _ => False
  end ->
  exists r,
    (h, r) ∈ resolutions (trace (step e s))
    /\ status r = 500
    /\ forall s2, exists final,
         fst (surfProtocolHandleImages_resume resourceId r s2) = Ok final
         /\ status final = 500
         /\ body final = body r
         /\ headers final =
              ("content-type", "text/plain;charset=UTF-8")
              :: cacheHeaders resourceId.
Proof.
  assert (Hresume : forall r,
    status r = 500 ->
    headers r = [("content-type", "text/plain;charset=UTF-8")] ->
    forall s2, exists final,
      fst (surfProtocolHandleImages_resume resourceId r s2) = Ok final
      /\ status final = 500
      /\ body final = body r
      /\ headers final =
           ("content-type", "text/plain;charset=UTF-8") :: cacheHeaders resourceId).
  { intros r Hs Hh s2. eexists. split; [reflexivity|]. cbn.
    rewrite Hs, Hh. repeat split; reflexivity. }
  destruct e as [u rid img cd|result|err|t| |file f]; try contradiction.
  - intros (Hfail & hs & Hget & Hin). cbn [step].
    rewrite imageProcessorOnMessage_eq, Hget. cbv zeta. cbn [snd trace].
    rewrite Hfail.
    apply list_elem_of_lookup in Hin as (i & Hi).
    set (r := copyOf (workerResponse result (fresh s)) (S (fresh s) + i)).
    exists r. split; [|split].
    + rewrite !resolutions_app, resolutions_imap.
      apply elem_of_app. right. apply elem_of_app. right.
      apply (elem_of_lookup_imap_2 (fun i h => (h, copyOf _ (S (fresh s) + i)))
               hs h i Hi).
    + subst r. unfold workerResponse. rewrite Hfail. reflexivity.
    + apply Hresume; subst r; unfold workerResponse; rewrite Hfail; reflexivity.
  - intros Hin. cbn [step]. rewrite imageProcessorOnError_eq. cbn [snd trace].
    apply list_elem_of_lookup in Hin as (i & Hi).
    exists (fatalResponse (fresh s + i)). split; [|split].
    + rewrite !resolutions_app, resolutions_imap.
      apply elem_of_app. right. apply elem_of_app. right.
      apply (elem_of_lookup_imap_2 (fun i h => (h, fatalResponse (fresh s + i)))
               _ h i Hi).
    + reflexivity.
    + apply Hresume; reflexivity.
Qed.

End FailedTranscode.

Section FailedTranscodeScenario.
#[local] Existing Instance Posix.env.
Import Scenario.

(** [worker_failure_reaches_waiters] at two requests waiting for image
    [123]. *)
Lemma worker_failure_reaches_waiters_witness :
  let result := {| messageID := imagePath; success := false;
                   buffer := EmptyString; error := Some "unsupported format" |} in
  let s := run [request70; request30] startTwo in
  let s' := snd (imageProcessorOnMessage result s) in
  (exists delivered,
     resolutions (trace s') = resolutions (trace s) ++ delivered
     /\ List.map fst delivered = [1; 3]
     /\ Forall (fun hr =>
                  status (snd hr) = 500
                  /\ body (snd hr) = "Image Processing Error: " +:+
                                     default "undefined" (error result))
          delivered
     /\ NoDup (List.map (fun hr => obj (snd hr)) delivered))
  /\ JsMap.get (messageID result) (imageProcessorHandles s') = None
  /\ (forall k, k <> messageID result ->
        JsMap.get k (imageProcessorHandles s')
        = JsMap.get k (imageProcessorHandles s))
  /\ imageProcessor s' = imageProcessor s
  /\ postedJobs (trace s') = postedJobs (trace s).
Proof.
  intros result s.
  apply (worker_failure_reaches_waiters result [1; 3] s).
  - vm_compute. reflexivity.
  - reflexivity.
Defined.

(** [failed_transcode_is_answered_with_cache_headers] at the first of these
    two requests. *)
Lemma failed_transcode_is_answered_with_cache_headers_witness :
  let result := {| messageID := imagePath; success := false;
                   buffer := EmptyString; error := Some "unsupported format" |} in
  let s := run [request70; request30] startTwo in
  exists r,
    (1, r) ∈ resolutions (trace (step (WorkerMessage result) s))
    /\ status r = 500
    /\ forall s2, exists final,
         fst (surfProtocolHandleImages_resume "123" r s2) = Ok final
         /\ status final = 500
         /\ body final = body r
         /\ headers final =
              ("content-type", "text/plain;charset=UTF-8") :: cacheHeaders "123".
Proof.
  intros result s.
  apply (failed_transcode_is_answered_with_cache_headers (env := Posix.env)
           "123" (WorkerMessage result) 1 s).
  split; [reflexivity|]. exists [1; 3]. split.
  - vm_compute. reflexivity.
  - apply list_elem_of_here.
Defined.

End FailedTranscodeScenario.

(** ** The cache directory *)

(** X7: [createCacheDirIfNotExists] makes the directory at most once.  When
    it succeeds the path exists afterwards (as a directory, or as the file
    that was already there), the files are as before, and calling it again
    changes nothing: no second [mkdir]. *)
Theorem createCacheDirIfNotExists_idempotent cacheDir s s1 :
  createCacheDirIfNotExists cacheDir s = (Ok tt, s1) ->
  (cacheDir ∈ dirs s1 \/ is_Some (files s1 !! cacheDir))
  /\ files s1 = files s
  /\ (trace s1 = trace s \/ trace s1 = trace s ++ [EMkdir cacheDir])
  /\ createCacheDirIfNotExists cacheDir s1 = (Ok tt, s1).
Proof.
  destruct s as [m wk tv ts fs ds c fl n tr].
  unfold createCacheDirIfNotExists, stat, mkdir. unfold_monad. cbn.
  destruct (fs !! cacheDir) as [f|] eqn:Hf; cbn.
  { intros [= <-]. cbn. rewrite Hf. cbn. repeat split; eauto. }
  destruct (bool_decide (cacheDir ∈ ds)) eqn:Hd; cbn.
  { intros [= <-]. cbn. rewrite Hf, Hd. cbn.
    apply bool_decide_eq_true in Hd. repeat split; eauto. }
  destruct (mkdir_fails fl); cbn; [discriminate|].
  intros [= <-]. cbn. rewrite Hf.
  rewrite bool_decide_eq_true_2 by set_solver. cbn.
  repeat split; eauto. left. set_solver.
Qed.

Section CacheDirScenario.
#[local] Existing Instance Posix.env.
Import Scenario.

(** [createCacheDirIfNotExists_idempotent] where the cache directory is
    still to be made. *)
Lemma createCacheDirIfNotExists_idempotent_witness :
  let s1 := snd (createCacheDirIfNotExists cachePath start) in
  (cachePath ∈ dirs s1 \/ is_Some (files s1 !! cachePath))
  /\ files s1 = files start
  /\ (trace s1 = trace start \/ trace s1 = trace start ++ [EMkdir cachePath])
  /\ createCacheDirIfNotExists cachePath s1 = (Ok tt, s1).
Proof.
  apply (createCacheDirIfNotExists_idempotent cachePath start).
  reflexivity.
Defined.

End CacheDirScenario.

(** ** What a computation adds to the trace *)

Section TraceAdds.
Context (P : list Effect -> Prop).
Context (P_nil : P []).
Context (P_app : forall a b, P a -> P b -> P (a ++ b)).

Lemma traceAdds_same {A} (m : M A) :
  (forall s, trace (snd (m s)) = trace s) -> traceAdds P m.
Proof.
  intros H s. exists []. rewrite H, app_nil_r. split; [reflexivity|exact P_nil].
Qed.

Lemma traceAdds_ret {A} (a : A) : traceAdds P (ret a).
Proof. apply traceAdds_same. reflexivity. Qed.

Lemma traceAdds_throw {A} e : traceAdds P (@throw A e).
Proof. apply traceAdds_same. reflexivity. Qed.

Lemma traceAdds_gets {A} (f : St -> A) : traceAdds P (gets f).
Proof. apply traceAdds_same. reflexivity. Qed.

Lemma traceAdds_new_id : traceAdds P new_id.
Proof. apply traceAdds_same. intros []. reflexivity. Qed.

Lemma traceAdds_modify (f : St -> St) :
  (forall s, trace (f s) = trace s) -> traceAdds P (modify f).
Proof. intros H. apply traceAdds_same. exact H. Qed.

Lemma traceAdds_emit e : P [e] -> traceAdds P (emit e).
Proof. intros He s. exists [e]. destruct s. split; [reflexivity|exact He]. Qed.

Lemma traceAdds_bind {A B} (m : M A) (k : A -> M B) :
  traceAdds P m -> (forall a, traceAdds P (k a)) -> traceAdds P (bind m k).
Proof.
  intros Hm Hk s. unfold bind. destruct (Hm s) as (tr1 & E1 & P1).
  destruct (m s) as [[a|e] s1]; cbn [snd] in *; [|eauto].
  destruct (Hk a s1) as (tr2 & E2 & P2).
  exists (tr1 ++ tr2). rewrite E2, E1, app_assoc. split; [reflexivity|auto].
Qed.

Lemma traceAdds_try_catch {A} (m : M A) (h : string -> M A) :
  traceAdds P m -> (forall e, traceAdds P (h e)) -> traceAdds P (try_catch m h).
Proof.
  intros Hm Hh s. unfold try_catch. destruct (Hm s) as (tr1 & E1 & P1).
  destruct (m s) as [[a|e] s1]; cbn [snd] in *; [eauto|].
  destruct (Hh e s1) as (tr2 & E2 & P2).
  exists (tr1 ++ tr2). rewrite E2, E1, app_assoc. split; [reflexivity|auto].
Qed.

Lemma traceAdds_new_Response b st hs : traceAdds P (new_Response b st hs).
Proof.
  unfold new_Response. apply traceAdds_bind; [apply traceAdds_new_id|].
  intros a. apply traceAdds_ret.
Qed.

End TraceAdds.

Ltac adds_step Hnil Happ :=
  first
    [ apply (traceAdds_bind _ Happ); [|intros ?]
    | apply (traceAdds_try_catch _ Happ); [|intros ?]
    | apply (traceAdds_ret _ Hnil)
    | apply (traceAdds_throw _ Hnil)
    | apply (traceAdds_gets _ Hnil)
    | apply (traceAdds_new_id _ Hnil)
    | apply (traceAdds_new_Response _ Hnil Happ)
    | apply (traceAdds_modify _ Hnil); intros []; reflexivity
    | match goal with
      | |- traceAdds _ (match ?x with _ => _ end) => destruct x
      | |- traceAdds _ (if ?b then _ else _) => destruct b
      end ].

(** ** The locator stays inside the directory of the resource files *)

Section ConfinedLocator.
Context {env : Env}.
Local Open Scope js_scope.

Lemma confined_nil : confined [].
Proof. split; constructor. Qed.

Lemma confined_app a b : confined a -> confined b -> confined (a ++ b).
Proof.
  intros [Fa Ra] [Fb Rb]. unfold confined.
  rewrite fetches_app, renames_app. split; apply Forall_app; auto.
Qed.

Lemma confined_quiet_one e :
  match e with EFetch _ | ERename _ _ => False | _ => True end ->
  confined [e].
Proof. destruct e; intros H; try contradiction; split; constructor. Qed.

Ltac confined_step :=
  first
    [ adds_step confined_nil confined_app
    | apply traceAdds_emit; apply confined_quiet_one; exact I ].

Lemma confined_fetchFilePath p : traceAdds confined (fetchFilePath resourcesDir p).
Proof.
  unfold fetchFilePath.
  destruct (isPathSafe resourcesDir p) eqn:Hs; cbn [negb].
  - unfold net_fetch. repeat confined_step.
    apply traceAdds_emit. split; cbn; repeat constructor. exact Hs.
  - repeat confined_step.
Qed.

Lemma confined_log_error msg : traceAdds confined (log_error msg).
Proof. unfold log_error. repeat confined_step. Qed.

Lemma confined_notFound resourceId : traceAdds confined (notFound resourceId).
Proof. unfold notFound. repeat confined_step. Qed.

Lemma confined_updateResource c r : traceAdds confined (updateResource c r).
Proof. unfold updateResource. repeat confined_step. Qed.

Lemma confined_migrateResourceFile a b r :
  a = b \/ isPathSafe resourcesDir b = true ->
  traceAdds confined (migrateResourceFile a b r).
Proof.
  intros Hab. unfold migrateResourceFile.
  apply (traceAdds_bind _ confined_app).
  - destruct (String.eqb_spec a b) as [Heq|Hne]; cbn [negb];
      [repeat confined_step|].
    destruct Hab as [Heq|Hsafe]; [contradiction|].
    unfold rename. apply (traceAdds_bind _ confined_app).
    + apply traceAdds_emit. split; cbn; repeat constructor. exact Hsafe.
    + intros ?. repeat confined_step.
  - intros ?. repeat confined_step.
Qed.

(** X8: whatever the resource and the state, the locator fetches only
    files at paths [isPathSafe] accepts under the directory of the resource
    files, and the destination of every rename it makes is such a path. *)
Theorem locator_is_confined resourceId resource s :
  exists tr,
    trace (snd (fetchResourceFile resourceId resource s)) = trace s ++ tr
    /\ Forall (fun p => isPathSafe resourcesDir p = true) (fetches tr)
    /\ Forall (fun ab => isPathSafe resourcesDir (snd ab) = true) (renames tr).
Proof.
  revert s. change (traceAdds confined (fetchResourceFile resourceId resource)).
  unfold fetchResourceFile.
  apply (traceAdds_try_catch _ confined_app);
    [|intros e; apply (traceAdds_bind _ confined_app);
        [apply confined_log_error|intros ?; apply confined_notFound]].
  apply (traceAdds_bind _ confined_app).
  { destruct resource as [r|]; [|apply (traceAdds_ret _ confined_nil)].
    destruct (_ && _); [apply confined_fetchFilePath|apply (traceAdds_ret _ confined_nil)]. }
  intros [stored|]; [apply (traceAdds_ret _ confined_nil)|].
  set (new := newFilePathOf resourceId resource).
  destruct (isPathSafe resourcesDir new) eqn:Hnew.
  - (* the current-scheme path is safe *)
    apply (traceAdds_bind _ confined_app); [apply confined_fetchFilePath|].
    intros [result|].
    + apply (traceAdds_bind _ confined_app); [|intros ?; apply (traceAdds_ret _ confined_nil)].
      destruct (match resource with Some r => _ | None => true end);
        [|apply (traceAdds_ret _ confined_nil)].
      apply confined_migrateResourceFile. left. reflexivity.
    + apply (traceAdds_bind _ confined_app); [apply confined_fetchFilePath|].
      intros [result|]; [|apply confined_notFound].
      apply (traceAdds_bind _ confined_app); [|intros ?; apply (traceAdds_ret _ confined_nil)].
      apply confined_migrateResourceFile. right. exact Hnew.
  - (* it is not: the answer is the 403 one, and nothing is renamed *)
    intros s. unfold bind at 1. rewrite (fetchFilePath_unsafe _ _ _ Hnew).
    cbv beta iota.
    match goal with
    | |- context [bind ?m ?k (set_fresh ?n s)] =>
        assert (Hm : traceAdds confined (bind m k))
    end.
    { apply (traceAdds_bind _ confined_app); [|intros ?; apply (traceAdds_ret _ confined_nil)].
      destruct (match resource with Some r => _ | None => true end);
        [|apply (traceAdds_ret _ confined_nil)].
      apply confined_migrateResourceFile. left. reflexivity. }
    destruct (Hm (set_fresh (S (fresh s)) s)) as (tr & E & Hc).
    exists tr. split; [|exact Hc]. rewrite E. destruct s; reflexivity.
Qed.

End ConfinedLocator.

(** ** Paths outside the directory of the resource files *)

Section Forbidden.
Context {env : Env}.
Local Open Scope js_scope.



Lemma fetchResourceFile_stored_unsafe resourceId r s :
  storedPathQualifies r = true ->
  isPathSafe resourcesDir (path r) = false ->
  fetchResourceFile resourceId (Some r) s =
  (Ok {| response := {| obj := fresh s; status := 403;
                        headers := [("content-type", "text/plain;charset=UTF-8")];
                        body := "Forbidden" |};
         filePath := path r; base := resourcesDir |},
   set_fresh (S (fresh s)) s).
Proof.
  intros Hq Hs. unfold fetchResourceFile. unfold storedPathQualifies in Hq.
  unfold extensionOf. unfold try_catch at 1. unfold bind at 1.
  rewrite Hq. rewrite (fetchFilePath_unsafe _ _ _ Hs). reflexivity.
Qed.

(** X9: a record whose stored path qualifies as a candidate but lies
    outside the directory of the resource files: the locator answers with
    the 403 [Forbidden] response at once.  Nothing is fetched, renamed,
    updated or logged (the trace and the files are as before), and the
    later candidates are not tried; a raw request for the resource returns
    this response as it is. *)
Theorem unsafe_stored_path_is_forbidden req resourceId r c s :
  sffs s = Some c ->
  c !! resourceId = Some r ->
  storedPathQualifies r = true ->
  isPathSafe resourcesDir (path r) = false ->
  let forbidden :=
    {| obj := fresh s; status := 403;
       headers := [("content-type", "text/plain;charset=UTF-8")];
       body := "Forbidden" |} in
  fetchResourceFile resourceId (Some r) s =
    (Ok {| response := forbidden; filePath := path r; base := resourcesDir |},
     set_fresh (S (fresh s)) s)
  /\ handleSurfResourceDataRequest req resourceId s =
       (Ok (Done forbidden), set_fresh (S (fresh s)) s).
Proof.
  intros Hc Hr Hq Hs forbidden. split.
  - apply fetchResourceFile_stored_unsafe; assumption.
  - unfold handleSurfResourceDataRequest. unfold bind at 1.
    unfold readResource, gets. rewrite Hc. cbn [mbind option_bind].
    rewrite Hr. unfold bind at 1.
    rewrite (fetchResourceFile_stored_unsafe resourceId r s Hq Hs).
    reflexivity.
Qed.


End Forbidden.

Section ForbiddenScenario.
#[local] Existing Instance Posix.env.
Import Scenario.

(** [unsafe_stored_path_is_forbidden] at a record of image [123] that
    points outside the directory of the resource files. *)
Lemma unsafe_stored_path_is_forbidden_witness :
  let r := {| id := "123"; path := "/data/secret.png"; type := "image/png";
              createdAt := "2026-01-01"; updatedAt := "2026-01-02";
              deleted := false |} in
  let s := initial {[ "/data/secret.png" := image123 ]} ∅
             (Some {[ "123" := r ]}) noFaults in
  let forbidden :=
    {| obj := 0; status := 403;
       headers := [("content-type", "text/plain;charset=UTF-8")];
       body := "Forbidden" |} in
  fetchResourceFile "123" (Some r) s =
    (Ok {| response := forbidden; filePath := "/data/secret.png";
           base := resourcesDir |},
     set_fresh 1 s)
  /\ handleSurfResourceDataRequest
       {| url := "surf://surf/resource/123?raw=1&quality=70" |} "123" s =
       (Ok (Done forbidden), set_fresh 1 s).
Proof.
  intros r s forbidden.
  apply (unsafe_stored_path_is_forbidden (env := Posix.env)
           {| url := "surf://surf/resource/123?raw=1&quality=70" |} "123" r
           {[ "123" := r ]} s); reflexivity.
Defined.


End ForbiddenScenario.

(** ** Raw requests that are not transcoded *)

Section RawAsIs.
Context {env : Env}.
Local Open Scope js_scope.

Lemma fetchResourceFile_stored_found resourceId r f s :
  storedPathQualifies r = true ->
  isPathSafe resourcesDir (path r) = true ->
  files s !! path r = Some f ->
  fetchResourceFile resourceId (Some r) s =
  (Ok {| response := fileResponse f (fresh s); filePath := path r;
         base := resourcesDir |},
   set_fresh (S (fresh s)) (set_trace (trace s ++ [EFetch (path r)]) s)).
Proof.
  intros Hq Hs Hf. unfold fetchResourceFile. unfold storedPathQualifies in Hq.
  unfold extensionOf. unfold try_catch at 1. unfold bind at 1.
  rewrite Hq. rewrite (fetchFilePath_found _ _ f s Hs Hf). reflexivity.
Qed.

(** X11: a raw request for a resource that is not an image, or is a GIF
    (content type not under [image/], or under [image/gif]), found at the
    stored path of its record.  The answer is the file as [net.fetch] gives
    it: status 200, its bytes, its content type, no cache headers; and that
    whatever the URL of the request asks for ([quality], [maxDimension]):
    the cache directory is not made, no worker is started and no job is
    posted. *)
Theorem non_transcodable_is_served_as_is req resourceId r c f s :
  sffs s = Some c ->
  c !! resourceId = Some r ->
  storedPathQualifies r = true ->
  isPathSafe resourcesDir (path r) = true ->
  files s !! path r = Some f ->
  startsWith (file_mime f) "image/" = false
    \/ startsWith (file_mime f) "image/gif" = true ->
  handleSurfResourceDataRequest req resourceId s =
  (Ok (Done {| obj := fresh s; status := 200;
               headers := [("content-type", file_mime f)];
               body := file_bytes f |}),
   set_fresh (S (fresh s)) (set_trace (trace s ++ [EFetch (path r)]) s)).
Proof.
  intros Hc Hr Hq Hs Hf Hmime.
  unfold handleSurfResourceDataRequest. unfold bind at 1.
  unfold readResource, gets. rewrite Hc. cbn [mbind option_bind].
  rewrite Hr. unfold bind at 1.
  rewrite (fetchResourceFile_stored_found resourceId r f s Hq Hs Hf).
  cbn [response fileResponse headers_get headers List.find fst snd fmap
       option_fmap option_map].
  rewrite String.eqb_refl. cbn [fmap option_fmap option_map snd].
  replace (startsWith (file_mime f) "image/" &&
           negb (startsWith (file_mime f) "image/gif")) with false.
  - reflexivity.
  - destruct Hmime as [-> | ->]; [reflexivity|]. cbn. rewrite andb_false_r.
    reflexivity.
Qed.

(** X12: a raw request for a resource no candidate path holds (each path
    safe, no file there).  The answer is the 404 [Not Found] response in
    plain text, returned as it is; every candidate has been fetched, in
    order, nothing is renamed or updated, and the image handler is not
    entered: the cache directory is not made, no worker is started and no
    job is posted. *)
Theorem missing_resource_is_404 req resourceId s :
  let resource := c ← sffs s; c !! resourceId in
  Forall (fun c => isPathSafe resourcesDir (snd c) = true
                   /\ files s !! snd c = None)
    (candidates resourceId resource) ->
  handleSurfResourceDataRequest req resourceId s =
  (Ok (Done {| obj := fresh s; status := 404;
               headers := [("content-type", "text/plain;charset=UTF-8")];
               body := "Not Found" |}),
   set_fresh (S (fresh s))
     (set_trace
        (trace s ++ List.map (fun c => EFetch (snd c))
                      (candidates resourceId resource)) s)).
Proof.
  intros resource Hall.
  unfold handleSurfResourceDataRequest. unfold bind at 1.
  unfold readResource, gets. fold resource. unfold bind at 1.
  rewrite fetchResourceFile_locate. unfold locate.
  unfold try_catch. unfold bind at 1.
  pose proof (tryCandidates_miss _ _ [] s Hall) as Hmiss.
  rewrite app_nil_r in Hmiss. rewrite Hmiss. cbn [tryCandidates].
  unfold ret at 1. cbv beta iota. rewrite notFound_eq.
  destruct s; reflexivity.
Qed.

End RawAsIs.

Section RawAsIsScenario.
#[local] Existing Instance Posix.env.
Import Scenario.

(** [non_transcodable_is_served_as_is] at a GIF asked for at quality 70. *)
Lemma non_transcodable_is_served_as_is_witness :
  let p := "/data/sffs_backend/resources/img-7.gif" in
  let f := {| file_bytes := "gif bytes of 7"; file_mime := "image/gif" |} in
  let r := {| id := "7"; path := p; type := "image/gif";
              createdAt := "2026-01-01"; updatedAt := "2026-01-02";
              deleted := false |} in
  let s := initial {[ p := f ]} ∅ (Some {[ "7" := r ]}) noFaults in
  handleSurfResourceDataRequest
    {| url := "surf://surf/resource/7?raw=1&quality=70" |} "7" s =
  (Ok (Done {| obj := 0; status := 200;
               headers := [("content-type", "image/gif")];
               body := "gif bytes of 7" |}),
   set_fresh 1 (set_trace ([] ++ [EFetch p]) s)).
Proof.
  intros p f r s.
  apply (non_transcodable_is_served_as_is (env := Posix.env)
           {| url := "surf://surf/resource/7?raw=1&quality=70" |} "7" r
           {[ "7" := r ]} f s); try reflexivity.
  right. reflexivity.
Defined.

(** [missing_resource_is_404] where nothing is on disk. *)
Lemma missing_resource_is_404_witness :
  let s := initial ∅ ∅ (Some {[ "123" := record123 ]}) noFaults in
  handleSurfResourceDataRequest
    {| url := "surf://surf/resource/123?raw=1&quality=70" |} "123" s =
  (Ok (Done {| obj := 0; status := 404;
               headers := [("content-type", "text/plain;charset=UTF-8")];
               body := "Not Found" |}),
   set_fresh 1
     (set_trace ([] ++ [EFetch imagePath; EFetch imagePath; EFetch legacyPath]) s)).
Proof.
  intros s.
  apply (missing_resource_is_404 (env := Posix.env)
           {| url := "surf://surf/resource/123?raw=1&quality=70" |} "123" s).
  vm_compute. repeat constructor.
Defined.

End RawAsIsScenario.

(** ** The worker around its teardown *)

Section AroundTeardown.
Context {env : Env}.
Local Open Scope js_scope.

Lemma JsMap_get_singleton {V} k (v : V) : JsMap.get k [(k, v)] = Some v.
Proof. unfold JsMap.get. cbn. rewrite String.eqb_refl. reflexivity. Qed.

(** A request that ends up waiting for the worker: what it did. *)
Lemma awaiting_inv requestURL resourceId img cacheDir h s :
  fst (surfProtocolHandleImages requestURL resourceId img cacheDir s)
    = Ok (Awaiting h) ->
  exists s1 params,
    quietStep s s1
    /\ imgPath params = img
    /\ let s2 := match imageProcessor s1 with
                 | Some _ => s1
                 | None => snd (initializeImageProcessor s1)
                 end in
       exists w,
         imageProcessor s2 = Some w
         /\ h = fresh s2
         /\ snd (surfProtocolHandleImages requestURL resourceId img cacheDir s)
            = snd (processImageWithWorker w params s2).
Proof.
  intros Hfst.
  destruct (surfProtocolHandleImages requestURL resourceId img cacheDir s)
    as [r s'] eqn:E.
  cbn [fst snd] in *. subst r.
  apply surfProtocolHandleImages_shape in E
    as [(resp & [=] & _)|(s1 & params & Q & Hp & w & Hw & E)].
  exists s1, params. split; [exact Q|]. split; [exact Hp|].
  cbv zeta. exists w. split; [exact Hw|].
  injection E as E1 E2. split; [exact E1|exact E2].
Qed.

Lemma initializeImageProcessor_eq s :
  initializeImageProcessor s =
  (Ok tt,
   mkSt (imageProcessorHandles s) (Some (fresh s))
        (imageProcessorDeinitTimeout s) (timers s)
        (files s) (dirs s) (sffs s) (faults s) (S (fresh s))
        (trace s ++ [ESpawn (fresh s); EListen (fresh s)])).
Proof.
  destruct s. unfold initializeImageProcessor. unfold_monad. cbn.
  rewrite <- app_assoc. reflexivity.
Qed.

(** The teardown timer firing on an empty table. *)
Lemma timer_fires_on_empty_table w t s :
  imageProcessor s = Some w ->
  imageProcessorHandles s = [] ->
  existsb (fun td => Nat.eqb (fst td) t) (timers s) = true ->
  step (TimerFires t) s =
  mkSt [] (Some w) None
       (List.filter (fun td => negb (Nat.eqb (fst td) t)) (timers s))
       (files s) (dirs s) (sffs s) (faults s) (fresh s)
       (trace s ++ [EUnlisten w; ETerminate w]).
Proof.
  intros Hw Hh Ht. cbn [step]. rewrite Ht.
  rewrite deinitializeImageProcessor_eq.
  destruct s as [m wk tv ts fs ds c fl n tr]. cbn in *. subst. reflexivity.
Qed.

(** X13: the worker is released and started again on demand.  When the
    teardown timer fires on an empty table and the termination has
    settled, there is no worker.  The next request that needs the
    transcoder starts a fresh worker, not the terminated one, and posts its
    job to it. *)
Theorem worker_restarts_after_teardown
    requestURL resourceId img cacheDir w t h s :
  imageProcessor s = Some w ->
  w < fresh s ->
  imageProcessorHandles s = [] ->
  existsb (fun td => Nat.eqb (fst td) t) (timers s) = true ->
  let s1 := step TerminateSettled (step (TimerFires t) s) in
  fst (surfProtocolHandleImages requestURL resourceId img cacheDir s1)
    = Ok (Awaiting h) ->
  let s2 := step (ImagesRequest requestURL resourceId img cacheDir) s1 in
  terminated (trace s1) = terminated (trace s) ++ [w]
  /\ imageProcessor s1 = None
  /\ exists w' params,
       w' <> w
       /\ spawned (trace s2) = spawned (trace s1) ++ [w']
       /\ imageProcessor s2 = Some w'
       /\ postedJobs (trace s2) = postedJobs (trace s1) ++ [(w', params, img)]
       /\ JsMap.get img (imageProcessorHandles s2) = Some [h].
Proof.
  intros Hw Hlt Hh Ht s1 Haw s2.
  assert (E1 : s1 =
    mkSt [] None None
         (List.filter (fun td => negb (Nat.eqb (fst td) t)) (timers s))
         (files s) (dirs s) (sffs s) (faults s) (fresh s)
         (trace s ++ [EUnlisten w; ETerminate w])).
  { subst s1. rewrite (timer_fires_on_empty_table w t s Hw Hh Ht). reflexivity. }
  clearbody s1. subst s1.
  destruct (awaiting_inv _ _ _ _ _ _ Haw)
    as (q & params & Q & Hp & w' & Hw' & -> & Es2).
  destruct Q as [Q1 Q2 Q3 Q4 Q5 (tr & Q6 & Q7)].
  cbn [imageProcessorHandles imageProcessor imageProcessorDeinitTimeout timers
       fresh trace] in Q1, Q2, Q3, Q4, Q5, Q6.
  rewrite Q2 in Hw', Es2. cbv beta iota in Hw', Es2.
  rewrite initializeImageProcessor_eq in Hw', Es2. cbn [snd] in Hw', Es2.
  cbn [imageProcessor] in Hw'. injection Hw' as <-.
  assert (E2 : s2 =
    mkSt [(img, [S (fresh q)])] (Some (fresh q)) (Some (S (S (fresh q))))
         (timers q ++ [(S (S (fresh q)), 10000%N)])
         (files q) (dirs q) (sffs q) (faults q) (S (S (S (fresh q))))
         (trace s ++ [EUnlisten w; ETerminate w] ++ tr
            ++ [ESpawn (fresh q); EListen (fresh q)]
            ++ [EPostMessage (fresh q) params img]
            ++ [ESetTimeout (S (S (fresh q))) 10000%N])).
  { subst s2. cbn [step]. rewrite Es2, processImageWithWorker_eq. cbv zeta.
    cbn [snd imageProcessorHandles imageProcessor imageProcessorDeinitTimeout
         timers files dirs sffs faults trace fresh].
    rewrite Q1, Q3, Q6, Hp.
    change (JsMap.get img []) with (@None (list Handle)).
    cbn [default app]. rewrite <- !app_assoc. reflexivity. }
  clearbody s2. subst s2.
  rewrite Q2. cbv beta iota. rewrite initializeImageProcessor_eq.
  cbn [snd fresh trace imageProcessor imageProcessorHandles].
  rewrite !terminated_app, !spawned_app, !postedJobs_app,
    (spawned_quiet tr Q7), (postedJobs_quiet tr Q7). cbn.
  split; [reflexivity|]. split; [reflexivity|].
  exists (fresh q), params. rewrite !app_nil_r.
  split; [lia|]. split; [reflexivity|]. split; [reflexivity|].
  split; [reflexivity|]. apply JsMap_get_singleton.
Qed.

(** X14: the window between [terminate()] and its settling.  The variable
    [imageProcessor] is cleared only when the termination settles, so a
    request that needs the transcoder in between starts no worker: its job
    is posted to the worker that has just been told to terminate.  Once the
    termination has settled there is no worker, the handle of the request
    is still in the table and has not been resolved; and a later request
    for the same image starts a fresh worker but posts no job, since the
    image has its entry. *)
Theorem job_posted_in_terminate_window
    requestURL resourceId img cacheDir w t h s :
  imageProcessor s = Some w ->
  imageProcessorHandles s = [] ->
  existsb (fun td => Nat.eqb (fst td) t) (timers s) = true ->
  let s1 := step (TimerFires t) s in
  fst (surfProtocolHandleImages requestURL resourceId img cacheDir s1)
    = Ok (Awaiting h) ->
  let s2 := step (ImagesRequest requestURL resourceId img cacheDir) s1 in
  let s3 := step TerminateSettled s2 in
  terminated (trace s1) = terminated (trace s) ++ [w]
  /\ spawned (trace s2) = spawned (trace s1)
  /\ (exists params,
        postedJobs (trace s2) = postedJobs (trace s1) ++ [(w, params, img)])
  /\ imageProcessor s3 = None
  /\ JsMap.get img (imageProcessorHandles s3) = Some [h]
  /\ resolvedHandles (trace s3) = resolvedHandles (trace s)
  /\ forall requestURL' resourceId' cacheDir' h',
       fst (surfProtocolHandleImages requestURL' resourceId' img cacheDir' s3)
         = Ok (Awaiting h') ->
       let s4 := step (ImagesRequest requestURL' resourceId' img cacheDir') s3 in
       postedJobs (trace s4) = postedJobs (trace s3)
       /\ (exists w', spawned (trace s4) = spawned (trace s3) ++ [w'])
       /\ JsMap.get img (imageProcessorHandles s4) = Some [h; h'].
Proof.
  intros Hw Hh Ht s1 Haw s2 s3.
  assert (E1 : s1 =
    mkSt [] (Some w) None
         (List.filter (fun td => negb (Nat.eqb (fst td) t)) (timers s))
         (files s) (dirs s) (sffs s) (faults s) (fresh s)
         (trace s ++ [EUnlisten w; ETerminate w])).
  { subst s1. apply (timer_fires_on_empty_table w t s Hw Hh Ht). }
  clearbody s1. subst s1.
  destruct (awaiting_inv _ _ _ _ _ _ Haw)
    as (q & params & Q & Hp & w0 & Hw0 & -> & Es2).
  destruct Q as [Q1 Q2 Q3 Q4 Q5 (tr & Q6 & Q7)].
  cbn [imageProcessorHandles imageProcessor imageProcessorDeinitTimeout timers
       fresh trace] in Q1, Q2, Q3, Q4, Q5, Q6.
  rewrite Q2 in Hw0, Es2. cbv beta iota in Hw0, Es2.
  rewrite Q2 in Hw0. injection Hw0 as <-.
  assert (E2 : s2 =
    mkSt [(img, [fresh q])] (Some w) (Some (S (fresh q)))
         (timers q ++ [(S (fresh q), 10000%N)])
         (files q) (dirs q) (sffs q) (faults q) (S (S (fresh q)))
         (trace s ++ [EUnlisten w; ETerminate w] ++ tr
            ++ [EPostMessage w params img]
            ++ [ESetTimeout (S (fresh q)) 10000%N])).
  { subst s2. cbn [step]. rewrite Es2, processImageWithWorker_eq. cbv zeta.
    cbn [snd]. rewrite Q1, Q2, Q3, Q6, Hp.
    change (JsMap.get img []) with (@None (list Handle)).
    cbn [default app]. rewrite <- !app_assoc. reflexivity. }
  clearbody s2. subst s2.
  assert (E3 : s3 =
    mkSt [(img, [fresh q])] None (Some (S (fresh q)))
         (timers q ++ [(S (fresh q), 10000%N)])
         (files q) (dirs q) (sffs q) (faults q) (S (S (fresh q)))
         (trace s ++ [EUnlisten w; ETerminate w] ++ tr
            ++ [EPostMessage w params img]
            ++ [ESetTimeout (S (fresh q)) 10000%N])) by reflexivity.
  clearbody s3. subst s3.
  rewrite Q2. cbv beta iota.
  pose proof (JsMap_get_singleton (V := list Handle) img [fresh q]) as Hg.
  split.
  { cbn [trace]. rewrite terminated_app. reflexivity. }
  split.
  { cbn [trace]. rewrite !spawned_app, (spawned_quiet tr Q7). cbn.
    rewrite !app_nil_r. reflexivity. }
  split.
  { exists params. cbn [trace].
    rewrite !postedJobs_app, (postedJobs_quiet tr Q7). cbn.
    rewrite !app_nil_r. reflexivity. }
  split; [reflexivity|]. split; [exact Hg|].
  split.
  { cbn [trace]. rewrite !resolvedHandles_app, (resolvedHandles_quiet tr Q7).
    cbn. rewrite !app_nil_r. reflexivity. }
  intros requestURL' resourceId' cacheDir' h' Haw' s4.
  destruct (awaiting_inv _ _ _ _ _ _ Haw')
    as (q' & params' & Q' & Hp' & w' & Hw' & -> & Es4).
  destruct Q' as [R1 R2 R3 R4 R5 (tr' & R6 & R7)].
  cbn [imageProcessorHandles imageProcessor imageProcessorDeinitTimeout timers
       fresh trace] in R1, R2, R3, R4, R5, R6.
  rewrite R2 in Hw', Es4. cbv beta iota in Hw', Es4.
  rewrite initializeImageProcessor_eq in Hw', Es4. cbn [snd] in Hw', Es4.
  cbn [imageProcessor] in Hw'. injection Hw' as <-.
  subst s4. cbn [step]. rewrite Es4, processImageWithWorker_eq. cbv zeta.
  cbn [snd imageProcessorHandles imageProcessor imageProcessorDeinitTimeout
       timers files dirs sffs faults trace fresh].
  rewrite R1, R3, R6, Hp'.
  repeat match goal with
  | |- context [match @JsMap.get ?V ?k ?m with _ => _ end] =>
      replace (@JsMap.get V k m) with (Some [fresh q])
        by (symmetry; apply JsMap_get_singleton)
  | |- context [default _ (@JsMap.get ?V ?k ?m)] =>
      replace (@JsMap.get V k m) with (Some [fresh q])
        by (symmetry; apply JsMap_get_singleton)
  end.
  rewrite R2. cbv beta iota.
  rewrite initializeImageProcessor_eq. cbn [snd fresh default app].
  rewrite !spawned_app, !postedJobs_app,
    (spawned_quiet tr' R7), (postedJobs_quiet tr' R7). cbn.
  rewrite !app_nil_r.
  split; [reflexivity|]. split; [eexists; reflexivity|].
  apply JsMap_get_set_eq.
Qed.

End AroundTeardown.

Section AroundTeardownScenario.
#[local] Existing Instance Posix.env.
Import Scenario.

(** [worker_restarts_after_teardown] once image [123] has been transcoded:
    the timer fires, the termination settles, and image [123] is asked for
    at another quality. *)
Lemma worker_restarts_after_teardown_witness :
  let s := run [request70; WorkerMessage answer123] startTwo in
  let s1 := step TerminateSettled (step (TimerFires 2) s) in
  let s2 := step request30 s1 in
  terminated (trace s1) = terminated (trace s) ++ [0]
  /\ imageProcessor s1 = None
  /\ exists w' params,
       w' <> 0
       /\ spawned (trace s2) = spawned (trace s1) ++ [w']
       /\ imageProcessor s2 = Some w'
       /\ postedJobs (trace s2) = postedJobs (trace s1) ++ [(w', params, imagePath)]
       /\ JsMap.get imagePath (imageProcessorHandles s2) = Some [6].
Proof.
  intros s.
  apply (worker_restarts_after_teardown (env := Posix.env)
           "surf://surf/resource/123?raw=1&quality=30" "123" imagePath cachePath
           0 2 6 s).
  - reflexivity.
  - vm_compute. lia.
  - reflexivity.
  - reflexivity.
  - vm_compute. reflexivity.
Defined.

(** [job_posted_in_terminate_window] in the same run, the request arriving
    before the termination has settled. *)
Lemma job_posted_in_terminate_window_witness :
  let s := run [request70; WorkerMessage answer123] startTwo in
  let s1 := step (TimerFires 2) s in
  let s2 := step request30 s1 in
  let s3 := step TerminateSettled s2 in
  terminated (trace s1) = terminated (trace s) ++ [0]
  /\ spawned (trace s2) = spawned (trace s1)
  /\ (exists params,
        postedJobs (trace s2) = postedJobs (trace s1) ++ [(0, params, imagePath)])
  /\ imageProcessor s3 = None
  /\ JsMap.get imagePath (imageProcessorHandles s3) = Some [5]
  /\ resolvedHandles (trace s3) = resolvedHandles (trace s)
  /\ forall requestURL' resourceId' cacheDir' h',
       fst (surfProtocolHandleImages requestURL' resourceId' imagePath cacheDir' s3)
         = Ok (Awaiting h') ->
       let s4 := step (ImagesRequest requestURL' resourceId' imagePath cacheDir') s3 in
       postedJobs (trace s4) = postedJobs (trace s3)
       /\ (exists w', spawned (trace s4) = spawned (trace s3) ++ [w'])
       /\ JsMap.get imagePath (imageProcessorHandles s4) = Some [5; h'].
Proof.
  intros s.
  apply (job_posted_in_terminate_window (env := Posix.env)
           "surf://surf/resource/123?raw=1&quality=30" "123" imagePath cachePath
           0 2 5 s).
  - reflexivity.
  - reflexivity.
  - reflexivity.
  - vm_compute. reflexivity.
Defined.

End AroundTeardownScenario.

(** ** The pattern of the file handler *)

Lemma stripPrefix_append (p rest : string) : stripPrefix p (p +:+ rest) = Some rest.
Proof.
  induction p as [|x p IH]; [destruct rest; reflexivity|].
  rewrite append_cons. cbn [stripPrefix]. rewrite Ascii.eqb_refl. exact IH.
Qed.

Lemma stripPrefix_inv (p s rest : string) :
  stripPrefix p s = Some rest -> s = p +:+ rest.
Proof.
  revert s. induction p as [|x p IH]; intros s H.
  - destruct s; injection H as <-; reflexivity.
  - destruct s as [|y s]; [discriminate|]. cbn [stripPrefix] in H.
    destruct (Ascii.eqb_spec x y) as [->|_]; [|discriminate].
    rewrite (IH s H). reflexivity.
Qed.

Lemma removeFirst_prefix (pat rest : string) :
  removeFirst pat (pat +:+ rest) = rest.
Proof.
  destruct (pat +:+ rest) as [|c s] eqn:E; cbn [removeFirst];
    rewrite <- E, stripPrefix_append; reflexivity.
Qed.

Lemma untilSlash_append (i rest : string) :
  allChars (fun c => negb (isSlash c)) i = true ->
  stopsAt isSlash rest = true ->
  untilSlash (i +:+ rest) = (i, rest).
Proof.
  intros Hi Hrest. induction i as [|x i IH].
  - destruct rest as [|c rest]; [reflexivity|].
    cbn in Hrest. change (EmptyString +:+ String c rest) with (String c rest).
    cbn [untilSlash]. unfold isSlash in Hrest. rewrite Hrest. reflexivity.
  - cbn [allChars] in Hi. apply andb_true_iff in Hi as [Hx Hi].
    rewrite append_cons. cbn [untilSlash]. unfold isSlash in Hx.
    apply negb_true_iff in Hx. rewrite Hx, (IH Hi). reflexivity.
Qed.

Lemma untilSlash_split (s : string) :
  s = fst (untilSlash s) +:+ snd (untilSlash s)
  /\ allChars (fun c => negb (isSlash c)) (fst (untilSlash s)) = true
  /\ stopsAt isSlash (snd (untilSlash s)) = true.
Proof.
  induction s as [|x s (IH1 & IH2 & IH3)]; [repeat split|].
  cbn [untilSlash]. destruct (Ascii.eqb x "/") eqn:Hx.
  - repeat split. exact Hx.
  - destruct (untilSlash s) as [a b]. cbn [fst snd] in *.
    rewrite append_cons. split; [f_equal; exact IH1|].
    split; [|exact IH3]. cbn [allChars]. unfold isSlash at 1. rewrite Hx.
    exact IH2.
Qed.

(** What the end of the pattern accepts. *)
Lemma matchIdTail_spec (rest : string) (o : option string) :
  matchIdTail rest = Some o <->
  match o with
  | None => rest = EmptyString \/ rest = "/"
  | Some i =>
      i <> EmptyString
      /\ allChars (fun c => negb (isSlash c)) i = true
      /\ (rest = "/" +:+ i \/ rest = "/" +:+ i +:+ "/")
  end.
Proof.
  split.
  - destruct rest as [|c r]; cbn [matchIdTail].
    { intros [= <-]. left. reflexivity. }
    destruct (Ascii.eqb_spec c "/") as [->|_]; [|discriminate].
    destruct (untilSlash_split r) as (Hr & Hi & Hafter).
    destruct (untilSlash r) as [i after]. cbn [fst snd] in *.
    destruct (String.eqb_spec i EmptyString) as [->|Hne].
    + destruct (String.eqb_spec r EmptyString) as [->|_]; [|discriminate].
      intros [= <-]. right. reflexivity.
    + destruct (String.eqb_spec after EmptyString) as [->|_]; cbn [orb].
      * intros [= <-]. rewrite append_empty_r in Hr. subst r.
        split; [exact Hne|]. split; [exact Hi|]. left. reflexivity.
      * destruct (String.eqb_spec after "/") as [->|_]; [|discriminate].
        intros [= <-]. subst r.
        split; [exact Hne|]. split; [exact Hi|]. right. reflexivity.
  - destruct o as [i|].
    + intros (Hne & Hi & [-> | ->]).
      * change ("/" +:+ i) with (String "/" i). cbn [matchIdTail].
        rewrite Ascii.eqb_refl.
        rewrite <- (append_empty_r i) at 1.
        rewrite (untilSlash_append i EmptyString Hi eq_refl).
        destruct (String.eqb_spec i EmptyString); [contradiction|reflexivity].
      * change ("/" +:+ i +:+ "/") with (String "/" (i +:+ "/")).
        cbn [matchIdTail]. rewrite Ascii.eqb_refl.
        rewrite (untilSlash_append i "/" Hi eq_refl).
        destruct (String.eqb_spec i EmptyString); [contradiction|reflexivity].
    + intros [-> | ->]; reflexivity.
Qed.

(** What the whole pattern accepts. *)
Lemma matchTypeId_shapes (pathname t : string) (o : option string) :
  matchTypeId pathname = Some (t, o) <->
  (t = "notebook" \/ t = "resource")
  /\ match o with
     | None => pathname = "/" +:+ t \/ pathname = "/" +:+ t +:+ "/"
     | Some i =>
         i <> EmptyString
         /\ allChars (fun c => negb (isSlash c)) i = true
         /\ (pathname = "/" +:+ t +:+ "/" +:+ i
             \/ pathname = "/" +:+ t +:+ "/" +:+ i +:+ "/")
     end.
Proof.
  assert (Happ : forall (t0 rest : string),
            ("/" +:+ t0) +:+ rest = "/" +:+ t0 +:+ rest)
    by (intros; apply append_assoc).
  unfold matchTypeId. split.
  - destruct (stripPrefix "/notebook" pathname) as [rest|] eqn:E1.
    { apply stripPrefix_inv in E1. subst pathname.
      destruct (matchIdTail rest) as [o'|] eqn:Em; [|discriminate].
      intros [= <- <-]. split; [left; reflexivity|].
      apply matchIdTail_spec in Em. destruct o' as [i|].
      - destruct Em as (Hne & Hi & [-> | ->]); repeat split; auto.
      - destruct Em as [-> | ->]; [left|right]; reflexivity. }
    destruct (stripPrefix "/resource" pathname) as [rest|] eqn:E2; [|discriminate].
    apply stripPrefix_inv in E2. subst pathname.
    destruct (matchIdTail rest) as [o'|] eqn:Em; [|discriminate].
    intros [= <- <-]. split; [right; reflexivity|].
    apply matchIdTail_spec in Em. destruct o' as [i|].
    + destruct Em as (Hne & Hi & [-> | ->]); repeat split; auto.
    + destruct Em as [-> | ->]; [left|right]; reflexivity.
  - intros [[-> | ->] Hshape].
    + assert (exists rest, pathname = "/notebook" +:+ rest
                           /\ matchIdTail rest = Some o) as (rest & -> & Em).
      { destruct o as [i|].
        - destruct Hshape as (Hne & Hi & [-> | ->]).
          + exists ("/" +:+ i). split; [reflexivity|].
            apply matchIdTail_spec. auto.
          + exists ("/" +:+ i +:+ "/"). split; [reflexivity|].
            apply matchIdTail_spec. auto.
        - destruct Hshape as [-> | ->].
          + exists EmptyString. split; reflexivity.
          + exists "/". split; reflexivity. }
      rewrite stripPrefix_append, Em. reflexivity.
    + assert (exists rest, pathname = "/resource" +:+ rest
                           /\ matchIdTail rest = Some o) as (rest & -> & Em).
      { destruct o as [i|].
        - destruct Hshape as (Hne & Hi & [-> | ->]).
          + exists ("/" +:+ i). split; [reflexivity|].
            apply matchIdTail_spec. auto.
          + exists ("/" +:+ i +:+ "/"). split; [reflexivity|].
            apply matchIdTail_spec. auto.
        - destruct Hshape as [-> | ->].
          + exists EmptyString. split; reflexivity.
          + exists "/". split; reflexivity. }
      assert (Hno : stripPrefix "/notebook" ("/resource" +:+ rest) = None)
        by reflexivity.
      rewrite Hno, stripPrefix_append, Em. reflexivity.
Qed.

(** X15: the pattern [handleSurfFileRequest] matches the path name with
    accepts exactly four shapes: the type alone ([/notebook] or
    [/resource]), the type and a [/], the type and an id, the type, an id
    and a [/], where the id is a non-empty run of characters other than
    [/].  The id is reported in the last two shapes only.  A path with more
    segments does not match. *)
Theorem matchTypeId_spec (pathname t : string) (o : option string) :
  matchTypeId pathname = Some (t, o) <->
  (t = "notebook" \/ t = "resource")
  /\ match o with
     | None => pathname = "/" +:+ t \/ pathname = "/" +:+ t +:+ "/"
     | Some i =>
         i <> EmptyString
         /\ allChars (fun c => negb (isSlash c)) i = true
         /\ (pathname = "/" +:+ t +:+ "/" +:+ i
             \/ pathname = "/" +:+ t +:+ "/" +:+ i +:+ "/")
     end.
Proof. apply matchTypeId_shapes. Qed.

(** ** The file handler *)

Section FileHandler.
Context {env : Env} {fenv : FileEnv}.
Context (fetchURL : string -> M Response).
Local Open Scope js_scope.

(** The handler once its [try] block has a target path. *)
Lemma handleSurfFileRequest_target req target s :
  targetPathOf req s = (Ok (inr target), s) ->
  handleSurfFileRequest fetchURL req s =
  (r <- serveFile fetchURL req target ;; ret (Done r)) s.
Proof.
  intros H. unfold handleSurfFileRequest. unfold bind at 1.
  unfold try_catch at 1. rewrite H. reflexivity.
Qed.

(** The handler once its [try] block has answered. *)
Lemma handleSurfFileRequest_answer req resp s s' :
  targetPathOf req s = (Ok (inl resp), s') ->
  handleSurfFileRequest fetchURL req s = (Ok (Done resp), s').
Proof.
  intros H. unfold handleSurfFileRequest. unfold bind at 1.
  unfold try_catch at 1. rewrite H. reflexivity.
Qed.

(** The [try] block for a URL that passes the checks of the protocol and
    of the host name, and is not a root request. *)
Lemma targetPathOf_checked req u s :
  URL_parse (url req) = Some u ->
  protocol u = "surf:" \/ protocol u = "surf-internal:" ->
  includes ALLOWED_HOSTNAMES (toLowerCase (hostname u)) = true ->
  targetPathOf req s =
  (if String.eqb (pathname u) "/" then
     rootPathOf (hostname u) (hostname u)
   else if String.eqb (hostname u) "surf" then
     match matchTypeId (pathname u) with
     | Some (type, Some i) =>
         if String.eqb (pathname u) ("/" +:+ type +:+ "/" +:+ i) then
           rootPathOf "surf" (hostname u)
         else if String.eqb (pathname u) ("/" +:+ type) then
           rootPathOf "surf" (hostname u)
         else
           ret (inr (removeFirst ("surf://surf/" +:+ type +:+ "/" +:+ i +:+ "/")
                       (URL_href (url req))))
     | Some (type, None) =>
         if String.eqb (pathname u) ("/" +:+ type) then
           rootPathOf "surf" (hostname u)
         else ret (inr (dropChars (String.length type + 1) (pathname u)))
     | None => ret (inr (pathname u))
     end
   else ret (inr (pathname u))) s.
Proof.
  intros HU Hp Hh. unfold targetPathOf. unfold bind at 1. rewrite HU.
  unfold ret at 1. cbv beta iota. rewrite Hh. cbn [negb].
  destruct Hp as [-> | ->]; reflexivity.
Qed.

(** X16: where a file request goes.  For a URL of the [surf:] or
    [surf-internal:] protocol: the root path of the hosts [core], [overlay]
    and [surf] is served from the document of the host; on the host [surf],
    [/notebook], [/resource] and [/notebook/<id>], [/resource/<id>] are
    served from the resource document, [/notebook/] and [/resource/] from
    the path [/], and [/<type>/<id>/] from the [href] of the URL without
    its leading [surf://surf/<type>/<id>/]; every other path, in particular
    a path of more segments such as [/notebook/<id>/file.js], is served as
    it is. *)
Theorem file_request_targets req u s :
  URL_parse (url req) = Some u ->
  protocol u = "surf:" \/ protocol u = "surf-internal:" ->
  let serves target :=
    handleSurfFileRequest fetchURL req s =
    (r <- serveFile fetchURL req target ;; ret (Done r)) s in
  let isType t := t = "notebook" \/ t = "resource" in
  let isId i :=
    i <> EmptyString /\ allChars (fun c => negb (isSlash c)) i = true in
  (pathname u = "/" ->
     (hostname u = "core" -> serves "/Core/core.html")
     /\ (hostname u = "overlay" -> serves "/Overlay/overlay.html")
     /\ (hostname u = "surf" -> serves "/Resource/resource.html"))
  /\ (hostname u = "surf" ->
        (forall t, isType t -> pathname u = "/" +:+ t ->
           serves "/Resource/resource.html")
        /\ (forall t i, isType t -> isId i ->
              pathname u = "/" +:+ t +:+ "/" +:+ i ->
              serves "/Resource/resource.html")
        /\ (forall t, isType t -> pathname u = "/" +:+ t +:+ "/" -> serves "/")
        /\ (forall t i, isType t -> isId i ->
              pathname u = "/" +:+ t +:+ "/" +:+ i +:+ "/" ->
              serves (removeFirst ("surf://surf/" +:+ t +:+ "/" +:+ i +:+ "/")
                        (URL_href (url req))))
        /\ (pathname u <> "/" -> matchTypeId (pathname u) = None ->
              serves (pathname u)))
  /\ (hostname u <> "surf" ->
      includes ALLOWED_HOSTNAMES (toLowerCase (hostname u)) = true ->
      pathname u <> "/" ->
      serves (pathname u)).
Proof.
  intros HU Hp serves isType isId.
  assert (Hlen : forall a b : string, a = b -> String.length a = String.length b)
    by (intros a b ->; reflexivity).
  split; [|split].
  - intros Hroot. repeat split; intros Hh; subst serves;
      apply handleSurfFileRequest_target;
      rewrite (targetPathOf_checked req u s HU Hp) by (rewrite Hh; reflexivity);
      rewrite Hroot, Hh; reflexivity.
  - intros Hh.
    assert (Hstart : forall t i rest,
      isType t -> pathname u = "/" +:+ t +:+ rest ->
      matchTypeId (pathname u) = Some (t, i) ->
      targetPathOf req s =
      (match i with
       | Some i =>
           if String.eqb (pathname u) ("/" +:+ t +:+ "/" +:+ i) then
             rootPathOf "surf" (hostname u)
           else if String.eqb (pathname u) ("/" +:+ t) then
             rootPathOf "surf" (hostname u)
           else
             ret (inr (removeFirst ("surf://surf/" +:+ t +:+ "/" +:+ i +:+ "/")
                         (URL_href (url req))))
       | None =>
           if String.eqb (pathname u) ("/" +:+ t) then
             rootPathOf "surf" (hostname u)
           else ret (inr (dropChars (String.length t + 1) (pathname u)))
       end) s).
    { intros t i rest Ht Hpath Hm.
      rewrite (targetPathOf_checked req u s HU Hp) by (rewrite Hh; reflexivity).
      rewrite Hh, Hm. cbn [String.eqb Ascii.eqb].
      destruct (String.eqb_spec (pathname u) "/") as [Heq|_]; [|reflexivity].
      rewrite Heq in Hpath. destruct Ht as [-> | ->]; discriminate. }
    split; [|split; [|split; [|split]]].
    + intros t Ht Hpath. subst serves. apply handleSurfFileRequest_target.
      rewrite (Hstart t None EmptyString Ht).
      * rewrite Hpath, String.eqb_refl. reflexivity.
      * rewrite Hpath, append_empty_r. reflexivity.
      * apply matchTypeId_shapes. split; [exact Ht|]. left. exact Hpath.
    + intros t i Ht [Hne Hi] Hpath. subst serves.
      apply handleSurfFileRequest_target.
      rewrite (Hstart t (Some i) ("/" +:+ i) Ht Hpath).
      * rewrite Hpath, String.eqb_refl. reflexivity.
      * apply matchTypeId_shapes. split; [exact Ht|]. repeat split; auto.
    + intros t Ht Hpath. subst serves. apply handleSurfFileRequest_target.
      rewrite (Hstart t None "/" Ht Hpath).
      * rewrite Hpath. destruct Ht as [-> | ->]; reflexivity.
      * apply matchTypeId_shapes. split; [exact Ht|]. right. exact Hpath.
    + intros t i Ht [Hne Hi] Hpath. subst serves.
      apply handleSurfFileRequest_target.
      rewrite (Hstart t (Some i) ("/" +:+ i +:+ "/") Ht Hpath).
      * rewrite Hpath.
        destruct (String.eqb_spec ("/" +:+ t +:+ "/" +:+ i +:+ "/")
                    ("/" +:+ t +:+ "/" +:+ i)) as [Heq|_].
        { apply Hlen in Heq. rewrite !length_append in Heq. cbn in Heq. lia. }
        destruct (String.eqb_spec ("/" +:+ t +:+ "/" +:+ i +:+ "/")
                    ("/" +:+ t)) as [Heq|_]; [|reflexivity].
        apply Hlen in Heq. rewrite !length_append in Heq. cbn in Heq. lia.
      * apply matchTypeId_shapes. split; [exact Ht|]. repeat split; auto.
    + intros Hnr Hm. subst serves. apply handleSurfFileRequest_target.
      rewrite (targetPathOf_checked req u s HU Hp) by (rewrite Hh; reflexivity).
      rewrite Hh, Hm. cbn [String.eqb Ascii.eqb].
      destruct (String.eqb_spec (pathname u) "/"); [contradiction|reflexivity].
  - intros Hh Hall Hnr. subst serves. apply handleSurfFileRequest_target.
    rewrite (targetPathOf_checked req u s HU Hp Hall).
    destruct (String.eqb_spec (pathname u) "/"); [contradiction|].
    destruct (String.eqb_spec (hostname u) "surf"); [contradiction|reflexivity].
Qed.

End FileHandler.

Section FileValidation.
Context {env : Env} {fenv : FileEnv}.
Context (fetchURL : string -> M Response).
Local Open Scope js_scope.

(** The answer of [handleSurfFileRequest] to a request it refuses: one
    error is logged, the response is the next new object, and nothing else
    happens. *)
Lemma refused_400 (b msg : string) s :
  (log_error msg ;;;
   r <- new_Response b 400 [("content-type", "text/plain;charset=UTF-8")] ;;
   ret (inl r) : M (Response + string)) s =
  (Ok (inl {| obj := fresh s; status := 400;
              headers := [("content-type", "text/plain;charset=UTF-8")];
              body := b |}),
   set_fresh (S (fresh s)) (set_trace (trace s ++ [ELogError msg]) s)).
Proof. destruct s. reflexivity. Qed.

(** X17: what a file request is refused for.  A URL that does not parse is
    answered with status 500; a protocol other than [surf:] and
    [surf-internal:], a host name that is not [core], [overlay] or [surf]
    up to the case of its letters, and a root request to a host name that
    is not one of these three exactly (so [CORE] is refused at its root
    path) are answered with status 400.  In each case one error is logged
    and nothing else happens: [serveFile] is not entered and nothing is
    fetched. *)
Theorem file_request_is_validated req s :
  let refuses st :=
    exists resp msg,
      handleSurfFileRequest fetchURL req s =
      (Ok (Done resp),
       set_fresh (S (fresh s)) (set_trace (trace s ++ [ELogError msg]) s))
      /\ status resp = st in
  (URL_parse (url req) = None -> refuses 500)
  /\ (forall u,
        URL_parse (url req) = Some u ->
        (protocol u <> "surf:" -> protocol u <> "surf-internal:" -> refuses 400)
        /\ (includes ALLOWED_HOSTNAMES (toLowerCase (hostname u)) = false ->
            refuses 400)
        /\ (pathname u = "/" -> HOSTNAME_TO_ROOT (hostname u) = None ->
            refuses 400)).
Proof.
  intros refuses. split.
  - intros HU. subst refuses. eexists _, _. split.
    + unfold handleSurfFileRequest. unfold bind at 1. unfold try_catch at 1.
      unfold targetPathOf. unfold bind at 1. rewrite HU. unfold throw at 1.
      cbv beta iota. destruct s. reflexivity.
    + reflexivity.
  - intros u HU.
    assert (Hbad : forall b msg,
      targetPathOf req s =
      (log_error msg ;;;
       r <- new_Response b 400 [("content-type", "text/plain;charset=UTF-8")] ;;
       ret (inl r)) s ->
      refuses 400).
    { intros b msg E. subst refuses. rewrite refused_400 in E.
      eexists _, msg. split; [apply handleSurfFileRequest_answer; exact E|].
      reflexivity. }
    split; [|split].
    + intros H1 H2. eapply Hbad. unfold targetPathOf. unfold bind at 1.
      rewrite HU. unfold ret at 1. cbv beta iota.
      destruct (String.eqb_spec (protocol u) "surf-internal:"); [contradiction|].
      destruct (String.eqb_spec (protocol u) "surf:"); [contradiction|].
      reflexivity.
    + intros Hh.
      destruct (negb (String.eqb (protocol u) "surf-internal:") &&
                negb (String.eqb (protocol u) "surf:")) eqn:Hp.
      * eapply Hbad. unfold targetPathOf. unfold bind at 1.
        rewrite HU. unfold ret at 1. cbv beta iota. rewrite Hp. reflexivity.
      * eapply Hbad. unfold targetPathOf. unfold bind at 1.
        rewrite HU. unfold ret at 1. cbv beta iota. rewrite Hp, Hh. reflexivity.
    + intros Hroot Hnone.
      destruct (negb (String.eqb (protocol u) "surf-internal:") &&
                negb (String.eqb (protocol u) "surf:")) eqn:Hp.
      { eapply Hbad. unfold targetPathOf. unfold bind at 1.
        rewrite HU. unfold ret at 1. cbv beta iota. rewrite Hp. reflexivity. }
      destruct (includes ALLOWED_HOSTNAMES (toLowerCase (hostname u))) eqn:Hh.
      * eapply Hbad. unfold targetPathOf. unfold bind at 1.
        rewrite HU. unfold ret at 1. cbv beta iota. rewrite Hp, Hh, Hroot.
        cbn [negb String.eqb Ascii.eqb]. unfold rootPathOf. rewrite Hnone.
        reflexivity.
      * eapply Hbad. unfold targetPathOf. unfold bind at 1.
        rewrite HU. unfold ret at 1. cbv beta iota. rewrite Hp, Hh. reflexivity.
Qed.

(** X18: the request filter and the file handler agree.  For a URL of the
    [surf:] protocol, [handleSurfFileRequest] reaches [serveFile] only when
    [checkSurfProtocolRequest] accepts the URL; and when it accepts, the
    handler does reach [serveFile], except for a root request to a host
    name that is not written in lower case, which is answered with status
    400. *)
Theorem filter_agrees_with_file_handler req u s :
  URL_parse (url req) = Some u ->
  protocol u = "surf:" ->
  let refuses st :=
    exists resp msg,
      handleSurfFileRequest fetchURL req s =
      (Ok (Done resp),
       set_fresh (S (fresh s)) (set_trace (trace s ++ [ELogError msg]) s))
      /\ status resp = st in
  let serves target :=
    handleSurfFileRequest fetchURL req s =
    (r <- serveFile fetchURL req target ;; ret (Done r)) s in
  (checkSurfProtocolRequest (url req) = false -> refuses 400)
  /\ (checkSurfProtocolRequest (url req) = true ->
      (exists target, serves target)
      \/ (pathname u = "/" /\ HOSTNAME_TO_ROOT (hostname u) = None
          /\ refuses 400)).
Proof.
  intros HU Hp refuses serves.
  unfold checkSurfProtocolRequest. rewrite HU, Hp, String.eqb_refl.
  cbn [andb].
  destruct (includes ALLOWED_HOSTNAMES (toLowerCase (hostname u))) eqn:Hh.
  - split; [discriminate|]. intros _.
    pose proof (targetPathOf_checked req u s HU (or_introl Hp) Hh) as E.
    destruct (String.eqb_spec (pathname u) "/") as [Hroot|Hnr].
    + unfold rootPathOf in E.
      destruct (HOSTNAME_TO_ROOT (hostname u)) as [root|] eqn:Hr.
      * left. exists root. apply handleSurfFileRequest_target. exact E.
      * right. split; [exact Hroot|]. split; [reflexivity|].
        rewrite refused_400 in E. eexists _, _.
        split; [apply handleSurfFileRequest_answer; exact E|reflexivity].
    + left.
      assert (Hroot : forall h, rootPathOf "surf" h s
                                = (Ok (inr "/Resource/resource.html"), s))
        by reflexivity.
      destruct (String.eqb (hostname u) "surf").
      * destruct (matchTypeId (pathname u)) as [[t [i|]]|].
        -- destruct (String.eqb (pathname u) ("/" +:+ t +:+ "/" +:+ i));
             [|destruct (String.eqb (pathname u) ("/" +:+ t))];
             eexists; apply handleSurfFileRequest_target; rewrite E;
             solve [apply Hroot | reflexivity].
        -- destruct (String.eqb (pathname u) ("/" +:+ t));
             eexists; apply handleSurfFileRequest_target; rewrite E;
             solve [apply Hroot | reflexivity].
        -- eexists; apply handleSurfFileRequest_target; rewrite E; reflexivity.
      * eexists; apply handleSurfFileRequest_target; rewrite E; reflexivity.
  - split; [|discriminate]. intros _. subst refuses.
    assert (E : targetPathOf req s =
      (log_error ("Invalid hostname: " +:+ hostname u) ;;;
       r <- new_Response "Invalid Breakwind internal protocol hostname" 400
              [("content-type", "text/plain;charset=UTF-8")] ;;
       ret (inl r)) s).
    { unfold targetPathOf. unfold bind at 1. rewrite HU. unfold ret at 1.
      cbv beta iota. rewrite Hp, Hh. reflexivity. }
    rewrite refused_400 in E. eexists _, _.
    split; [apply handleSurfFileRequest_answer; exact E|reflexivity].
Qed.

(** X19: [serveFile] checks the target before it fetches.  When the target
    path, joined to the directory of the renderer, is a path [isPathSafe]
    rejects, the answer is the 403 [Forbidden] response; the error is
    logged and nothing is fetched, in the production build as in the
    development one. *)
Theorem serveFile_forbids_unsafe_target req targetPath s :
  let basePath := join [getAppPath; "out"; "renderer"] in
  isPathSafe basePath (join [basePath; targetPath]) = false ->
  serveFile fetchURL req targetPath s =
  (Ok {| obj := fresh s; status := 403;
         headers := [("content-type", "text/plain;charset=UTF-8")];
         body := "Forbidden" |},
   set_fresh (S (fresh s))
     (set_trace
        (trace s ++ [ELogError ("Path is not safe: " +:+ basePath +:+ " "
                                +:+ targetPath)]) s)).
Proof.
  intros basePath Hs. unfold serveFile. fold basePath. rewrite Hs.
  destruct s. reflexivity.
Qed.

(** The [catch] of a handler that logs and answers with status 500. *)
Lemma catch_500_total {A} (m : M A) (wrap : Response -> A) msg s :
  exists a s',
    try_catch m
      (fun err =>
         log_error (msg err) ;;;
         r <- new_Response "Internal Server Error" 500
                [("content-type", "text/plain;charset=UTF-8")] ;;
         ret (wrap r)) s = (Ok a, s').
Proof.
  unfold try_catch. destruct (m s) as [[a|e] s1]; [eauto|].
  eexists _, _. reflexivity.
Qed.

Lemma serveFile_total req targetPath s :
  exists r s', serveFile fetchURL req targetPath s = (Ok r, s').
Proof.
  unfold serveFile.
  match goal with
  | |- context [try_catch ?m _ s] =>
      destruct (catch_500_total m (fun r => r)
                  (fun err => "serve file: " +:+ err) s) as (a & s' & E)
  end.
  eauto.
Qed.

Lemma handleSurfFileRequest_total req s :
  exists o s', handleSurfFileRequest fetchURL req s = (Ok o, s').
Proof.
  unfold handleSurfFileRequest. unfold bind at 1.
  destruct (catch_500_total (targetPathOf req) inl
              (fun err => "surf internal protocol error: " +:+ err) s)
    as ([resp|target] & s1 & E).
  - rewrite E. eexists _, _. reflexivity.
  - rewrite E. unfold bind at 1.
    destruct (serveFile_total req target s1) as (r & s2 & ->).
    eexists _, _. reflexivity.
Qed.


End FileValidation.

Section FileHandlerScenario.
#[local] Existing Instance Posix.env.
#[local] Existing Instance PosixFiles.fenv.
Import Scenario.
Local Open Scope js_scope.

(** [file_request_targets] at the root of the host [core], at the document
    of a notebook, and at a file below a notebook. *)
Lemma file_request_targets_witness :
  let s := initial ∅ ∅ None noFaults in
  let serves u target :=
    handleSurfFileRequest PosixFiles.fetchURL {| url := u |} s =
    (r <- serveFile PosixFiles.fetchURL {| url := u |} target ;; ret (Done r)) s in
  serves "surf://core/" "/Core/core.html"
  /\ serves "surf://surf/notebook/abc" "/Resource/resource.html"
  /\ serves "surf://surf/notebook/abc/" EmptyString
  /\ serves "surf://surf/notebook/abc/file.js" "/notebook/abc/file.js".
Proof.
  intros s serves. split; [|split; [|split]].
  - refine (proj1 (proj1 (file_request_targets (env := Posix.env)
              PosixFiles.fetchURL {| url := "surf://core/" |} _ s
              eq_refl (or_introl eq_refl)) eq_refl) eq_refl).
  - refine (proj1 (proj2 (proj1 (proj2 (file_request_targets (env := Posix.env)
              PosixFiles.fetchURL {| url := "surf://surf/notebook/abc" |} _ s
              eq_refl (or_introl eq_refl))) eq_refl))
              "notebook" "abc" (or_introl eq_refl) _ eq_refl).
    split; [discriminate|reflexivity].
  - refine (proj1 (proj2 (proj2 (proj2 (proj1 (proj2 (file_request_targets
              (env := Posix.env)
              PosixFiles.fetchURL {| url := "surf://surf/notebook/abc/" |} _ s
              eq_refl (or_introl eq_refl))) eq_refl))))
              "notebook" "abc" (or_introl eq_refl) _ eq_refl).
    split; [discriminate|reflexivity].
  - refine (proj2 (proj2 (proj2 (proj2 (proj1 (proj2 (file_request_targets
              (env := Posix.env)
              PosixFiles.fetchURL {| url := "surf://surf/notebook/abc/file.js" |}
              _ s eq_refl (or_introl eq_refl))) eq_refl))))
              _ eq_refl).
    discriminate.
Defined.

(** [file_request_is_validated] at a root request to the host [CORE]. *)
Lemma file_request_is_validated_witness :
  let s := initial ∅ ∅ None noFaults in
  exists resp msg,
    handleSurfFileRequest PosixFiles.fetchURL {| url := "surf://CORE/" |} s =
    (Ok (Done resp),
     set_fresh (S (fresh s)) (set_trace (trace s ++ [ELogError msg]) s))
    /\ status resp = 400.
Proof.
  intros s.
  refine (proj2 (proj2 (proj2 (file_request_is_validated (env := Posix.env)
            PosixFiles.fetchURL {| url := "surf://CORE/" |} s) _ eq_refl))
            eq_refl eq_refl).
Defined.

(** [filter_agrees_with_file_handler] at a host that is not allowed, and at
    a file of the host [overlay]. *)
Lemma filter_agrees_with_file_handler_witness :
  let s := initial ∅ ∅ None noFaults in
  (exists resp msg,
     handleSurfFileRequest PosixFiles.fetchURL
       {| url := "surf://example.com/index.html" |} s =
     (Ok (Done resp),
      set_fresh (S (fresh s)) (set_trace (trace s ++ [ELogError msg]) s))
     /\ status resp = 400)
  /\ ((exists target,
         handleSurfFileRequest PosixFiles.fetchURL
           {| url := "surf://overlay/assets/app.js" |} s =
         (r <- serveFile PosixFiles.fetchURL
                 {| url := "surf://overlay/assets/app.js" |} target ;;
          ret (Done r)) s)
      \/ (pathname {| protocol := "surf:"; hostname := "overlay";
                      pathname := "/assets/app.js"; searchParams := [] |} = "/"
          /\ HOSTNAME_TO_ROOT "overlay" = None
          /\ exists resp msg,
               handleSurfFileRequest PosixFiles.fetchURL
                 {| url := "surf://overlay/assets/app.js" |} s =
               (Ok (Done resp),
                set_fresh (S (fresh s)) (set_trace (trace s ++ [ELogError msg]) s))
               /\ status resp = 400)).
Proof.
  intros s. split.
  - refine (proj1 (filter_agrees_with_file_handler (env := Posix.env)
              PosixFiles.fetchURL {| url := "surf://example.com/index.html" |}
              _ s eq_refl eq_refl) eq_refl).
  - refine (proj2 (filter_agrees_with_file_handler (env := Posix.env)
              PosixFiles.fetchURL {| url := "surf://overlay/assets/app.js" |}
              _ s eq_refl eq_refl) eq_refl).
Defined.

(** [serveFile_forbids_unsafe_target] at a target that climbs out of the
    directory of the renderer. *)
Lemma serveFile_forbids_unsafe_target_witness :
  let s := initial ∅ ∅ None noFaults in
  serveFile PosixFiles.fetchURL {| url := "surf://core/../../etc/passwd" |}
    "/../../etc/passwd" s =
  (Ok {| obj := fresh s; status := 403;
         headers := [("content-type", "text/plain;charset=UTF-8")];
         body := "Forbidden" |},
   set_fresh (S (fresh s))
     (set_trace
        (trace s ++ [ELogError ("Path is not safe: "
                                +:+ join [getAppPath; "out"; "renderer"] +:+ " "
                                +:+ "/../../etc/passwd")]) s)).
Proof.
  intros s.
  apply (serveFile_forbids_unsafe_target (env := Posix.env)
           PosixFiles.fetchURL {| url := "surf://core/../../etc/passwd" |}
           "/../../etc/passwd" s).
  reflexivity.
Defined.

End FileHandlerScenario.

(** ** Surflets *)

Lemma append_inj_r (a b c : string) : a +:+ c = b +:+ c -> a = b.
Proof.
  revert b. induction a as [|x a IH]; intros b H.
  - destruct b as [|y b]; [reflexivity|].
    apply (f_equal String.length) in H.
    rewrite !length_append in H. cbn in H. lia.
  - destruct b as [|y b].
    + apply (f_equal String.length) in H.
      rewrite !length_append in H. cbn in H. lia.
    + rewrite !append_cons in H. injection H as -> H.
      rewrite (IH b H). reflexivity.
Qed.

Lemma substring_split (s : string) n :
  n <= String.length s ->
  s = substring 0 n s +:+ substring n (String.length s - n) s.
Proof.
  revert n. induction s as [|x s IH]; intros n H.
  - destruct n; [reflexivity|cbn in H; lia].
  - destruct n as [|n].
    + rewrite Nat.sub_0_r.
      rewrite (substring_whole (String x s) (String.length (String x s))) by lia.
      reflexivity.
    + cbn [substring String.length Nat.sub]. rewrite append_cons.
      f_equal. apply IH. cbn in H. lia.
Qed.

Lemma endsWith_inv (s suffix : string) :
  endsWith s suffix = true -> exists a, s = a +:+ suffix.
Proof.
  unfold endsWith. intros H. apply andb_true_iff in H as [Hle Heq].
  apply Nat.leb_le in Hle. apply String.eqb_eq in Heq.
  remember (String.length suffix) as k eqn:Hk. clear Hk.
  exists (substring 0 (String.length s - k) s). rewrite <- Heq.
  pose proof (substring_split s (String.length s - k)) as H.
  replace (String.length s - (String.length s - k)) with k in H by lia.
  apply H. lia.
Qed.

Lemma allChars_append keep (a b : string) :
  allChars keep (a +:+ b) = allChars keep a && allChars keep b.
Proof.
  induction a as [|x a IH]; [reflexivity|].
  rewrite append_cons. cbn [allChars]. rewrite IH, andb_assoc. reflexivity.
Qed.

(** Taking a suffix that starts with a dot out of a host name whose first
    part has no dot gives the first part. *)
Lemma removeFirst_label (i p : string) :
  allChars (fun c => negb (isDot c)) i = true ->
  removeFirst (String "." p) (i +:+ String "." p) = i.
Proof.
  intros Hi. induction i as [|x i IH].
  - change (EmptyString +:+ String "." p) with (String "." p).
    pose proof (removeFirst_prefix (String "." p) EmptyString) as H.
    rewrite append_empty_r in H. exact H.
  - cbn [allChars] in Hi. apply andb_true_iff in Hi as [Hx Hi].
    rewrite append_cons. cbn [removeFirst stripPrefix].
    unfold isDot in Hx. apply negb_true_iff in Hx.
    rewrite Ascii.eqb_sym, Hx. rewrite (IH Hi). reflexivity.
Qed.

Lemma no_v2_suffix (i : string) :
  allChars (fun c => negb (isDot c)) i = true ->
  endsWith (i +:+ ".app.local") ".v2.app.local" = false.
Proof.
  intros Hi. destruct (endsWith (i +:+ ".app.local") ".v2.app.local") eqn:E;
    [|reflexivity].
  apply endsWith_inv in E as (a & E).
  change (a +:+ ".v2.app.local") with (a +:+ ".v2" +:+ ".app.local") in E.
  rewrite <- append_assoc in E. apply append_inj_r in E. subst i.
  rewrite allChars_append in Hi. apply andb_true_iff in Hi as [_ Hi].
  discriminate.
Qed.

Section SurfletFacts.
Context {env : Env}.
Local Open Scope js_scope.

(** The handler for a host name under [.app.local], once the resource
    has been located. *)
Lemma surflet_located req u (v2 : bool) i located s s1 :
  URL_parse (url req) = Some u ->
  endsWith (hostname u) ".app.local" = true ->
  endsWith (hostname u) ".v2.app.local" = v2 ->
  removeFirst (if v2 then ".v2.app.local" else ".app.local") (hostname u) = i ->
  fetchResourceFile i (c ← sffs s; c !! i) s = (Ok located, s1) ->
  surfletProtocolHandler req s =
  (if ok (response located) then
     new_Response (body (response located)) 200
       (("Content-Type", "text/html") ::
        (if v2 then [("Content-Security-Policy", cspPolicy)] else []))
   else
     new_Response "Not Found" 404
       [("content-type", "text/plain;charset=UTF-8")]) s1.
Proof.
  intros HU Hl Hv2 Hi Hloc. unfold surfletProtocolHandler.
  unfold try_catch at 1. unfold bind at 1. rewrite HU. unfold ret at 1.
  cbv beta iota. rewrite Hl, Hv2. cbn [negb]. rewrite Hi.
  unfold bind at 1. unfold readResource, gets. unfold bind at 1.
  rewrite Hloc. destruct (ok (response located)); reflexivity.
Qed.

(** X21: a surflet is served as HTML.  For a host name made of an id
    without a dot and [.app.local] or [.v2.app.local], the handler reads
    the record of that id and locates its file; when the file is found,
    the answer has status 200, the content of the file and the content
    type [text/html], whatever the type of the file; the
    [Content-Security-Policy] header is there exactly for the [.v2] host
    names. *)
Theorem surflet_is_served_as_html req u i located s s1 :
  URL_parse (url req) = Some u ->
  allChars (fun c => negb (isDot c)) i = true ->
  fetchResourceFile i (c ← sffs s; c !! i) s = (Ok located, s1) ->
  ok (response located) = true ->
  let answer hs :=
    (Ok {| obj := fresh s1; status := 200; headers := hs;
           body := body (response located) |},
     set_fresh (S (fresh s1)) s1) in
  (hostname u = i +:+ ".v2.app.local" ->
   surfletProtocolHandler req s =
   answer [("Content-Type", "text/html");
           ("Content-Security-Policy", cspPolicy)])
  /\ (hostname u = i +:+ ".app.local" ->
      surfletProtocolHandler req s = answer [("Content-Type", "text/html")]).
Proof.
  intros HU Hi Hloc Hok answer. split; intros Hh.
  - rewrite (surflet_located req u true i located s s1 HU); try assumption.
    + rewrite Hok. reflexivity.
    + rewrite Hh.
      change (i +:+ ".v2.app.local") with (i +:+ ".v2" +:+ ".app.local").
      rewrite <- append_assoc. apply endsWith_append.
    + rewrite Hh. apply endsWith_append.
    + rewrite Hh. apply (removeFirst_label i "v2.app.local" Hi).
  - rewrite (surflet_located req u false i located s s1 HU); try assumption.
    + rewrite Hok. reflexivity.
    + rewrite Hh. apply endsWith_append.
    + rewrite Hh. apply no_v2_suffix. exact Hi.
    + rewrite Hh. apply (removeFirst_label i "app.local" Hi).
Qed.

(** X22: what a surflet request is refused for.  A host name that does not
    end in [.app.local] is answered with status 400 before the catalog or
    any file is looked at.  For a host name that does, whatever the locator
    answers with a status outside 200 to 299 (its 404, or its 403 for a
    path outside the directory of the resource files) becomes a plain 404
    [Not Found]. *)
Theorem surflet_refusals req u s :
  URL_parse (url req) = Some u ->
  (endsWith (hostname u) ".app.local" = false ->
   surfletProtocolHandler req s =
   (Ok {| obj := fresh s; status := 400;
          headers := [("content-type", "text/plain;charset=UTF-8")];
          body := "Invalid Surflet protocol URL" |},
    set_fresh (S (fresh s)) s))
  /\ (endsWith (hostname u) ".app.local" = true ->
      let i := removeFirst (if endsWith (hostname u) ".v2.app.local"
                            then ".v2.app.local" else ".app.local")
                 (hostname u) in
      forall located s1,
        fetchResourceFile i (c ← sffs s; c !! i) s = (Ok located, s1) ->
        ok (response located) = false ->
        surfletProtocolHandler req s =
        (Ok {| obj := fresh s1; status := 404;
               headers := [("content-type", "text/plain;charset=UTF-8")];
               body := "Not Found" |},
         set_fresh (S (fresh s1)) s1)).
Proof.
  intros HU. split.
  - intros Hl. unfold surfletProtocolHandler.
    unfold try_catch at 1. unfold bind at 1. rewrite HU. unfold ret at 1.
    cbv beta iota. rewrite Hl. reflexivity.
  - intros Hl i located s1 Hloc Hok.
    rewrite (surflet_located req u (endsWith (hostname u) ".v2.app.local")
               i located s s1 HU Hl eq_refl eq_refl Hloc).
    rewrite Hok. reflexivity.
Qed.

End SurfletFacts.

Section SurfletScenario.
#[local] Existing Instance Posix.env.
Import Scenario.

(** [surflet_is_served_as_html] at the surflet [app1], kept as a JSON
    resource, asked for under its [.v2] host name. *)
Lemma surflet_is_served_as_html_witness :
  let p := "/data/sffs_backend/resources/app1.json" in
  let f := {| file_bytes := "<html>app1</html>"; file_mime := "application/json" |} in
  let r := {| id := "app1"; path := p; type := "application/vnd.surf.app";
              createdAt := "2026-01-01"; updatedAt := "2026-01-02";
              deleted := false |} in
  let s := initial {[ p := f ]} ∅ (Some {[ "app1" := r ]}) noFaults in
  let s1 := set_fresh 1 (set_trace [EFetch p] s) in
  surfletProtocolHandler {| url := "surflet://app1.v2.app.local/" |} s =
  (Ok {| obj := fresh s1; status := 200;
         headers := [("Content-Type", "text/html");
                     ("Content-Security-Policy", cspPolicy)];
         body := "<html>app1</html>" |},
   set_fresh (S (fresh s1)) s1).
Proof.
  intros p f r s s1.
  refine (proj1 (surflet_is_served_as_html (env := Posix.env)
            {| url := "surflet://app1.v2.app.local/" |} _ "app1"
            {| response := fileResponse f 0; filePath := p;
               base := resourcesDir |} s s1 eq_refl eq_refl _ eq_refl) eq_refl).
  vm_compute. reflexivity.
Defined.

(** [surflet_refusals] at a host name outside [.app.local]. *)
Lemma surflet_refusals_witness :
  let s := initial ∅ ∅ None noFaults in
  surfletProtocolHandler {| url := "surflet://example.com/" |} s =
  (Ok {| obj := fresh s; status := 400;
         headers := [("content-type", "text/plain;charset=UTF-8")];
         body := "Invalid Surflet protocol URL" |},
   set_fresh (S (fresh s)) s).
Proof.
  intros s.
  refine (proj1 (surflet_refusals (env := Posix.env)
            {| url := "surflet://example.com/" |} _ s eq_refl) eq_refl).
Defined.

End SurfletScenario.

(** ** The document of a resource, and the answer to a transcode *)

Section ResourceDocument.
Context {env : Env} {fenv : FileEnv}.
Context (fetchURL : string -> M Response).
Local Open Scope js_scope.

Lemma try_catch_ok {A} (m : M A) h a s s' :
  m s = (Ok a, s') -> try_catch m h s = (Ok a, s').
Proof. intros E. unfold try_catch. rewrite E. reflexivity. Qed.

(** X23: a direct resource URL without [raw] gets the resource document.
    For [surf://surf/resource/<id>], whether it has no [raw] parameter or
    [raw=false], [surfProtocolHandler] does not look the resource up: it
    answers with what [serveFile] gives for [/Resource/resource.html]. *)
Theorem resource_document_is_served req u i s :
  URL_parse (url req) = Some u ->
  protocol u = "surf:" ->
  hostname u = "surf" ->
  pathname u = "/resource/" +:+ i ->
  i <> EmptyString ->
  allChars (fun c => negb (isSlash c)) i = true ->
  searchParams_has u "raw" = false \/ searchParams_get u "raw" = Some "false" ->
  surfProtocolHandler (handleSurfFileRequest fetchURL) req s =
  (r <- serveFile fetchURL req "/Resource/resource.html" ;; ret (Done r)) s.
Proof.
  intros HU Hp Hh Hpath Hne Hi Hraw.
  assert (Hfile : handleSurfFileRequest fetchURL req s =
    (r <- serveFile fetchURL req "/Resource/resource.html" ;; ret (Done r)) s).
  { apply handleSurfFileRequest_target.
    rewrite (targetPathOf_checked req u s HU (or_introl Hp))
      by (rewrite Hh; reflexivity).
    assert (Hm : matchTypeId (pathname u) = Some ("resource", Some i)).
    { apply matchTypeId_shapes. split; [right; reflexivity|].
      split; [exact Hne|]. split; [exact Hi|]. left. exact Hpath. }
    rewrite Hh, Hm.
    destruct (String.eqb_spec (pathname u) "/") as [Heq|_].
    { rewrite Heq in Hpath. discriminate. }
    cbn [String.eqb Ascii.eqb].
    destruct (String.eqb_spec (pathname u) ("/" +:+ "resource" +:+ "/" +:+ i))
      as [_|Hn]; [reflexivity|]. contradiction. }
  assert (Hc : searchParams_has u "raw" &&
               negb (bool_decide (searchParams_get u "raw" = Some "false"))
               = false).
  { destruct Hraw as [->| ->]; [reflexivity|].
    rewrite bool_decide_eq_true_2 by reflexivity. apply andb_false_r. }
  destruct (handleSurfFileRequest_total fetchURL req s) as (o & s' & Ho).
  rewrite <- Hfile, Ho. unfold surfProtocolHandler. apply try_catch_ok.
  destruct (matchResourceId (url req)); [|exact Ho].
  unfold bind at 1. rewrite HU. unfold ret at 1. cbv beta iota.
  rewrite Hc. exact Ho.
Qed.

End ResourceDocument.

Section TranscodedAnswer.
Context {env : Env}.

(** X24: the answer to a request whose transcode succeeded.  The response
    the waiting request is resolved with has status 200 and the bytes the
    worker sent, and [surfProtocolHandleImages] returns them under exactly
    the three cache headers: unlike the answer from the cache file, which
    carries the content type of the file, it has no content type. *)
Theorem transcoded_answer_has_no_content_type
    resourceId (result : WorkerResult) hs (h : Handle) s :
  success result = true ->
  JsMap.get (messageID result) (imageProcessorHandles s) = Some hs ->
  h ∈ hs ->
  exists r,
    (h, r) ∈ resolutions (trace (step (WorkerMessage result) s))
    /\ forall s2, exists final,
         fst (surfProtocolHandleImages_resume resourceId r s2) = Ok final
         /\ status final = 200
         /\ body final = buffer result
         /\ headers final = cacheHeaders resourceId
         /\ headers_get final "content-type" = None.
Proof.
  intros Hok Hget Hin. cbn [step].
  rewrite imageProcessorOnMessage_eq, Hget. cbv zeta. cbn [snd trace].
  rewrite Hok.
  apply list_elem_of_lookup in Hin as (i & Hi).
  set (r := copyOf (workerResponse result (fresh s)) (S (fresh s) + i)).
  exists r. split.
  - rewrite !resolutions_app, resolutions_imap.
    apply elem_of_app. right. apply elem_of_app. right.
    apply (elem_of_lookup_imap_2 (fun i h => (h, copyOf _ (S (fresh s) + i)))
             hs h i Hi).
  - intros s2. eexists. split; [reflexivity|].
    subst r. unfold workerResponse. rewrite Hok. cbn.
    repeat split; reflexivity.
Qed.

End TranscodedAnswer.

Section ResourceDocumentScenario.
#[local] Existing Instance Posix.env.
#[local] Existing Instance PosixFiles.fenv.
Import Scenario.
Local Open Scope js_scope.

(** [resource_document_is_served] at image [123] asked for with
    [raw=false]. *)
Lemma resource_document_is_served_witness :
  let req := {| url := "surf://surf/resource/123?raw=false" |} in
  surfProtocolHandler (handleSurfFileRequest PosixFiles.fetchURL) req start =
  (r <- serveFile PosixFiles.fetchURL req "/Resource/resource.html" ;;
   ret (Done r)) start.
Proof.
  intros req.
  refine (resource_document_is_served (env := Posix.env) PosixFiles.fetchURL
            req _ "123" start eq_refl eq_refl eq_refl eq_refl _ eq_refl
            (or_intror eq_refl)).
  discriminate.
Defined.

(** [transcoded_answer_has_no_content_type] at the request for image [123]
    at quality 70. *)
Lemma transcoded_answer_has_no_content_type_witness :
  let s := run [request70] startTwo in
  exists r,
    (1, r) ∈ resolutions (trace (step (WorkerMessage answer123) s))
    /\ forall s2, exists final,
         fst (surfProtocolHandleImages_resume "123" r s2) = Ok final
         /\ status final = 200
         /\ body final = buffer answer123
         /\ headers final = cacheHeaders "123"
         /\ headers_get final "content-type" = None.
Proof.
  intros s.
  apply (transcoded_answer_has_no_content_type (env := Posix.env)
           "123" answer123 [1] 1 s).
  - reflexivity.
  - vm_compute. reflexivity.
  - apply list_elem_of_here.
Defined.

End ResourceDocumentScenario.

(** ** A raw request for an image that has to be transcoded *)

Lemma createCacheDirIfNotExists_dirs d s :
  d ∈ dirs s \/ mkdir_fails (faults s) = false ->
  exists s1,
    createCacheDirIfNotExists d s = (Ok tt, s1)
    /\ (s1 = s \/ s1 = set_dirs ({[ d ]} ∪ dirs s)
                         (set_trace (trace s ++ [EMkdir d]) s)).
Proof.
  intros Hd.
  destruct s as [m wk tv ts fs ds c fl n tr].
  unfold createCacheDirIfNotExists, stat, mkdir. unfold_monad. cbn in *.
  destruct (fs !! d); cbn; [eexists; split; [reflexivity|left; reflexivity]|].
  destruct (bool_decide (d ∈ ds)) eqn:Eb; cbn;
    [eexists; split; [reflexivity|left; reflexivity]|].
  destruct Hd as [Hd|Hd].
  { apply bool_decide_eq_false in Eb. contradiction. }
  rewrite Hd. cbn. eexists. split; [reflexivity|right; reflexivity].
Qed.

Lemma stat_probe_missing p s :
  files s !! p = None ->
  p ∉ dirs s ->
  try_catch (stat p ;;; ret true) (fun _ => ret false) s = (Ok false, s).
Proof.
  intros Hf Hd. unfold stat. unfold_monad. rewrite Hf.
  rewrite bool_decide_eq_false_2 by exact Hd. reflexivity.
Qed.

Section RawImage.
Context {env : Env}.
Local Open Scope js_scope.

(** An image request that misses the cache goes to the worker. *)
Lemma request_submits requestURL resourceId img cacheDir u s :
  URL_parse requestURL = Some u ->
  quality (extractImageOptions u) <> None
    \/ maxDimension (extractImageOptions u) <> None ->
  let o := extractImageOptions u in
  let cachedPath := generateCachedPath resourceId cacheDir o in
  files s !! cachedPath = None ->
  cachedPath ∉ dirs s ->
  cachedPath <> cacheDir ->
  cacheDir ∈ dirs s \/ mkdir_fails (faults s) = false ->
  exists s1,
    quietStep s s1
    /\ files s1 = files s
    /\ fetches (trace s1) = fetches (trace s)
    /\ let s2 := match imageProcessor s1 with
                 | Some _ => s1
                 | None => snd (initializeImageProcessor s1)
                 end in
       let w := default (fresh s1) (imageProcessor s1) in
       surfProtocolHandleImages requestURL resourceId img cacheDir s =
       (Ok (Awaiting (fresh s2)),
        snd (processImageWithWorker w
               {| imgPath := img; savePath := cachedPath; options := o |} s2)).
Proof.
  intros HU Hopt o cachedPath Hfile Hnd Hne Hdir.
  destruct (createCacheDirIfNotExists_ok cacheDir s Hdir)
    as (s1 & E1 & Q1 & Hfs & Hfe).
  exists s1. split; [exact Q1|]. split; [exact Hfs|]. split; [exact Hfe|].
  cbv zeta.
  assert (Hnd1 : cachedPath ∉ dirs s1).
  { destruct (createCacheDirIfNotExists_dirs cacheDir s Hdir)
      as (s1' & E1' & Hs1).
    assert (s1' = s1) by congruence. subst s1'.
    destruct Hs1 as [-> | ->]; [exact Hnd|]. destruct s; cbn in *.
    intros Hin. apply elem_of_union in Hin as [Hin|Hin]; [|contradiction].
    apply elem_of_singleton in Hin. contradiction. }
  unfold surfProtocolHandleImages. unfold try_catch at 1.
  unfold bind at 1. rewrite E1. unfold bind at 1. rewrite HU.
  unfold ret at 1. cbv beta iota. fold o. fold cachedPath.
  assert (Hmiss :
    (stats <- try_catch (stat cachedPath ;;; ret true) (fun _ => ret false) ;;
     if (stats : bool) then
       response <- net_fetch cachedPath ;;
       r <- withCacheHeaders resourceId response ;;
       ret (Done r)
     else
       w <- gets imageProcessor ;;
       match w with
       | None => initializeImageProcessor
       | Some _ => ret tt
       end ;;;
       w <- gets imageProcessor ;;
       match w with
       | None => throw "TypeError: imageProcessor is null"
       | Some worker =>
           h <- processImageWithWorker worker
                  {| imgPath := img; savePath := cachedPath; options := o |} ;;
           ret (Awaiting h)
       end) s1 =
    (Ok (Awaiting
           (fresh match imageProcessor s1 with
                  | Some _ => s1
                  | None => snd (initializeImageProcessor s1)
                  end)),
     snd (processImageWithWorker (default (fresh s1) (imageProcessor s1))
            {| imgPath := img; savePath := cachedPath; options := o |}
            match imageProcessor s1 with
            | Some _ => s1
            | None => snd (initializeImageProcessor s1)
            end))).
  { unfold bind at 1.
    rewrite (stat_probe_missing cachedPath s1) by (rewrite ?Hfs; assumption).
    unfold bind at 1. unfold gets at 1.
    destruct (imageProcessor s1) as [w|] eqn:Hw.
    - unfold bind at 1. unfold ret at 1. unfold bind at 1. unfold gets at 1.
      rewrite Hw. unfold bind at 1.
      change (default (fresh s1) (Some w)) with w.
      rewrite processImageWithWorker_eq. reflexivity.
    - unfold bind at 1. rewrite initializeImageProcessor_eq.
      unfold bind at 1. unfold gets at 1. cbn [imageProcessor snd default].
      unfold bind at 1. rewrite processImageWithWorker_eq. reflexivity. }
  destruct (quality o) eqn:Hq; [rewrite Hmiss; reflexivity|].
  destruct (maxDimension o) eqn:Hm; [rewrite Hmiss; reflexivity|].
  destruct Hopt as [H|H]; contradiction.
Qed.

(** X25: the job of a raw image request.  A raw request for an image other
    than a GIF, found at the stored path of its record, with a transform
    parameter and no cache file yet: the request waits for the worker, and
    the job posted (when no job is in flight for the image) names the
    stored path as the image, the cache file of the resource for these
    parameters under the directory [cache] as the place to save, and the
    parameters; it is keyed by the stored path.  The image file itself has
    been fetched once, by the locator. *)
Theorem raw_image_request_posts_job req resourceId r c f u s :
  sffs s = Some c ->
  c !! resourceId = Some r ->
  storedPathQualifies r = true ->
  isPathSafe resourcesDir (path r) = true ->
  files s !! path r = Some f ->
  startsWith (file_mime f) "image/" = true ->
  startsWith (file_mime f) "image/gif" = false ->
  URL_parse (url req) = Some u ->
  quality (extractImageOptions u) <> None
    \/ maxDimension (extractImageOptions u) <> None ->
  let cacheDir := join [resourcesDir; "cache"] in
  let cachedPath := generateCachedPath resourceId cacheDir (extractImageOptions u) in
  files s !! cachedPath = None ->
  cachedPath ∉ dirs s ->
  cachedPath <> cacheDir ->
  cacheDir ∈ dirs s \/ mkdir_fails (faults s) = false ->
  JsMap.get (path r) (imageProcessorHandles s) = None ->
  let rs := handleSurfResourceDataRequest req resourceId s in
  exists h w,
    fst rs = Ok (Awaiting h)
    /\ imageProcessor (snd rs) = Some w
    /\ postedJobs (trace (snd rs)) =
         postedJobs (trace s) ++
         [(w, {| imgPath := path r; savePath := cachedPath;
                 options := extractImageOptions u |}, path r)]
    /\ JsMap.get (path r) (imageProcessorHandles (snd rs)) = Some [h]
    /\ fetches (trace (snd rs)) = fetches (trace s) ++ [path r].
Proof.
  intros Hc Hr Hq Hs Hf Himg Hgif HU Hopt cacheDir cachedPath Hcf Hcd Hne Hdir
    Hnone rs.
  set (s0 := set_fresh (S (fresh s)) (set_trace (trace s ++ [EFetch (path r)]) s)).
  assert (E : rs = surfProtocolHandleImages (url req) resourceId (path r)
                     cacheDir s0).
  { subst rs. unfold handleSurfResourceDataRequest. unfold bind at 1.
    unfold readResource, gets. rewrite Hc. cbn [mbind option_bind].
    rewrite Hr. unfold bind at 1.
    rewrite (fetchResourceFile_stored_found resourceId r f s Hq Hs Hf).
    cbn [response fileResponse headers_get headers List.find fst snd fmap
         option_fmap option_map filePath base].
    rewrite String.eqb_refl. cbn [fmap option_fmap option_map snd].
    rewrite Himg, Hgif. reflexivity. }
  assert (H0 : files s0 = files s /\ dirs s0 = dirs s /\ faults s0 = faults s
               /\ imageProcessorHandles s0 = imageProcessorHandles s
               /\ trace s0 = trace s ++ [EFetch (path r)])
    by (subst s0; destruct s; repeat split).
  destruct H0 as (F0 & D0 & L0 & T0 & R0).
  destruct (request_submits (url req) resourceId (path r) cacheDir u s0 HU Hopt)
    as (s1 & Q & Hfs & Hfe & Es); try (rewrite ?F0, ?D0, ?L0; assumption).
  cbv zeta in Es. rewrite E, Es. cbn [fst snd].
  destruct Q as [Q1 Q2 Q3 Q4 Q5 (tr & Q6 & Q7)].
  assert (Hqf : fetches tr = []).
  { rewrite Q6, fetches_app in Hfe.
    apply (app_inv_head (fetches (trace s0))). rewrite app_nil_r. exact Hfe. }
  rewrite processImageWithWorker_eq. cbv zeta. cbn [snd imgPath].
  destruct (imageProcessor s1) as [w|] eqn:Hw;
    rewrite ?initializeImageProcessor_eq;
    cbn [snd trace imageProcessor imageProcessorHandles
         imageProcessorDeinitTimeout fresh default];
    rewrite Q1, T0, Hnone, JsMap_get_set_eq, Q6, R0;
    rewrite ?Hw, !postedJobs_app, !fetches_app, (postedJobs_quiet tr Q7), Hqf;
    cbn;
    eexists _, _; (split; [reflexivity|]); (split; [reflexivity|]);
    destruct (imageProcessorDeinitTimeout s1); cbn; rewrite ?app_nil_r;
    repeat split; reflexivity.
Qed.

End RawImage.

Section RawImageScenario.
#[local] Existing Instance Posix.env.
Import Scenario.

(** [raw_image_request_posts_job] at image [123] asked for at quality 70,
    nothing in the cache. *)
Lemma raw_image_request_posts_job_witness :
  let req := {| url := "surf://surf/resource/123?raw=1&quality=70" |} in
  let rs := handleSurfResourceDataRequest req "123" start in
  exists h w,
    fst rs = Ok (Awaiting h)
    /\ imageProcessor (snd rs) = Some w
    /\ postedJobs (trace (snd rs)) =
         postedJobs (trace start) ++
         [(w, {| imgPath := imagePath;
                 savePath := generateCachedPath "123" (join [resourcesDir; "cache"])
                               {| quality := Some (Int 70); maxDimension := None |};
                 options := {| quality := Some (Int 70); maxDimension := None |} |},
           imagePath)]
    /\ JsMap.get imagePath (imageProcessorHandles (snd rs)) = Some [h]
    /\ fetches (trace (snd rs)) = fetches (trace start) ++ [imagePath].
Proof.
  intros req.
  refine (raw_image_request_posts_job (env := Posix.env) req "123" record123
            {[ "123" := record123 ]} image123 _ start
            eq_refl eq_refl eq_refl eq_refl eq_refl eq_refl eq_refl eq_refl
            (or_introl _) eq_refl _ _ (or_intror eq_refl) eq_refl).
  - discriminate.
  - apply not_elem_of_empty.
  - discriminate.
Defined.

End RawImageScenario.

(** ** The name of a cache file determines the transform *)











Section CacheName.
Context {env : Env}.


End CacheName.

Section CacheNameScenario.
#[local] Existing Instance Posix.env.
Import Scenario.


End CacheNameScenario.

(** ** Serving a file in the production build *)

Section Production.
Context {env : Env} {fenv : FileEnv}.
Context (fetchURL : string -> M Response).
Local Open Scope js_scope.

(** X27: [serveFile] in the production build, for a target [isPathSafe]
    accepts.  The file URL of the target is fetched; the answer keeps the
    status and the body of what was fetched and carries a single header,
    the content type [getContentType] gives for the file URL.  When the
    fetch fails, as it does for a file that is not there, the answer has
    status 500, not 404, and the error is logged. *)
Theorem serveFile_in_production req targetPath s :
  devRendererURL = None ->
  let basePath := join [getAppPath; "out"; "renderer"] in
  let target := join [basePath; targetPath] in
  let mainURL := pathToFileURL target in
  isPathSafe basePath target = true ->
  URL_parse mainURL <> None ->
  (forall fetched s1,
     fetchURL (URL_href mainURL) s = (Ok fetched, s1) ->
     serveFile fetchURL req targetPath s =
     (Ok {| obj := fresh s1; status := status fetched;
            headers := [("Content-Type", getContentType mainURL)];
            body := body fetched |},
      set_fresh (S (fresh s1)) s1))
  /\ (forall e s1,
        fetchURL (URL_href mainURL) s = (Throw e, s1) ->
        serveFile fetchURL req targetPath s =
        (Ok {| obj := fresh s1; status := 500;
               headers := [("content-type", "text/plain;charset=UTF-8")];
               body := "Internal Server Error" |},
         set_fresh (S (fresh s1))
           (set_trace (trace s1 ++ [ELogError ("serve file: " +:+ e)]) s1))).
Proof.
  intros Hdev basePath target mainURL Hsafe Hparse.
  assert (E : serveFile fetchURL req targetPath s =
    try_catch
      (response <- fetchURL (URL_href mainURL) ;;
       new_Response (body response) (status response)
         [("Content-Type", getContentType mainURL)])
      (fun err =>
         log_error ("serve file: " +:+ err) ;;;
         new_Response "Internal Server Error" 500
           [("content-type", "text/plain;charset=UTF-8")]) s).
  { unfold serveFile. fold basePath. fold target. rewrite Hsafe, Hdev.
    cbn [negb]. fold mainURL.
    destruct (URL_parse mainURL); [|contradiction]. reflexivity. }
  split.
  - intros fetched s1 Hf. rewrite E. unfold try_catch, bind. rewrite Hf.
    destruct s1. reflexivity.
  - intros e s1 Hf. rewrite E. unfold try_catch, bind at 1. rewrite Hf.
    destruct s1. reflexivity.
Qed.

End Production.

Section ProductionScenario.
#[local] Existing Instance Posix.env.
#[local] Existing Instance PosixFiles.fenv.
Import Scenario.

(** [serveFile_in_production] at the document of the host [core], which
    is not on disk. *)
Lemma serveFile_in_production_witness :
  let s := initial ∅ ∅ None noFaults in
  let s1 := set_trace (trace s ++ [EFetch "/app/out/renderer/Core/core.html"]) s in
  serveFile PosixFiles.fetchURL {| url := "surf://core/" |} "/Core/core.html" s =
  (Ok {| obj := fresh s1; status := 500;
         headers := [("content-type", "text/plain;charset=UTF-8")];
         body := "Internal Server Error" |},
   set_fresh (S (fresh s1))
     (set_trace
        (trace s1 ++ [ELogError ("serve file: " +:+ "net::ERR_FILE_NOT_FOUND")])
        s1)).
Proof.
  intros s s1.
  refine (proj2 (serveFile_in_production (env := Posix.env) PosixFiles.fetchURL
            {| url := "surf://core/" |} "/Core/core.html" s eq_refl eq_refl _)
            "net::ERR_FILE_NOT_FOUND" s1 eq_refl).
  discriminate.
Defined.

End ProductionScenario.
